(** * commute-gen.js: candidate scoring and selection

    A shallow embedding of [src/commute-gen.js] (the "Commute Curator") and
    the properties of its duration normalizer, rule merge, scorer, briefing
    selector and greedy packer.

    Modelling conventions.
    - A JavaScript Number is an IEEE 754 binary64 value: Rocq's primitive
      [float], with [nan] for NaN.  Durations, the target and ages are floats.
    - A score is a sum of a few small integer increments; it is kept as a [Z]
      (exact in binary64 as long as it stays below 2^53 in magnitude).
    - A Date is its time value: an integral number of milliseconds since the
      epoch, or NaN for an Invalid Date; it is an [option Z].
    - A string is a [string]: a sequence of code units below 256.
    - Objects that the program mutates (the rules object of the parsed
      configuration) live in an explicit store; variables hold locations.
    - The clock, [new Date()], is an effect: the k-th query of a run reads the
      k-th value of a clock function. *)

From Stdlib Require Import ZArith Lia Bool String Ascii List Floats.
From Stdlib Require Import Permutation Sorted.
From stdpp Require Import base list.
Import ListNotations.

Local Open Scope Z_scope.

(** ** JavaScript built-ins used by the program *)

Module JS.

(** *** Numbers *)

(** The binary64 value nearest to [m * 2^e] (ties to even). *)
Definition Z2F (m e : Z) : float :=
  SF2Prim (binary_normalize prec emax m e false).

(** The binary64 value nearest to the integer [z]. *)
Definition of_Z (z : Z) : float := Z2F z 0.

(** The binary64 value nearest to [m / d] for positive [m] and [d]: the
    quotient is computed with at least 64 significant bits and a sticky bit,
    then rounded once. *)
Definition div_round (m d : Z) : float :=
  let s := Z.max 0 (64 + Z.log2 d - Z.log2 m) in
  let q := (m * 2 ^ s) / d in
  let r := (m * 2 ^ s) mod d in
  Z2F (2 * q + (if r =? 0 then 0 else 1)) (- (s + 1)).

(** The binary64 value nearest to [m * 10^e10], for [m >= 0]. *)
Definition dec_to_float (m e10 : Z) : float :=
  if m =? 0 then PrimFloat.zero
  else if 0 <=? e10 then of_Z (m * 10 ^ e10)
  else div_round m (10 ^ (- e10)).

Definition with_sign (neg : bool) (x : float) : float :=
  if neg then PrimFloat.opp x else x.

(** *** Characters *)

Definition code (c : ascii) : Z := Z.of_nat (nat_of_ascii c).

(** StrWhiteSpaceChar, restricted to code units below 256. *)
Definition is_ws (c : ascii) : bool :=
  let n := code c in
  ((9 <=? n) && (n <=? 13)) || (n =? 32) || (n =? 160).

(** The value of a digit in radix 36 ('0'-'9', 'a'-'z', 'A'-'Z'). *)
Definition digit36 (c : ascii) : option Z :=
  let n := code c in
  if (48 <=? n) && (n <=? 57) then Some (n - 48)
  else if (97 <=? n) && (n <=? 122) then Some (n - 87)
  else if (65 <=? n) && (n <=? 90) then Some (n - 55)
  else None.

Definition digit_in (radix : Z) (c : ascii) : option Z :=
  match digit36 c with
  | Some d => if d <? radix then Some d else None
  | None => None
  end.

(** The longest prefix of radix-[radix] digits of [l]: its value on top of
    [acc], the number of digits read, and the rest of the input. *)
Fixpoint take_digits (radix : Z) (l : list ascii) (acc : Z) (n : Z)
  : Z * Z * list ascii :=
  match l with
  | c :: l' =>
      match digit_in radix c with
      | Some d => take_digits radix l' (acc * radix + d) (n + 1)
      | None => (acc, n, l)
      end
  | [] => (acc, n, [])
  end.

Fixpoint trim_start (l : list ascii) : list ascii :=
  match l with
  | c :: l' => if is_ws c then trim_start l' else l
  | [] => []
  end.

Definition trim (l : list ascii) : list ascii :=
  rev (trim_start (rev (trim_start l))).

Definition chars (s : string) : list ascii := list_ascii_of_string s.

Definition is_char (c : ascii) (x : string) : bool :=
  match x with
  | String d EmptyString => Ascii.eqb c d
  | _ => false
  end.

(** *** Number(string): StringToNumber *)

Variant numlit :=
  | NInfinity
  | NDecimal (m e10 : Z).

(** ExponentPart, optional: the exponent, or [None] when what follows the
    mantissa is neither empty nor a well-formed exponent. *)
Definition parse_exponent (l : list ascii) : option Z :=
  match l with
  | [] => Some 0
  | c :: l1 =>
      if is_char c "e" || is_char c "E" then
        let '(neg, l2) :=
          match l1 with
          | s :: l2 =>
              if is_char s "-" then (true, l2)
              else if is_char s "+" then (false, l2)
              else (false, l1)
          | [] => (false, l1)
          end in
        match take_digits 10 l2 0 0 with
        | (ev, n, []) => if 0 <? n then Some (if neg then - ev else ev) else None
        | _ => None
        end
      else None
  end.

(** StrUnsignedDecimalLiteral. *)
Definition parse_unsigned_decimal (l : list ascii) : option numlit :=
  if String.eqb (string_of_list_ascii l) "Infinity" then Some NInfinity
  else
    let '(ip, ni, r1) := take_digits 10 l 0 0 in
    let '(m, nf, r2) :=
      match r1 with
      | c :: r1' =>
          if is_char c "." then take_digits 10 r1' ip 0 else (ip, 0, r1)
      | [] => (ip, 0, r1)
      end in
    if 0 <? ni + nf then
      match parse_exponent r2 with
      | Some ev => Some (NDecimal m (ev - nf))
      | None => None
      end
    else None.

(** NonDecimalIntegerLiteral: 0x, 0o and 0b forms, without a sign. *)
Definition parse_non_decimal (l : list ascii) : option Z :=
  match l with
  | z :: p :: ds =>
      if is_char z "0" then
        let radix :=
          if is_char p "x" || is_char p "X" then Some 16
          else if is_char p "o" || is_char p "O" then Some 8
          else if is_char p "b" || is_char p "B" then Some 2
          else None in
        match radix with
        | Some r =>
            match take_digits r ds 0 0 with
            | (v, n, []) => if 0 <? n then Some v else None
            | _ => None
            end
        | None => None
        end
      else None
  | _ => None
  end.

Definition numlit_to_float (neg : bool) (n : numlit) : float :=
  match n with
  | NInfinity => with_sign neg PrimFloat.infinity
  | NDecimal m e10 => with_sign neg (dec_to_float m e10)
  end.

(** Number(s) for a string [s]. *)
Definition ToNumber (s : string) : float :=
  match trim (chars s) with
  | [] => PrimFloat.zero
  | (c :: l') as l =>
      match parse_non_decimal l with
      | Some v => of_Z v
      | None =>
          let '(neg, u) :=
            if is_char c "-" then (true, l')
            else if is_char c "+" then (false, l')
            else (false, l) in
          match parse_unsigned_decimal u with
          | Some n => numlit_to_float neg n
          | None => PrimFloat.nan
          end
      end
  end.

(** isNaN(s) for a string [s]. *)
Definition isNaN (s : string) : bool := PrimFloat.is_nan (ToNumber s).

(** *** parseInt(string), without a radix argument *)

Definition parseInt (s : string) : float :=
  let l := trim_start (chars s) in
  let '(neg, l1) :=
    match l with
    | c :: l' =>
        if is_char c "-" then (true, l')
        else if is_char c "+" then (false, l')
        else (false, l)
    | [] => (false, l)
    end in
  let '(radix, l2) :=
    match l1 with
    | z :: x :: l' =>
        if is_char z "0" && (is_char x "x" || is_char x "X") then (16, l')
        else (10, l1)
    | _ => (10, l1)
    end in
  match take_digits radix l2 0 0 with
  | (v, n, _) =>
      if 0 <? n then with_sign neg (of_Z v) else PrimFloat.nan
  end.

(** *** String.prototype.split with a one-character separator *)

Fixpoint split (sep : ascii) (s : string) : list string :=
  match s with
  | EmptyString => [EmptyString]
  | String c s' =>
      if Ascii.eqb c sep then EmptyString :: split sep s'
      else
        match split sep s' with
        | p :: ps => String c p :: ps
        | [] => [String c EmptyString]
        end
  end.

(** *** String.prototype.toLowerCase and includes

    On code units below 256 lower-casing moves 'A'-'Z' and the Latin-1
    capitals (all of 192-222 but the multiplication sign) 32 places up. *)

Definition lower_char (c : ascii) : ascii :=
  let n := code c in
  if ((65 <=? n) && (n <=? 90))
     || ((192 <=? n) && (n <=? 222) && negb (n =? 215))
  then ascii_of_nat (Z.to_nat (n + 32)) else c.

Fixpoint toLowerCase (s : string) : string :=
  match s with
  | EmptyString => EmptyString
  | String c s' => String (lower_char c) (toLowerCase s')
  end.

(** [includes s sub]: [sub] occurs in [s] as a substring. *)
Fixpoint includes (s sub : string) : bool :=
  String.prefix sub s ||
  match s with
  | EmptyString => false
  | String _ s' => includes s' sub
  end.

(** *** Values that a feed item's duration field can hold *)

Variant value :=
  | Undefined
  | Num (x : float)
  | Str (s : string).

(** ToBoolean. *)
Definition truthy (v : value) : bool :=
  match v with
  | Undefined => false
  | Num x => negb (PrimFloat.is_zero x || PrimFloat.is_nan x)
  | Str s => negb (String.eqb s "")
  end.

(** [a || b]. *)
Definition or_else (a b : value) : value := if truthy a then a else b.

(** *** Strings of decimal digits *)

Definition is_digit (c : ascii) : bool :=
  match digit_in 10 c with
  | Some _ => true
  | None => false
  end.

Definition all_digits (s : string) : bool := forallb is_digit (chars s).

(** The number a string of decimal digits denotes; 0 for the empty string. *)
Definition decimal (s : string) : Z :=
  fst (fst (take_digits 10 (chars s) 0 0)).

(** A decimal digit or a colon. *)
Definition field_char (c : ascii) : bool := is_digit c || Ascii.eqb c ":".

End JS.

(** ** The duration normalizer (lines 27-36) *)

Local Open Scope float_scope.

Definition parseDuration (duration : JS.value) : float :=
  if negb (JS.truthy duration) then 0
  else
    match duration with
    | JS.Num x => x / 60
    | JS.Str s =>
        if negb (JS.isNaN s) then JS.parseInt s / 60
        else
          match map JS.ToNumber (JS.split ":" s) with
          | [p0; p1; p2] => p0 * 60 + p1 + p2 / 60
          | [p0; p1] => p0 + p1 / 60
          | _ => 0
          end
    | JS.Undefined => 0
    end.

Local Close Scope float_scope.

(** ** Data model *)

(** An item as the feed reader delivers it.  Absent string fields are the
    empty string (both are falsy); the publication date is the time value of
    [new Date(item.pubDate)]. *)
Record RawItem := {
  raw_title : string;
  raw_link : option string;
  raw_guid : option string;
  raw_enclosure_url : option string;
  raw_pubDate : option Z;
  raw_duration : JS.value;
  raw_itunes_duration : JS.value;
  raw_contentSnippet : string;
  raw_content : string
}.

(** The record built at lines 78-87. *)
Record Item := {
  title : string;
  link : option string;
  guid : option string;
  audio_url : option string;
  pubDate : option Z;
  duration : float;
  contentSnippet : string;
  feedName : string;
  tags : list string
}.

(** [{ ...item, score }] (line 140). *)
Record Scored := {
  s_item : Item;
  score : Z
}.

(** An element of [selected]: the briefing, which carries no score, or a
    scored item. *)
Variant Sel :=
  | SBriefing (b : Item)
  | SScored (s : Scored).

Definition sel_item (s : Sel) : Item :=
  match s with
  | SBriefing b => b
  | SScored s => s_item s
  end.

Record FeedConfig := {
  fc_name : string;
  fc_tags : option (list string);
  fc_url : string
}.

(** ** The store: objects of the parsed configuration *)

Abbreviation loc := nat.

(** [config.rules]: its properties hold references to arrays. *)
Record RulesObj := {
  boost_keywords : loc;
  block_keywords : loc;
  boost_guests : loc;
  datenight_keywords : loc;
  datenight_block : loc
}.

Variant cell :=
  | Arr (xs : list string)
  | Rules (r : RulesObj).

Abbreviation store := (list cell).

Record Config := {
  cfg_target_duration_minutes : option float;
  cfg_rules : loc;
  cfg_feeds : list FeedConfig
}.

(** ** The environment and the effects of a run *)

Record Env := {
  clock : nat -> Z;                         (* the k-th [new Date()] *)
  localTZA : Z -> Z;                        (* local time zone offset, ms *)
  parseURL : string -> option (list RawItem) (* [None]: the fetch failed *)
}.

Record World := {
  ticks : nat;     (* clock queries made so far *)
  heap : store
}.

(** A computation reads and updates the world, or throws. *)
Definition M (A : Type) : Type := World -> option (A * World).

Definition ret {A} (a : A) : M A := fun w => Some (a, w).

Definition bind {A B} (m : M A) (k : A -> M B) : M B :=
  fun w => match m w with
           | Some (a, w') => k a w'
           | None => None
           end.

Definition throw {A} : M A := fun _ => None.

Notation "'let*' x ':=' m 'in' k" := (bind m (fun x => k))
  (at level 10, x name, m at level 200, k at level 200).

Fixpoint mapM {A B} (f : A -> M B) (l : list A) : M (list B) :=
  match l with
  | [] => ret []
  | a :: l' =>
      let* b := f a in
      let* bs := mapM f l' in
      ret (b :: bs)
  end.

Definition read_rules (l : loc) : M RulesObj :=
  fun w => match heap w !! l with
           | Some (Rules r) => Some (r, w)
           | _ => None
           end.

Definition read_arr (l : loc) : M (list string) :=
  fun w => match heap w !! l with
           | Some (Arr xs) => Some (xs, w)
           | _ => None
           end.

(** A new object, at a location that did not exist before. *)
Definition alloc (c : cell) : M loc :=
  fun w => Some (length (heap w),
                 {| ticks := ticks w; heap := heap w ++ [c] |}).

(** Assignment to the properties of the object at [l]. *)
Definition write (l : loc) (c : cell) : M unit :=
  fun w => if decide (l < length (heap w))%nat
           then Some (tt, {| ticks := ticks w; heap := <[l := c]> (heap w) |})
           else None.

Section Run.

Variable env : Env.

(** [new Date()]: one more query of the clock. *)
Definition now : M Z :=
  fun w => Some (clock env (ticks w),
                 {| ticks := S (ticks w); heap := heap w |}).

(** [Date.prototype.getDay], in local time. *)
Definition getDay (t : Z) : Z :=
  (((t + localTZA env t) / 86400000) + 4) mod 7.

(** The Number a Date converts to. *)
Definition timeValue (d : option Z) : float :=
  match d with
  | Some t => JS.of_Z t
  | None => PrimFloat.nan
  end.

(** [a > b] on two Dates. *)
Definition date_gt (a b : option Z) : bool :=
  match a, b with
  | Some x, Some y => y <? x
  | _, _ => false
  end.

(** ** Rule building (lines 63-69) *)

(** [rules.boost_keywords = [...rules.boost_keywords, ...rules.datenight_keywords]]
    and the same for the block list; [rules] is the location of
    [config.rules] itself. *)
Definition mergeDateNight (rules : loc) : M unit :=
  let* r := read_rules rules in
  let* bk := read_arr (boost_keywords r) in
  let* dk := read_arr (datenight_keywords r) in
  let* l1 := alloc (Arr (bk ++ dk)) in
  let* _ := write rules (Rules {|
              boost_keywords := l1;
              block_keywords := block_keywords r;
              boost_guests := boost_guests r;
              datenight_keywords := datenight_keywords r;
              datenight_block := datenight_block r |}) in
  let* r' := read_rules rules in
  let* bl := read_arr (block_keywords r') in
  let* db := read_arr (datenight_block r') in
  let* l2 := alloc (Arr (bl ++ db)) in
  write rules (Rules {|
    boost_keywords := boost_keywords r';
    block_keywords := l2;
    boost_guests := boost_guests r';
    datenight_keywords := datenight_keywords r';
    datenight_block := datenight_block r' |}).

Definition buildRules (rules : loc) (isThursday : bool) : M unit :=
  if isThursday then mergeDateNight rules else ret tt.

(** ** Fetch (lines 72-103) *)

Definition truthy_str (s : option string) : bool :=
  match s with
  | Some s => negb (String.eqb s "")
  | None => false
  end.

Definition mkItem (fc : FeedConfig) (item : RawItem) : Item := {|
  title := raw_title item;
  link := raw_link item;
  guid := raw_guid item;
  audio_url := raw_enclosure_url item;
  pubDate := raw_pubDate item;
  duration :=
    parseDuration (JS.or_else (raw_duration item) (raw_itunes_duration item));
  contentSnippet :=
    if negb (String.eqb (raw_contentSnippet item) "")
    then raw_contentSnippet item
    else raw_content item;
  feedName := fc_name fc;
  tags := match fc_tags fc with Some t => t | None => [] end
|}.

(** [feed.items.slice(0, 5).map(...).filter(item => item.audio_url)]. *)
Definition feedItems (fc : FeedConfig) (items : list RawItem) : list Item :=
  List.filter (fun i => truthy_str (audio_url i))
              (map (mkItem fc) (firstn 5 items)).

Definition includes_tag (ts : list string) (t : string) : bool :=
  existsb (String.eqb t) ts.

Definition isBriefingFeed (ts : list string) : bool :=
  includes_tag ts "news" && includes_tag ts "briefing".

(** One iteration of the loop over [config.feeds]; a failure inside the
    [try] block leaves both variables as they were. *)
Definition fetchStep (st : list Item * option Item) (fc : FeedConfig)
  : list Item * option Item :=
  let '(candidates, newsBriefing) := st in
  match parseURL env (fc_url fc) with
  | None => st
  | Some raw =>
      let items := feedItems fc raw in
      match fc_tags fc with
      | None => st
      | Some ts =>
          if isBriefingFeed ts then
            match List.find (fun i => duration i <? 15)%float items with
            | Some briefing =>
                match newsBriefing with
                | None => (candidates, Some briefing)
                | Some held =>
                    if date_gt (pubDate briefing) (pubDate held)
                    then (candidates, Some briefing)
                    else st
                end
            | None => st
            end
          else (candidates ++ items, newsBriefing)
      end
  end.

Definition fetchAll (fcs : list FeedConfig) : list Item * option Item :=
  fold_left fetchStep fcs ([], None).

(** ** Score (lines 106-143) *)

(** [kws.forEach(kw => { if (text.includes(kw.toLowerCase())) score += points })]. *)
Definition keywordPoints (text : string) (kws : list string) (points : Z)
  (score : Z) : Z :=
  fold_left
    (fun sc kw =>
       if JS.includes text (JS.toLowerCase kw) then sc + points else sc)
    kws score.

Definition freshTags : list string := ["news"; "tech"; "space"; "business"]%string.

Definition scoreOf (boost guests block : list string) (isThursday : bool)
  (ageInDays : float) (item : Item) : Z :=
  let text := JS.toLowerCase (title item ++ " " ++ contentSnippet item)%string in
  let score := 0 in
  let score := keywordPoints text boost 15 score in
  let score := keywordPoints text guests 50 score in
  let score := keywordPoints text block (-100) score in
  let score :=
    if existsb (includes_tag freshTags) (tags item) then
      if (ageInDays <? 2)%float then score + 30
      else if (ageInDays <? 5)%float then score + 10
      else score - 50
    else
      if (ageInDays <? 7)%float then score + 10 else score in
  let score :=
    if (15 <=? duration item)%float && (duration item <=? 60)%float
    then score + 10 else score in
  let score := if (90 <? duration item)%float then score - 30 else score in
  let score := if (duration item <? 5)%float then score - 10 else score in
  if isThursday then
    let score :=
      if includes_tag (tags item) "date_night" then score + 40 else score in
    let score :=
      if includes_tag (tags item) "comedy" then score + 30 else score in
    if includes_tag (tags item) "tech" then score - 20 else score
  else score.

(** The callback of [candidates.map]: it queries the clock and reads the
    keyword lists through [rules] for every item. *)
Definition scoreItem (rules : loc) (isThursday : bool) (item : Item)
  : M Scored :=
  let* t := now in
  let ageInDays := ((JS.of_Z t - timeValue (pubDate item)) / 86400000)%float in
  let* r := read_rules rules in
  let* boost := read_arr (boost_keywords r) in
  let* guests := read_arr (boost_guests r) in
  let* block := read_arr (block_keywords r) in
  ret {| s_item := item;
         score := scoreOf boost guests block isThursday ageInDays item |}.

(** [.filter(item => item.score > -20)]. *)
Definition keep (s : Scored) : bool := -20 <? score s.

(** [scoredItems.sort((a, b) => b.score - a.score)]: descending by score,
    items of equal score in their original order (Array.prototype.sort is
    stable). *)
Fixpoint insertByScore (x : Scored) (l : list Scored) : list Scored :=
  match l with
  | [] => [x]
  | y :: l' =>
      if score y <=? score x then x :: l else y :: insertByScore x l'
  end.

Definition sortByScore (l : list Scored) : list Scored :=
  fold_right insertByScore [] l.

(** ** Select (lines 146-168) *)

Definition PackState : Type := float * list Sel.

(** The briefing is pushed first, when it is less than 24 hours old at the
    moment the clock is read here. *)
Definition seedBriefing (newsBriefing : option Item) : M PackState :=
  match newsBriefing with
  | Some b =>
      let* t := now in
      let ageHours := ((JS.of_Z t - timeValue (pubDate b)) / 3600000)%float in
      if (ageHours <? 24)%float
      then ret ((0 + duration b)%float, [SBriefing b])
      else ret (0%float, [])
  | None => ret (0%float, [])
  end.

Variant verdict :=
  | SkipDuplicate
  | SkipLong
  | SkipOverflow
  | Admit.

(** The three [continue] tests of the loop body, in order. *)
Definition verdictOf (targetDuration : float) (st : PackState) (item : Scored)
  : verdict :=
  let '(currentDuration, selected) := st in
  if existsb (fun s => String.eqb (title (sel_item s)) (title (s_item item)))
             selected
  then SkipDuplicate
  else if (90 <? duration (s_item item))%float && (score item <? 50)
  then SkipLong
  else if (targetDuration + 15 <? currentDuration + duration (s_item item))%float
          && (score item <? 60)
  then SkipOverflow
  else Admit.

Variant outcome :=
  | Continue (st : PackState)
  | Break (st : PackState).

(** The body of the loop over [scoredItems]. *)
Definition packStep (targetDuration : float) (st : PackState) (item : Scored)
  : outcome :=
  match verdictOf targetDuration st item with
  | Admit =>
      let st' := ((fst st + duration (s_item item))%float,
                  snd st ++ [SScored item]) in
      if (targetDuration <=? fst st')%float then Break st' else Continue st'
  | _ => Continue st
  end.

Fixpoint packLoop (targetDuration : float) (items : list Scored)
  (st : PackState) : PackState :=
  match items with
  | [] => st
  | item :: rest =>
      match packStep targetDuration st item with
      | Continue st' => packLoop targetDuration rest st'
      | Break st' => st'
      end
  end.

(** The iterations the loop executes: for each, the accumulator it started
    from, the item it looked at and what it decided. *)
Fixpoint packTrace (targetDuration : float) (items : list Scored)
  (st : PackState) : list (float * Scored * verdict) :=
  match items with
  | [] => []
  | item :: rest =>
      (fst st, item, verdictOf targetDuration st item) ::
      match packStep targetDuration st item with
      | Continue st' => packTrace targetDuration rest st'
      | Break _ => []
      end
  end.

(** ** The run (lines 57-170), up to the selection *)

Record Result := {
  r_isThursday : bool;
  r_targetDuration : float;
  r_candidates : list Item;
  r_newsBriefing : option Item;
  r_scoredItems : list Scored;
  r_selected : list Sel;
  r_currentDuration : float
}.

(** [config.target_duration_minutes || 70]. *)
Definition targetOf (config : Config) : float :=
  match cfg_target_duration_minutes config with
  | Some x => if PrimFloat.is_zero x || PrimFloat.is_nan x then 70%float else x
  | None => 70%float
  end.

Definition run (config : Config) : M Result :=
  let* d := now in
  let isThursday := getDay d =? 4 in
  let* _ := now in
  let targetDuration := targetOf config in
  let rules := cfg_rules config in
  let* _ := buildRules rules isThursday in
  let '(candidates, newsBriefing) := fetchAll (cfg_feeds config) in
  let* scored := mapM (scoreItem rules isThursday) candidates in
  let scoredItems := sortByScore (List.filter keep scored) in
  let* seed := seedBriefing newsBriefing in
  let '(currentDuration, selected) :=
    packLoop targetDuration scoredItems seed in
  ret {| r_isThursday := isThursday;
         r_targetDuration := targetDuration;
         r_candidates := candidates;
         r_newsBriefing := newsBriefing;
         r_scoredItems := scoredItems;
         r_selected := selected;
         r_currentDuration := currentDuration |}.

End Run.

(** The items a trace admitted, in order. *)
Definition admitted (tr : list (float * Scored * verdict)) : list Scored :=
  map (fun e => snd (fst e))
      (List.filter (fun e => match snd e with Admit => true | _ => false end) tr).

(** The items a trace looked at, in order. *)
Definition considered (tr : list (float * Scored * verdict)) : list Scored :=
  map (fun e => snd (fst e)) tr.

(** ** Views of the fetch loop, used to state its properties *)

(** What one feed offers as a briefing: the feed was fetched, is tagged both
    "news" and "briefing", and this is the first of its items that is shorter
    than 15 minutes. *)
Definition feedBriefing (env : Env) (fc : FeedConfig) : option Item :=
  match parseURL env (fc_url fc), fc_tags fc with
  | Some raw, Some ts =>
      if isBriefingFeed ts
      then List.find (fun i => duration i <? 15)%float (feedItems fc raw)
      else None
  | _, _ => None
  end.

(** What one feed adds to the general candidates. *)
Definition feedCandidates (env : Env) (fc : FeedConfig) : list Item :=
  match parseURL env (fc_url fc), fc_tags fc with
  | Some raw, Some ts => if isBriefingFeed ts then [] else feedItems fc raw
  | _, _ => []
  end.

(** Line 93: the briefing [p] of the next feed against the current holder. *)
Definition holderStep (held : option Item) (p : Item) : option Item :=
  match held with
  | None => Some p
  | Some h => if date_gt (pubDate p) (pubDate h) then Some p else held
  end.

(** [x] is no rival for [b]: it has no valid date, or [b] is strictly later. *)
Definition older (x b : Item) : Prop :=
  pubDate x = None \/ date_gt (pubDate b) (pubDate x) = true.


(** The same network with every feed cut down to its first five items. *)
Definition firstFive (env : Env) : Env :=
  {| clock := clock env;
     localTZA := localTZA env;
     parseURL := fun u => option_map (firstn 5) (parseURL env u) |}.

(** ** The scores of a run, as a function of the clock readings *)

Definition ageInDays (t : Z) (item : Item) : float :=
  ((JS.of_Z t - timeValue (pubDate item)) / 86400000)%float.

(** The scored records of [items] when the first of them is scored at the
    [k]-th clock query and the keyword lists are [bk], [bg] and [bl]. *)
Fixpoint scoreAll (env : Env) (bk bg bl : list string) (th : bool) (k : nat)
  (items : list Item) : list Scored :=
  match items with
  | [] => []
  | item :: rest =>
      {| s_item := item;
         score := scoreOf bk bg bl th (ageInDays (clock env k) item) item |}
      :: scoreAll env bk bg bl th (S k) rest
  end.

(** ** Predicates used to state the properties *)

(** The clock queries line 150 makes: one when a briefing is held. *)
Definition briefingQueries (nb : option Item) : nat :=
  match nb with
  | Some _ => 1
  | None => 0
  end.

(** Descending by score. *)
Definition descending (l : list Scored) : Prop :=
  Sorted (fun a b => score b <= score a) l.

(** A computation that does not query the clock. *)
Definition clockFree {A} (m : M A) : Prop :=
  forall w a w', m w = Some (a, w') -> ticks w' = ticks w.

(** The store a run needs: [rules] is an object whose five properties are
    arrays. *)
Definition rulesAt (h : store) (rules : loc) (r : RulesObj)
  (bk bl bg dk db : list string) : Prop :=
  h !! rules = Some (Rules r)
  /\ h !! boost_keywords r = Some (Arr bk)
  /\ h !! block_keywords r = Some (Arr bl)
  /\ h !! boost_guests r = Some (Arr bg)
  /\ h !! datenight_keywords r = Some (Arr dk)
  /\ h !! datenight_block r = Some (Arr db).

Definition withBoost (r : RulesObj) (l : loc) : RulesObj :=
  {| boost_keywords := l;
     block_keywords := block_keywords r;
     boost_guests := boost_guests r;
     datenight_keywords := datenight_keywords r;
     datenight_block := datenight_block r |}.

Definition withBlock (r : RulesObj) (l : loc) : RulesObj :=
  {| boost_keywords := boost_keywords r;
     block_keywords := l;
     boost_guests := boost_guests r;
     datenight_keywords := datenight_keywords r;
     datenight_block := datenight_block r |}.

(** ** Concrete scenarios

    A configuration with one briefing feed and one general feed, used to run
    the program on explicit inputs. *)

Module Demo.

Local Open Scope string_scope.

Definition hour : Z := 3600000.
Definition day : Z := 86400000.

(** Tuesday 14 November 2023, 22:13:20 UTC. *)
Definition t0 : Z := 1700000000000.

Definition raw (t : string) (pub : Z) (d : string) (snippet : string)
  : RawItem := {|
  raw_title := t;
  raw_link := None;
  raw_guid := None;
  raw_enclosure_url := Some "http://example.org/a.mp3";
  raw_pubDate := Some pub;
  raw_duration := JS.Str d;
  raw_itunes_duration := JS.Undefined;
  raw_contentSnippet := snippet;
  raw_content := ""
|}.

Definition briefFeed : FeedConfig :=
  {| fc_name := "Brief"; fc_tags := Some ["news"; "briefing"]; fc_url := "brief" |}.
Definition generalFeed : FeedConfig :=
  {| fc_name := "General"; fc_tags := Some ["history"]; fc_url := "general" |}.
Definition newsFeed : FeedConfig :=
  {| fc_name := "News"; fc_tags := Some ["news"]; fc_url := "news" |}.
Definition deadFeed : FeedConfig :=
  {| fc_name := "Dead"; fc_tags := Some ["history"]; fc_url := "dead" |}.
Definition briefFeed2 : FeedConfig :=
  {| fc_name := "Brief2"; fc_tags := Some ["briefing"; "news"]; fc_url := "brief2" |}.
Definition briefFeed3 : FeedConfig :=
  {| fc_name := "Brief3"; fc_tags := Some ["news"; "briefing"]; fc_url := "brief3" |}.

Definition rawBriefing : RawItem := raw "Morning News" (t0 - 3 * hour) "8:00" "".
Definition rawA : RawItem := raw "A" (t0 - day) "40:00" "rust coq ocaml".
Definition rawB : RawItem := raw "B" (t0 - day) "35:00" "rust coq".
Definition rawC : RawItem :=
  raw "C" (t0 - 10 * day) "10:00" "crypto rust coq ocaml lean agda".
Definition rawD : RawItem := raw "D" (t0 - day) "1:35:00" "guest1 on rust".
Definition rawX1 : RawItem := raw "X1" (t0 - day) "20:00" "".
Definition rawX2 : RawItem := raw "X2" (t0 - day) "20:00" "".
Definition rawOld : RawItem := raw "Sixth" (t0 - day) "3:00" "".

(** The network: what each feed URL returns. *)
Definition net (u : string) : option (list RawItem) :=
  if String.eqb u "brief" then
    Some [raw "Long Read" (t0 - hour) "45:00" ""; rawBriefing]
  else if String.eqb u "general" then
    Some [rawA; rawB; rawC; rawD; rawA; rawOld]
  else if String.eqb u "news" then Some [rawX1; rawX2]
  else if String.eqb u "brief2" then
    Some [raw "Evening News" (t0 - 3 * hour) "9:00" ""]
  else if String.eqb u "brief3" then
    Some [raw "Late News" (t0 - 2 * hour) "10:00" ""]
  else None.

(** A clock that stands still at [t]. *)
Definition frozen (t : Z) : Env :=
  {| clock := fun _ => t; localTZA := fun _ => 0; parseURL := net |}.

(** A clock that advances by a day and a half between two queries. *)
Definition advancing : Env :=
  {| clock := fun k => t0 + Z.of_nat k * (36 * hour);
     localTZA := fun _ => 0;
     parseURL := net |}.

(** A clock whose queries all answer [t0], written differently. *)
Definition stopped : Env :=
  {| clock := fun k => t0 + Z.of_nat k * 0;
     localTZA := fun _ => 0;
     parseURL := net |}.

(** The parsed configuration: five arrays and the rules object at 5. *)
Definition objects : store :=
  [ Arr ["rust"; "coq"; "ocaml"; "lean"; "agda"];
    Arr ["crypto"];
    Arr ["Guest1"];
    Arr ["love"];
    Arr ["war"];
    Rules {| boost_keywords := 0; block_keywords := 1; boost_guests := 2;
             datenight_keywords := 3; datenight_block := 4 |} ]%nat.

Definition world : World := {| ticks := 0; heap := objects |}.

Definition config (target : float) (fcs : list FeedConfig) : Config :=
  {| cfg_target_duration_minutes := Some target;
     cfg_rules := 5%nat;
     cfg_feeds := fcs |}.

Definition ranOn (e : Env) (c : Config) : Result * World :=
  match run e c world with
  | Some rw => rw
  | None =>
      ({| r_isThursday := false; r_targetDuration := 0%float;
          r_candidates := []; r_newsBriefing := None; r_scoredItems := [];
          r_selected := []; r_currentDuration := 0%float |}, world)
  end.

Definition itemA : Item := mkItem generalFeed rawA.
Definition itemB : Item := mkItem generalFeed rawB.
Definition itemC : Item := mkItem generalFeed rawC.
Definition itemD : Item := mkItem generalFeed rawD.
Definition itemX1 : Item := mkItem newsFeed rawX1.
Definition itemX2 : Item := mkItem newsFeed rawX2.
Definition briefing : Item := mkItem briefFeed rawBriefing.

Definition scoredA : Scored := {| s_item := itemA; score := 65 |}.
Definition scoredB : Scored := {| s_item := itemB; score := 50 |}.
Definition scoredC : Scored := {| s_item := itemC; score := -25 |}.
Definition scoredD : Scored := {| s_item := itemD; score := 45 |}.

Definition feedList : list FeedConfig := [briefFeed; generalFeed; deadFeed].
Definition briefList : list FeedConfig :=
  [briefFeed; briefFeed3; briefFeed2; generalFeed].

Definition briefing2 : Item :=
  mkItem briefFeed2 (raw "Evening News" (t0 - 3 * hour) "9:00" "").
Definition briefing3 : Item :=
  mkItem briefFeed3 (raw "Late News" (t0 - 2 * hour) "10:00" "").

Definition scoredX1 : Scored := {| s_item := itemX1; score := 20 |}.

(** The state after seeding with the eight-minute briefing. *)
Definition seeded : PackState := (8%float, [SBriefing briefing]).

End Demo.

(** ** Text escaping for the generated feed (lines 44-55) *)

(** The characters the pattern of line 46 matches: the two angle brackets,
    the ampersand, the apostrophe and the double quote (code 34). *)
Definition isMarkup (c : ascii) : bool :=
  Ascii.eqb c "<" || Ascii.eqb c ">" || Ascii.eqb c "&"
  || Ascii.eqb c "'" || Ascii.eqb c "034".

(** The [switch] of the replacer; [None] when no [case] returns. *)
Definition entityOf (c : ascii) : option string :=
  if Ascii.eqb c "<" then Some "&lt;"%string
  else if Ascii.eqb c ">" then Some "&gt;"%string
  else if Ascii.eqb c "&" then Some "&amp;"%string
  else if Ascii.eqb c "'" then Some "&apos;"%string
  else if Ascii.eqb c "034" then Some "&quot;"%string
  else None.

(** [unsafe.replace(pattern, replacer)], every match replaced: a replacer
    that returns nothing would leave the text [undefined]. *)
Fixpoint replaceMarkup (s : string) : string :=
  match s with
  | EmptyString => EmptyString
  | String c s' =>
      if isMarkup c then
        (match entityOf c with
         | Some e => e
         | None => "undefined"%string
         end ++ replaceMarkup s')%string
      else String c (replaceMarkup s')
  end.

Definition escapeXml (unsafe : option string) : string :=
  match unsafe with
  | None => ""%string
  | Some s => if String.eqb s "" then ""%string else replaceMarkup s
  end.



(** [c] occurs in [s]. *)
Fixpoint occurs (c : ascii) (s : string) : bool :=
  match s with
  | EmptyString => false
  | String d s' => Ascii.eqb c d || occurs c s'
  end.

(** Some character of [s] is matched by the pattern. *)
Fixpoint hasMarkup (s : string) : bool :=
  match s with
  | EmptyString => false
  | String c s' => isMarkup c || hasMarkup s'
  end.

(** ** The parts of a score *)

(** [(item.title + ' ' + item.contentSnippet).toLowerCase()] (line 108). *)
Definition itemText (item : Item) : string :=
  JS.toLowerCase (title item ++ " " ++ contentSnippet item)%string.

(** How many keywords of [kws] occur in [text], each entry of the list
    counted. *)
Definition matchCount (text : string) (kws : list string) : Z :=
  Z.of_nat
    (length (List.filter
               (fun kw => JS.includes text (JS.toLowerCase kw)) kws)).

(** Lines 118-126. *)
Definition recencyPoints (ts : list string) (ageInDays : float) : Z :=
  if existsb (includes_tag freshTags) ts then
    if (ageInDays <? 2)%float then 30
    else if (ageInDays <? 5)%float then 10
    else -50
  else
    if (ageInDays <? 7)%float then 10 else 0.

(** Lines 129-131. *)
Definition lengthPoints (d : float) : Z :=
  (if (15 <=? d)%float && (d <=? 60)%float then 10 else 0)
  + (if (90 <? d)%float then -30 else 0)
  + (if (d <? 5)%float then -10 else 0).

(** Lines 134-138. *)
Definition dateNightPoints (isThursday : bool) (ts : list string) : Z :=
  if isThursday then
    (if includes_tag ts "date_night" then 40 else 0)
    + (if includes_tag ts "comedy" then 30 else 0)
    + (if includes_tag ts "tech" then -20 else 0)
  else 0.

(** ** Views of a selection *)

(** The titles of a selection, in order. *)
Definition titles (sel : list Sel) : list string :=
  map (fun s => title (sel_item s)) sel.

(** The durations of a selection added up from 0, left to right. *)
Definition totalOf (sel : list Sel) : float :=
  fold_left (fun a s => (a + duration (sel_item s))%float) sel 0%float.

(** The scored items of a selection, in order. *)
Definition scoredOf (sel : list Sel) : list Scored :=
  omap (fun s => match s with
                 | SScored x => Some x
                 | SBriefing _ => None
                 end) sel.

(** ** The environment file (lines 8-15) *)

(** [String.prototype.trim]. *)
Definition trimString (s : string) : string :=
  string_of_list_ascii (JS.trim (JS.chars s)).

(** [const [key, val] = line.split('=')]: the first two parts, an absent one
    undefined. *)
Definition keyVal (line : string) : option string * option string :=
  match JS.split "=" line with
  | key :: val :: _ => (Some key, Some val)
  | [key] => (Some key, None)
  | [] => (None, None)
  end.

(** What one line assigns in [process.env], if anything. *)
Definition lineAssignment (line : string) : option (string * string) :=
  match keyVal line with
  | (Some key, Some val) =>
      if truthy_str (Some key) && truthy_str (Some val)
      then Some (trimString key, trimString val)
      else None
  | _ => None
  end.

(** The assignments the file makes, in order. *)
Definition envAssignments (content : string) : list (string * string) :=
  omap lineAssignment (JS.split "010" content).

(** ** Scenarios with a missing date or a blank duration *)

Module Undated.

Local Open Scope string_scope.

(** A short briefing whose publication date could not be parsed. *)
Definition rawUndated : RawItem := {|
  raw_title := "No Date";
  raw_link := None;
  raw_guid := None;
  raw_enclosure_url := Some "http://example.org/u.mp3";
  raw_pubDate := None;
  raw_duration := JS.Str "5:00";
  raw_itunes_duration := JS.Undefined;
  raw_contentSnippet := "";
  raw_content := ""
|}.

Definition feed : FeedConfig :=
  {| fc_name := "Undated"; fc_tags := Some ["news"; "briefing"];
     fc_url := "undated" |}.

Definition undatedNet (u : string) : option (list RawItem) :=
  if String.eqb u "undated" then Some [rawUndated] else Demo.net u.

Definition env : Env :=
  {| clock := fun _ => Demo.t0; localTZA := fun _ => 0; parseURL := undatedNet |}.

Definition undatedBriefing : Item := mkItem feed rawUndated.

Definition feeds : list FeedConfig :=
  [Demo.generalFeed; feed; Demo.briefFeed].

(** An item whose duration field is a single space. *)
Definition blank : Scored :=
  {| s_item := mkItem Demo.generalFeed (Demo.raw "Blank" Demo.t0 " " "");
     score := 0 |}.

End Undated.

(** ** A scenario with a duration that is no number *)

Module Garbled.

Local Open Scope string_scope.

Definition garbledFeed : FeedConfig :=
  {| fc_name := "Garbled"; fc_tags := Some ["history"]; fc_url := "garbled" |}.

(** Three items published a day ago; the duration field of the first is no
    duration at all. *)
Definition rawG : RawItem :=
  Demo.raw "G" (Demo.t0 - Demo.day) "a:b" "rust coq ocaml".
Definition rawE : RawItem := Demo.raw "E" (Demo.t0 - Demo.day) "50:00" "rust coq".
Definition rawF : RawItem := Demo.raw "F" (Demo.t0 - Demo.day) "50:00" "rust".

(** The first item again, with a duration field without a colon. *)
Definition rawG0 : RawItem :=
  Demo.raw "G" (Demo.t0 - Demo.day) "abc" "rust coq ocaml".

Definition garbledNet (u : string) : option (list RawItem) :=
  if String.eqb u "garbled" then Some [rawG; rawE; rawF]
  else if String.eqb u "plain" then Some [rawG0; rawE; rawF]
  else None.

Definition plainFeed : FeedConfig :=
  {| fc_name := "Garbled"; fc_tags := Some ["history"]; fc_url := "plain" |}.

Definition garbledEnv : Env :=
  {| clock := fun _ => Demo.t0; localTZA := fun _ => 0;
     parseURL := garbledNet |}.

Definition scoredG : Scored := {| s_item := mkItem garbledFeed rawG; score := 55 |}.
Definition scoredE : Scored := {| s_item := mkItem garbledFeed rawE; score := 50 |}.
Definition scoredF : Scored := {| s_item := mkItem garbledFeed rawF; score := 35 |}.
Definition scoredG0 : Scored :=
  {| s_item := mkItem plainFeed rawG0; score := 45 |}.

End Garbled.

(** * Properties *)

(** ** Order on binary64 values *)

Module FloatOrder.

Lemma SFcompare_swap (a b : spec_float) :
  SFcompare b a = option_map CompOpp (SFcompare a b).
Proof.
  destruct a as [sa | sa | | sa ma ea], b as [sb | sb | | sb mb eb];
    cbn; try reflexivity;
    try (destruct sa; reflexivity); try (destruct sb; reflexivity);
    try (destruct sa, sb; reflexivity).
  destruct sa, sb; cbn; try reflexivity;
    rewrite (Z.compare_antisym ea eb);
    destruct (ea ?= eb)%Z; cbn; try reflexivity;
    rewrite (Pos.compare_cont_antisym ma mb Eq); cbn;
    now rewrite ?CompOpp_involutive.
Qed.

Lemma SFcompare_None (a b : spec_float) :
  SFcompare a b = None -> a = S754_nan \/ b = S754_nan.
Proof.
  destruct a as [sa | sa | | sa ma ea], b as [sb | sb | | sb mb eb];
    cbn; intros H; try discriminate H; auto.
Qed.

Lemma SFcompare_refl (a : spec_float) :
  a <> S754_nan -> SFcompare a a = Some Eq.
Proof.
  destruct a as [sa | sa | | sa ma ea]; cbn; intros H;
    try reflexivity; try congruence.
  - destruct sa; reflexivity.
  - rewrite Z.compare_refl.
    assert (Pos.compare_cont Eq ma ma = Eq) as -> by apply Pos.compare_refl.
    destruct sa; reflexivity.
Qed.

Lemma is_nan_false (x : float) :
  PrimFloat.is_nan x = false -> Prim2SF x <> S754_nan.
Proof.
  unfold PrimFloat.is_nan. rewrite FloatAxioms.eqb_spec. intros H E.
  rewrite E in H. discriminate H.
Qed.

Lemma not_nan_is_nan (x : float) :
  Prim2SF x <> S754_nan -> PrimFloat.is_nan x = false.
Proof.
  intros H. unfold PrimFloat.is_nan. rewrite FloatAxioms.eqb_spec.
  unfold SFeqb. now rewrite SFcompare_refl.
Qed.

(** For two numbers, [not (x < y)] is [y <= x]. *)
Lemma ltb_false_leb (x y : float) :
  PrimFloat.is_nan x = false -> PrimFloat.is_nan y = false ->
  (x <? y)%float = false -> (y <=? x)%float = true.
Proof.
  intros Hx Hy. apply is_nan_false in Hx, Hy.
  rewrite FloatAxioms.ltb_spec, FloatAxioms.leb_spec.
  unfold SFltb, SFleb. rewrite (SFcompare_swap (Prim2SF x) (Prim2SF y)).
  destruct (SFcompare (Prim2SF x) (Prim2SF y)) as [[]|] eqn:E;
    cbn; try reflexivity; try discriminate.
  apply SFcompare_None in E. tauto.
Qed.

(** A comparison with NaN is false. *)
Lemma ltb_nan_l (x y : float) :
  PrimFloat.is_nan x = true -> (x <? y)%float = false.
Proof.
  intros H. rewrite FloatAxioms.ltb_spec.
  destruct (Prim2SF x) eqn:E; try reflexivity;
    rewrite not_nan_is_nan in H by (rewrite E; discriminate); discriminate H.
Qed.

End FloatOrder.

(** ** Rounding never produces NaN *)

Module FloatRound.

Section Generic.

Variables prec emax : Z.

Lemma shr_1_nonneg (mrs : shr_record) :
  0 <= shr_m mrs -> 0 <= shr_m (shr_1 mrs).
Proof.
  destruct mrs as [m r s]. cbn.
  destruct m as [| p | p]; [| destruct p | ]; cbn; lia.
Qed.

Lemma iter_pos_nonneg (n : positive) (mrs : shr_record) :
  0 <= shr_m mrs -> 0 <= shr_m (SpecFloat.iter_pos shr_1 n mrs).
Proof.
  revert mrs. induction n as [n IH | n IH |]; intros mrs H; cbn.
  - apply IH, IH, shr_1_nonneg, H.
  - apply IH, IH, H.
  - apply shr_1_nonneg, H.
Qed.

Lemma shr_fexp_nonneg (m e : Z) (l : location) :
  0 <= m -> 0 <= shr_m (fst (shr_fexp prec emax m e l)).
Proof.
  intros H. unfold shr_fexp, shr.
  assert (0 <= shr_m (shr_record_of_loc m l)) as H0
      by (destruct l as [| []]; exact H).
  destruct (fexp prec emax (Zdigits2 m + e) - e); cbn [fst]; auto.
  now apply iter_pos_nonneg.
Qed.

Lemma round_nearest_even_nonneg (m : Z) (l : location) :
  0 <= m -> 0 <= round_nearest_even m l.
Proof.
  intros H. destruct l as [| []]; cbn; try lia.
  destruct (Z.even m); lia.
Qed.

Lemma binary_round_aux_not_nan (sx : bool) (mx ex : Z) (lx : location) :
  0 <= mx -> binary_round_aux prec emax sx mx ex lx <> S754_nan.
Proof.
  intros H. unfold binary_round_aux.
  pose proof (shr_fexp_nonneg mx ex lx H) as H1.
  destruct (shr_fexp prec emax mx ex lx) as [mrs' e']. cbn [fst] in H1.
  pose proof (shr_fexp_nonneg _ e' loc_Exact
                (round_nearest_even_nonneg _ (loc_of_shr_record mrs') H1)) as H2.
  destruct (shr_fexp prec emax _ e' loc_Exact) as [mrs'' e'']. cbn [fst] in H2.
  destruct (shr_m mrs'') as [| m | m]; [discriminate | | lia].
  destruct (e'' <=? emax - prec); discriminate.
Qed.

Lemma binary_round_not_nan (sx : bool) (mx : positive) (ex : Z) :
  binary_round prec emax sx mx ex <> S754_nan.
Proof.
  unfold binary_round. destruct (shl_align mx ex _) as [mz ez].
  apply binary_round_aux_not_nan. lia.
Qed.

Lemma binary_normalize_not_nan (m e : Z) (szero : bool) :
  binary_normalize prec emax m e szero <> S754_nan.
Proof.
  destruct m; cbn; [discriminate | apply binary_round_not_nan ..].
Qed.

End Generic.

Lemma SF2Prim_is_nan (sf : spec_float) :
  sf <> S754_nan -> PrimFloat.is_nan (SF2Prim sf) = false.
Proof.
  intros H. destruct sf as [[] | [] | | s m e]; try reflexivity;
    [congruence |].
  assert (Prim2SF (FloatOps.Z.ldexp (of_uint63 (Uint63.of_Z (Z.pos m))) e)
          <> S754_nan) as Hl.
  { rewrite Z_ldexp_spec, FloatAxioms.of_uint63_spec. unfold SFldexp.
    pose proof (binary_normalize_not_nan prec emax
                  (Uint63.to_Z (Uint63.of_Z (Z.pos m))) 0 false) as Hn.
    destruct (binary_normalize prec emax _ 0 false); try congruence;
      try discriminate.
    apply binary_round_not_nan. }
  cbn. destruct s; apply FloatOrder.not_nan_is_nan; [| exact Hl].
  rewrite FloatAxioms.opp_spec.
  destruct (Prim2SF _); cbn; congruence.
Qed.

(** The Number nearest to an integer is a number. *)
Lemma of_Z_is_nan (z : Z) : PrimFloat.is_nan (JS.of_Z z) = false.
Proof.
  unfold JS.of_Z, JS.Z2F. apply SF2Prim_is_nan, binary_normalize_not_nan.
Qed.

End FloatRound.

(** ** The packing loop *)

Section Packer.

Variable targetDuration : float.

Lemma verdictOf_Admit (st : PackState) (item : Scored) :
  verdictOf targetDuration st item = Admit ->
  existsb (fun s => String.eqb (title (sel_item s)) (title (s_item item)))
          (snd st) = false
  /\ ((90 <? duration (s_item item))%float = false \/ 50 <= score item)
  /\ ((targetDuration + 15 <? fst st + duration (s_item item))%float = false
      \/ 60 <= score item).
Proof.
  destruct st as [cur sel]. unfold verdictOf. cbn [fst snd].
  destruct (existsb _ sel); [discriminate |].
  destruct (PrimFloat.ltb 90 _) eqn:Hlong;
    destruct (PrimFloat.ltb (targetDuration + 15) _) eqn:Hover;
    destruct (score item <? 50) eqn:H50;
    destruct (score item <? 60) eqn:H60;
    cbn [andb]; try discriminate; intros _;
    (split; [reflexivity |]);
    split; first [left; reflexivity | right; apply Z.ltb_ge; assumption].
Qed.

Lemma packStep_skip (st : PackState) (item : Scored) :
  verdictOf targetDuration st item <> Admit ->
  packStep targetDuration st item = Continue st.
Proof.
  unfold packStep. destruct (verdictOf targetDuration st item); congruence.
Qed.

Lemma packStep_admit (st : PackState) (item : Scored) :
  verdictOf targetDuration st item = Admit ->
  let st' := ((fst st + duration (s_item item))%float,
              snd st ++ [SScored item]) in
  packStep targetDuration st item =
    if (targetDuration <=? fst st')%float then Break st' else Continue st'.
Proof. unfold packStep. intros ->. reflexivity. Qed.

(** Every entry of the trace records the verdict of the loop body in the
    state that iteration started from. *)
Lemma packTrace_In (items : list Scored) (st : PackState) cur item v :
  In (cur, item, v) (packTrace targetDuration items st) ->
  exists sel, v = verdictOf targetDuration (cur, sel) item.
Proof.
  revert st. induction items as [| x rest IH]; intros st; cbn; [tauto |].
  intros [E | H].
  - injection E as <- <- <-. exists (snd st). now destruct st.
  - destruct (packStep targetDuration st x); [eauto | contradiction].
Qed.

(** What the loop returns is what its trace admitted, appended to the
    selection it started from. *)
Lemma packLoop_selected (items : list Scored) (st : PackState) :
  snd (packLoop targetDuration items st) =
  snd st ++ map SScored (admitted (packTrace targetDuration items st)).
Proof.
  revert st. induction items as [| x rest IH]; intros st; cbn.
  - unfold admitted. cbn. now rewrite app_nil_r.
  - unfold admitted. cbn [List.filter snd fst].
    destruct (verdictOf targetDuration st x) eqn:V;
      try (rewrite packStep_skip by congruence; apply IH).
    rewrite (packStep_admit _ _ V). cbn [fst snd map].
    destruct (_ <=? _)%float.
    + cbn. reflexivity.
    + rewrite IH. cbn [snd]. rewrite <- app_assoc. reflexivity.
Qed.

(** The loop looks at a prefix of the sorted list, in order. *)
Lemma packTrace_prefix (items : list Scored) (st : PackState) :
  considered (packTrace targetDuration items st) =
  firstn (length (packTrace targetDuration items st)) items.
Proof.
  revert st. induction items as [| x rest IH]; intros st; cbn; [reflexivity |].
  f_equal. destruct (packStep targetDuration st x); [apply IH | reflexivity].
Qed.

(** An admission that leaves the accumulator at or above the target is the
    last iteration of the loop. *)
Lemma packTrace_break (items : list Scored) (st : PackState) tr1 cur item tr2 :
  packTrace targetDuration items st = tr1 ++ (cur, item, Admit) :: tr2 ->
  (targetDuration <=? cur + duration (s_item item))%float = true ->
  tr2 = []
  /\ fst (packLoop targetDuration items st) = (cur + duration (s_item item))%float
  /\ exists sel, snd (packLoop targetDuration items st) = sel ++ [SScored item].
Proof.
  revert st tr1. induction items as [| x rest IH]; intros st tr1; cbn.
  - destruct tr1; discriminate.
  - intros E Hge. destruct tr1 as [| e tr1]; cbn in E.
    + injection E as E1 E2 E3 E4. subst cur x.
      rewrite (packStep_admit _ _ E3) in E4 |- *. cbn [fst snd] in *.
      rewrite Hge in E4 |- *. cbn [fst snd]. eauto.
    + injection E as _ E.
      destruct (packStep targetDuration st x) as [st' | st'].
      * eapply IH; eauto.
      * destruct tr1; discriminate.
Qed.

(** The loop stops early only after such an admission. *)
Lemma packTrace_short (items : list Scored) (st : PackState) :
  (length (packTrace targetDuration items st) < length items)%nat ->
  exists tr1 cur item,
    packTrace targetDuration items st = tr1 ++ [(cur, item, Admit)]
    /\ (targetDuration <=? cur + duration (s_item item))%float = true.
Proof.
  revert st. induction items as [| x rest IH]; intros st; cbn.
  { intros H. inversion H. }
  destruct (verdictOf targetDuration st x) eqn:V;
    try (rewrite packStep_skip by congruence; intros H;
         apply (proj2 (Nat.succ_lt_mono _ _)) in H;
         destruct (IH st H) as (tr1 & cur & item & -> & Hge);
         eexists (_ :: tr1), cur, item; split; [reflexivity | exact Hge]).
  rewrite (packStep_admit _ _ V). cbn [fst snd].
  destruct (PrimFloat.leb _ _) eqn:Hge.
  - intros _. exists [], (fst st), x. split; [reflexivity | exact Hge].
  - intros H. apply (proj2 (Nat.succ_lt_mono _ _)) in H.
    destruct (IH _ H) as (tr1 & cur & item & -> & Hge').
    eexists (_ :: tr1), cur, item; split; [reflexivity | exact Hge'].
Qed.

End Packer.

(** ** Sorting by score *)

Lemma insertByScore_perm (x : Scored) (l : list Scored) :
  Permutation (insertByScore x l) (x :: l).
Proof.
  induction l as [| y l IH]; cbn; [reflexivity |].
  destruct (score y <=? score x); [reflexivity |].
  rewrite IH. apply perm_swap.
Qed.

Lemma sortByScore_perm (l : list Scored) : Permutation (sortByScore l) l.
Proof.
  induction l as [| x l IH]; cbn; [reflexivity |].
  rewrite insertByScore_perm. now rewrite IH.
Qed.

Lemma sortByScore_In (s : Scored) (l : list Scored) :
  In s (sortByScore l) <-> In s l.
Proof.
  split; apply Permutation_in;
    [apply sortByScore_perm | symmetry; apply sortByScore_perm].
Qed.

Lemma insertByScore_descending (x : Scored) (l : list Scored) :
  descending l -> descending (insertByScore x l).
Proof.
  unfold descending. induction l as [| y l IH]; cbn; intros H.
  - repeat constructor.
  - destruct (score y <=? score x) eqn:E.
    + apply Z.leb_le in E. constructor; [exact H |]. now constructor.
    + apply Z.leb_gt in E. inversion H as [| ? ? Hs Hh]; subst.
      constructor; [now apply IH |].
      destruct l as [| z l]; cbn.
      * constructor. lia.
      * destruct (score z <=? score x); constructor;
          [lia | now inversion Hh].
Qed.

Lemma sortByScore_descending (l : list Scored) : descending (sortByScore l).
Proof.
  induction l as [| x l IH]; cbn;
    [constructor | now apply insertByScore_descending].
Qed.

(** ** Effects of the scoring phase *)

Section RunFacts.

Variable env : Env.

Lemma scoreItem_spec rules th item w s w' :
  scoreItem env rules th item w = Some (s, w') ->
  s_item s = item /\ ticks w' = S (ticks w) /\ heap w' = heap w.
Proof.
  unfold scoreItem, bind, now, read_rules, read_arr, ret. cbn.
  repeat (match goal with
          | |- context [match ?l !! ?i with _ => _ end] =>
              destruct (l !! i) as [[]|]; try discriminate
          end).
  intros E. injection E as <- <-. auto.
Qed.

Lemma mapM_scoreItem_spec rules th items w scored w' :
  mapM (scoreItem env rules th) items w = Some (scored, w') ->
  map s_item scored = items
  /\ ticks w' = (ticks w + length items)%nat
  /\ heap w' = heap w.
Proof.
  revert w scored. induction items as [| x items IH]; intros w scored; cbn.
  - unfold ret. intros E. injection E as <- <-. auto.
  - unfold bind at 1.
    destruct (scoreItem env rules th x w) as [[s w1]|] eqn:E1; [| discriminate].
    unfold bind at 1.
    destruct (mapM _ items w1) as [[ss w2]|] eqn:E2; [| discriminate].
    unfold ret. intros E. injection E as <- <-.
    apply scoreItem_spec in E1 as (Hs & Ht & Hh).
    apply IH in E2 as (Hm & Ht' & Hh').
    cbn [map length]. rewrite Hs, Hm, Ht', Ht, Hh', Hh.
    repeat split. clear. lia.
Qed.

(** The three outcomes of seeding. *)
Lemma seedBriefing_spec nb w seed w' :
  seedBriefing env nb w = Some (seed, w') ->
  heap w' = heap w /\
  match nb with
  | None => seed = (0%float, []) /\ ticks w' = ticks w
  | Some b =>
      ticks w' = S (ticks w) /\
      let ageHours :=
        ((JS.of_Z (clock env (ticks w)) - timeValue (pubDate b)) / 3600000)%float in
      if (ageHours <? 24)%float
      then seed = ((0 + duration b)%float, [SBriefing b])
      else seed = (0%float, [])
  end.
Proof.
  unfold seedBriefing. destruct nb as [b |].
  - unfold bind, now. cbn.
    destruct (PrimFloat.ltb _ 24); unfold ret; intros E;
      injection E as <- <-; auto.
  - unfold ret. intros E. injection E as <- <-. auto.
Qed.

(** The phases of a run that returns. *)
Lemma run_inv config w r w' :
  run env config w = Some (r, w') ->
  let th := getDay env (clock env (ticks w)) =? 4 in
  let w0 := {| ticks := S (S (ticks w)); heap := heap w |} in
  let fetched := fetchAll env (cfg_feeds config) in
  exists w1 scored w2 seed,
    buildRules (cfg_rules config) th w0 = Some (tt, w1)
    /\ mapM (scoreItem env (cfg_rules config) th) (fst fetched) w1
       = Some (scored, w2)
    /\ seedBriefing env (snd fetched) w2 = Some (seed, w')
    /\ let sorted := sortByScore (List.filter keep scored) in
       let final := packLoop (targetOf config) sorted seed in
       r = {| r_isThursday := th;
              r_targetDuration := targetOf config;
              r_candidates := fst fetched;
              r_newsBriefing := snd fetched;
              r_scoredItems := sorted;
              r_selected := snd final;
              r_currentDuration := fst final |}.
Proof.
  unfold run. unfold bind at 1, now at 1. cbn [ticks heap].
  unfold bind at 1, now at 1. cbn [ticks heap].
  unfold bind at 1.
  destruct (buildRules _ _ _) as [[[] w1]|] eqn:E1; [| discriminate].
  destruct (fetchAll env (cfg_feeds config)) as [cands nb] eqn:Ef.
  unfold bind at 1.
  destruct (mapM _ cands w1) as [[scored w2]|] eqn:E2; [| discriminate].
  unfold bind at 1.
  destruct (seedBriefing env nb w2) as [[seed w3]|] eqn:E3; [| discriminate].
  destruct (packLoop _ _ seed) as [cur sel] eqn:Ep.
  unfold ret. intros E. injection E as <- <-.
  exists w1, scored, w2, seed. cbn [fst snd]. rewrite Ep. auto.
Qed.

End RunFacts.

(** ** Claims about the packing loop *)

Lemma admitted_In (tr : list (float * Scored * verdict)) (item : Scored) :
  In item (admitted tr) <-> exists cur, In (cur, item, Admit) tr.
Proof.
  unfold admitted. rewrite in_map_iff. split.
  - intros ([[cur x] v] & E & H). cbn in E. subst x.
    apply filter_In in H as [H Hv]. cbn in Hv.
    destruct v; try discriminate. eauto.
  - intros [cur H]. exists (cur, item, Admit). split; [reflexivity |].
    apply filter_In. auto.
Qed.

(** Whatever the loop added to the selection, it admitted at some iteration. *)
Lemma packLoop_added (T : float) (items : list Scored) (st : PackState)
  (item : Scored) :
  In (SScored item) (snd (packLoop T items st)) ->
  ~ In (SScored item) (snd st) ->
  exists cur, In (cur, item, Admit) (packTrace T items st).
Proof.
  rewrite packLoop_selected, in_app_iff, in_map_iff.
  intros [H | (x & E & H)] Hst; [contradiction |].
  injection E as ->. now apply admitted_In.
Qed.

(** What the test of line 162 secures: an item that the loop added to the
    selection was admitted at an iteration where the comparison
    [currentDuration + duration > targetDuration + 15] was false, or its score
    was at least 60.  When both sides are numbers (not NaN) a false
    comparison is [currentDuration + duration <= targetDuration + 15]; when
    one of them is NaN it is not. *)
Theorem overflow_needs_score_60 (targetDuration : float) (items : list Scored)
  (st : PackState) (item : Scored) :
  In (SScored item) (snd (packLoop targetDuration items st)) ->
  ~ In (SScored item) (snd st) ->
  exists cur,
    In (cur, item, Admit) (packTrace targetDuration items st)
    /\ ((targetDuration + 15 <? cur + duration (s_item item))%float = false
        \/ 60 <= score item)
    /\ (PrimFloat.is_nan (cur + duration (s_item item)) = false ->
        PrimFloat.is_nan (targetDuration + 15) = false ->
        (cur + duration (s_item item) <=? targetDuration + 15)%float = true
        \/ 60 <= score item).
Proof.
  intros Hin Hst.
  destruct (packLoop_added _ _ _ _ Hin Hst) as [cur Htr].
  exists cur. split; [exact Htr |].
  destruct (packTrace_In _ _ _ _ _ _ Htr) as [sel V]. symmetry in V.
  apply verdictOf_Admit in V as (_ & _ & [Hle | Hsc]); cbn [fst] in *.
  - split; [now left |]. intros Hn1 Hn2. left.
    now apply FloatOrder.ltb_false_leb.
  - split; [now right | intros _ _; now right].
Qed.

Lemma overflow_needs_score_60_witness :
  exists cur,
    In (cur, Demo.scoredA, Admit)
       (packTrace 70 [Demo.scoredA; Demo.scoredB; Demo.scoredD] Demo.seeded)
    /\ ((70 + 15 <? cur + duration (s_item Demo.scoredA))%float = false
        \/ 60 <= score Demo.scoredA)
    /\ (PrimFloat.is_nan (cur + duration (s_item Demo.scoredA)) = false ->
        PrimFloat.is_nan (70 + 15) = false ->
        (cur + duration (s_item Demo.scoredA) <=? 70 + 15)%float = true
        \/ 60 <= score Demo.scoredA).
Proof.
  apply (overflow_needs_score_60 70
           [Demo.scoredA; Demo.scoredB; Demo.scoredD] Demo.seeded Demo.scoredA).
  - vm_compute. right. left. reflexivity.
  - vm_compute. intros [H | []]. discriminate H.
Defined.

(** C1 fails on the code.  The feed "garbled" delivers an item G whose
    duration field is "a:b", for which [parseDuration] returns NaN, and two
    items E and F of 50 minutes scored 50 and 35.  With a target of 20
    minutes the cap is 35 minutes.  G is admitted and leaves the accumulated
    duration NaN; then E and F are admitted as well, although each is longer
    than the cap on its own and scored below 60: at their admission
    [currentDuration + duration <= targetDuration + 15] is false.  With the
    duration field "abc" instead, which [parseDuration] turns into 0, the
    same two items are skipped for the budget. *)
Theorem garbled_duration_defeats_budget :
  let c := Demo.config 20 [Garbled.garbledFeed] in
  let r := fst (Demo.ranOn Garbled.garbledEnv c) in
  let r0 :=
    fst (Demo.ranOn Garbled.garbledEnv (Demo.config 20 [Garbled.plainFeed])) in
  run Garbled.garbledEnv c Demo.world = Some (Demo.ranOn Garbled.garbledEnv c)
  /\ r_targetDuration r = 20%float
  /\ r_newsBriefing r = None
  /\ r_scoredItems r = [Garbled.scoredG; Garbled.scoredE; Garbled.scoredF]
  /\ PrimFloat.is_nan (duration (s_item Garbled.scoredG)) = true
  /\ duration (s_item Garbled.scoredE) = 50%float
  /\ duration (s_item Garbled.scoredF) = 50%float
  /\ packTrace 20 (r_scoredItems r) (0%float, [])
     = [(0%float, Garbled.scoredG, Admit);
        (PrimFloat.nan, Garbled.scoredE, Admit);
        (PrimFloat.nan, Garbled.scoredF, Admit)]
  /\ r_selected r
     = [SScored Garbled.scoredG; SScored Garbled.scoredE;
        SScored Garbled.scoredF]
  /\ PrimFloat.is_nan (r_currentDuration r) = true
  /\ ~ ((PrimFloat.nan + duration (s_item Garbled.scoredE) <=? 20 + 15)%float
        = true
        \/ 60 <= score Garbled.scoredE)
  /\ ~ ((PrimFloat.nan + duration (s_item Garbled.scoredF) <=? 20 + 15)%float
        = true
        \/ 60 <= score Garbled.scoredF)
  /\ (20 + 15 <? duration (s_item Garbled.scoredE))%float = true
  /\ r_scoredItems r0
     = [Garbled.scoredE; Garbled.scoredG0; Garbled.scoredF]
  /\ packTrace 20 (r_scoredItems r0) (0%float, [])
     = [(0%float, Garbled.scoredE, SkipOverflow);
        (0%float, Garbled.scoredG0, Admit);
        (0%float, Garbled.scoredF, SkipOverflow)]
  /\ r_selected r0 = [SScored Garbled.scoredG0].
Proof.
  cbv zeta.
  repeat match goal with |- _ /\ _ => split end;
    try (vm_compute; reflexivity);
    (intros [H | H];
     [vm_compute in H; discriminate H
     | vm_compute in H; apply H; reflexivity]).
Qed.

(** C8: a scored candidate longer than 90 minutes with a score below 50 is
    skipped at every iteration that looks at it, whatever the accumulated
    duration and the target are, so the loop never adds it to the selection. *)
Theorem long_and_mediocre_is_skipped (targetDuration : float)
  (items : list Scored) (st : PackState) (item : Scored) :
  (90 <? duration (s_item item))%float = true ->
  score item < 50 ->
  (forall cur v, In (cur, item, v) (packTrace targetDuration items st) ->
                 v = SkipDuplicate \/ v = SkipLong)
  /\ (~ In (SScored item) (snd st) ->
      ~ In (SScored item) (snd (packLoop targetDuration items st))).
Proof.
  intros Hlong Hscore.
  assert (forall cur v, In (cur, item, v) (packTrace targetDuration items st) ->
                        v = SkipDuplicate \/ v = SkipLong) as Hskip.
  { intros cur v Htr.
    destruct (packTrace_In _ _ _ _ _ _ Htr) as [sel ->].
    unfold verdictOf. destruct (existsb _ sel); [now left |].
    rewrite Hlong. apply Z.ltb_lt in Hscore. rewrite Hscore. now right. }
  split; [exact Hskip |].
  intros Hst Hin.
  destruct (packLoop_added _ _ _ _ Hin Hst) as [cur Htr].
  destruct (Hskip _ _ Htr); discriminate.
Qed.

Lemma long_and_mediocre_is_skipped_witness :
  (forall cur v,
      In (cur, Demo.scoredD, v)
         (packTrace 200 [Demo.scoredA; Demo.scoredB; Demo.scoredD] Demo.seeded) ->
      v = SkipDuplicate \/ v = SkipLong)
  /\ (~ In (SScored Demo.scoredD) (snd Demo.seeded) ->
      ~ In (SScored Demo.scoredD)
           (snd (packLoop 200 [Demo.scoredA; Demo.scoredB; Demo.scoredD]
                          Demo.seeded))).
Proof.
  apply (long_and_mediocre_is_skipped 200
           [Demo.scoredA; Demo.scoredB; Demo.scoredD] Demo.seeded Demo.scoredD).
  - vm_compute. reflexivity.
  - vm_compute. reflexivity.
Defined.

Example trace_target_200 :
  packTrace 200 [Demo.scoredA; Demo.scoredB; Demo.scoredD] Demo.seeded
  = [(8%float, Demo.scoredA, Admit); (48%float, Demo.scoredB, Admit);
     (83%float, Demo.scoredD, SkipLong)].
Proof. vm_compute. reflexivity. Qed.

(** C4, as the code has it: the loop compares the accumulated duration with
    the target only right after admitting a scored candidate.  When such an
    admission leaves [currentDuration >= targetDuration], that iteration is
    the last one: the loop has looked at exactly the candidates up to and
    including this one, and returns with this item as the last of the
    selection.  Nothing else ends the loop: it looks at every candidate
    unless its last iteration was such an admission; a candidate that is
    skipped is followed by the next one with the state unchanged, whatever
    the accumulated duration is; and an admission that stays below the target
    is followed by the next one too.  So from any starting state, also one
    whose accumulated duration already reaches the target, the first
    candidate is looked at, and all of them are when none is admitted. *)
Theorem loop_breaks_after_admission_reaching_target (targetDuration : float)
  (items : list Scored) (st : PackState) :
  (forall tr1 cur item tr2,
     packTrace targetDuration items st = tr1 ++ (cur, item, Admit) :: tr2 ->
     (targetDuration <=? cur + duration (s_item item))%float = true ->
     tr2 = []
     /\ considered (packTrace targetDuration items st)
        = firstn (S (length tr1)) items
     /\ packLoop targetDuration items st
        = ((cur + duration (s_item item))%float,
           snd st ++ map SScored (admitted tr1) ++ [SScored item]))
  /\ (considered (packTrace targetDuration items st) = items
      \/ exists tr1 cur item,
           packTrace targetDuration items st = tr1 ++ [(cur, item, Admit)]
           /\ (targetDuration <=? cur + duration (s_item item))%float = true)
  /\ (forall item rest,
        verdictOf targetDuration st item <> Admit ->
        packTrace targetDuration (item :: rest) st
        = (fst st, item, verdictOf targetDuration st item)
          :: packTrace targetDuration rest st
        /\ packLoop targetDuration (item :: rest) st
           = packLoop targetDuration rest st)
  /\ (forall item rest,
        verdictOf targetDuration st item = Admit ->
        (targetDuration <=? fst st + duration (s_item item))%float = false ->
        let st' := ((fst st + duration (s_item item))%float,
                    snd st ++ [SScored item]) in
        packTrace targetDuration (item :: rest) st
        = (fst st, item, Admit) :: packTrace targetDuration rest st'
        /\ packLoop targetDuration (item :: rest) st
           = packLoop targetDuration rest st')
  /\ (forall item rest,
        items = item :: rest ->
        exists tr,
          packTrace targetDuration items st
          = (fst st, item, verdictOf targetDuration st item) :: tr)
  /\ (admitted (packTrace targetDuration items st) = [] ->
      considered (packTrace targetDuration items st) = items).
Proof.
  assert (considered (packTrace targetDuration items st) = items
          \/ exists tr1 cur item,
               packTrace targetDuration items st = tr1 ++ [(cur, item, Admit)]
               /\ (targetDuration <=? cur + duration (s_item item))%float
                  = true) as Hend.
  { destruct (Nat.lt_ge_cases (length (packTrace targetDuration items st))
                              (length items)) as [Hlt | Hge].
    - right. exact (packTrace_short _ _ _ Hlt).
    - left. rewrite packTrace_prefix. now apply firstn_all2. }
  split; [| split; [exact Hend | split; [| split; [| split]]]].
  - intros tr1 cur item tr2 Htr Hge.
    destruct (packTrace_break _ _ _ _ _ _ _ Htr Hge) as (-> & Hcur & _).
    split; [reflexivity |]. split.
    + rewrite packTrace_prefix, Htr, length_app. cbn [length].
      f_equal. clear. lia.
    + rewrite (surjective_pairing (packLoop _ _ _)), Hcur. f_equal.
      rewrite packLoop_selected, Htr. f_equal.
      unfold admitted. rewrite List.filter_app, !map_app. reflexivity.
  - intros item rest V. cbn [packTrace packLoop].
    now rewrite (packStep_skip _ _ _ V).
  - intros item rest V Hlt. cbv zeta. cbn [packTrace packLoop].
    rewrite (packStep_admit _ _ _ V). cbv zeta. cbn [fst].
    rewrite Hlt, V. split; reflexivity.
  - intros item rest ->. cbn [packTrace]. eauto.
  - intros Hnone. destruct Hend as [H | (tr1 & cur & item & E & _)];
      [exact H |].
    rewrite E in Hnone. unfold admitted in Hnone.
    rewrite List.filter_app, map_app in Hnone. cbn in Hnone.
    now destruct (map _ (List.filter _ tr1)).
Qed.

Lemma loop_breaks_after_admission_reaching_target_witness :
  [] = @nil (float * Scored * verdict)
  /\ considered (packTrace 70 [Demo.scoredA; Demo.scoredB; Demo.scoredD]
                           Demo.seeded)
     = firstn 2 [Demo.scoredA; Demo.scoredB; Demo.scoredD]
  /\ packLoop 70 [Demo.scoredA; Demo.scoredB; Demo.scoredD] Demo.seeded
     = ((48 + duration (s_item Demo.scoredB))%float,
        snd Demo.seeded
        ++ map SScored (admitted [(8%float, Demo.scoredA, Admit)])
        ++ [SScored Demo.scoredB]).
Proof.
  apply (proj1 (loop_breaks_after_admission_reaching_target 70
                  [Demo.scoredA; Demo.scoredB; Demo.scoredD] Demo.seeded)
           [(8%float, Demo.scoredA, Admit)] 48%float Demo.scoredB []).
  - vm_compute. reflexivity.
  - vm_compute. reflexivity.
Defined.

(** C4, as stated, fails when the briefing alone reaches the target.  With a
    target of 5 minutes the eight-minute briefing is seeded, so the
    accumulated duration is already at the target when the loop starts; the
    loop still looks at candidate A and admits it. *)
Lemma loop_runs_after_seed_reached_target :
  let c := Demo.config 5 Demo.feedList in
  exists r w,
    run (Demo.frozen Demo.t0) c Demo.world = Some (r, w)
    /\ r_targetDuration r = 5%float
    /\ r_newsBriefing r = Some Demo.briefing
    /\ seedBriefing (Demo.frozen Demo.t0) (r_newsBriefing r)
         {| ticks := 7; heap := Demo.objects |}
       = Some (Demo.seeded, {| ticks := 8; heap := Demo.objects |})
    /\ (r_targetDuration r <=? fst Demo.seeded)%float = true
    /\ packTrace (r_targetDuration r) (r_scoredItems r) Demo.seeded
       = [(8%float, Demo.scoredA, Admit)]
    /\ r_selected r = [SBriefing Demo.briefing; SScored Demo.scoredA]
    /\ r_currentDuration r = 48%float.
Proof.
  cbv zeta.
  exists (fst (Demo.ranOn (Demo.frozen Demo.t0) (Demo.config 5 Demo.feedList))),
         (snd (Demo.ranOn (Demo.frozen Demo.t0) (Demo.config 5 Demo.feedList))).
  vm_compute. repeat split; reflexivity.
Qed.

(** ** Rule building and the store *)

Lemma clockFree_ret {A} (a : A) : clockFree (ret a).
Proof. intros w x w' E. injection E as <- <-. reflexivity. Qed.

Lemma clockFree_bind {A B} (m : M A) (k : A -> M B) :
  clockFree m -> (forall a, clockFree (k a)) -> clockFree (bind m k).
Proof.
  intros Hm Hk w b w'. unfold bind.
  destruct (m w) as [[a w1]|] eqn:E; [| discriminate].
  intros E'. rewrite (Hk _ _ _ _ E'). eauto.
Qed.

Lemma clockFree_read_rules l : clockFree (read_rules l).
Proof.
  intros w a w'. unfold read_rules.
  destruct (heap w !! l) as [[]|]; try discriminate.
  intros E. injection E as <- <-. reflexivity.
Qed.

Lemma clockFree_read_arr l : clockFree (read_arr l).
Proof.
  intros w a w'. unfold read_arr.
  destruct (heap w !! l) as [[]|]; try discriminate.
  intros E. injection E as <- <-. reflexivity.
Qed.

Lemma clockFree_alloc c : clockFree (alloc c).
Proof. intros w a w' E. injection E as <- <-. reflexivity. Qed.

Lemma clockFree_write l c : clockFree (write l c).
Proof.
  intros w a w'. unfold write. destruct (decide _); [| discriminate].
  intros E. injection E as <- <-. reflexivity.
Qed.

Lemma clockFree_buildRules rules th : clockFree (buildRules rules th).
Proof.
  destruct th; cbn; [| apply clockFree_ret].
  unfold mergeDateNight.
  repeat first
    [ apply clockFree_write
    | apply clockFree_bind; intros
    | apply clockFree_read_rules
    | apply clockFree_read_arr
    | apply clockFree_alloc ].
Qed.

Lemma lookup_Some_lt (h : store) (l : loc) (c : cell) :
  h !! l = Some c -> (l < length h)%nat.
Proof. apply lookup_lt_Some. Qed.

(** The store after the date-night merge, in full. *)
Lemma mergeDateNight_spec (w : World) rules r bk bl bg dk db :
  rulesAt (heap w) rules r bk bl bg dk db ->
  let n := length (heap w) in
  mergeDateNight rules w =
  Some (tt, {| ticks := ticks w;
               heap := <[rules := Rules (withBlock (withBoost r n) (S n))]>
                         (<[rules := Rules (withBoost r n)]>
                            (heap w ++ [Arr (bk ++ dk)])
                          ++ [Arr (bl ++ db)]) |}).
Proof.
  intros (Hr & Hbk & Hbl & Hbg & Hdk & Hdb) n.
  pose proof (lookup_Some_lt _ _ _ Hr) as Lr.
  pose proof (lookup_Some_lt _ _ _ Hbl) as Lbl.
  pose proof (lookup_Some_lt _ _ _ Hdb) as Ldb.
  assert (block_keywords r <> rules) as Nbl by (intros E; congruence).
  assert (datenight_block r <> rules) as Ndb by (intros E; congruence).
  unfold mergeDateNight, bind, read_rules, read_arr, alloc, write.
  rewrite Hr, Hbk, Hdk. cbn [heap ticks].
  rewrite length_app. cbn [length].
  destruct (decide (rules < length (heap w) + 1)%nat) as [_ | N];
    [| exfalso; clear -Lr N; lia].
  cbn [heap ticks].
  rewrite list_lookup_insert_eq by (rewrite length_app; cbn; clear -Lr; lia).
  cbn [heap ticks block_keywords datenight_block].
  rewrite list_lookup_insert_ne by auto.
  rewrite lookup_app_l by exact Lbl. rewrite Hbl. cbn [heap ticks].
  rewrite list_lookup_insert_ne by auto.
  rewrite lookup_app_l by exact Ldb. rewrite Hdb.
  cbn [heap ticks].
  rewrite length_app, length_insert, length_app. cbn [length].
  destruct (decide (rules < length (heap w) + 1 + 1)%nat) as [_ | N];
    [| exfalso; clear -Lr N; lia].
  repeat f_equal; unfold withBlock, withBoost, n; cbn;
    repeat f_equal; clear; lia.
Qed.

Lemma merged_lookup_old (h : store) (rules : loc) (c1 c2 a b : cell) (l : loc) :
  (l < length h)%nat -> l <> rules ->
  <[rules := c2]> (<[rules := c1]> (h ++ [a]) ++ [b]) !! l = h !! l.
Proof.
  intros Hl Hne.
  rewrite list_lookup_insert_ne by auto.
  rewrite lookup_app_l by (rewrite length_insert, length_app; cbn; lia).
  rewrite list_lookup_insert_ne by auto.
  now rewrite lookup_app_l.
Qed.

Lemma merged_lookup_rules (h : store) (rules : loc) (c1 c2 a b : cell) :
  (rules < length h)%nat ->
  <[rules := c2]> (<[rules := c1]> (h ++ [a]) ++ [b]) !! rules = Some c2.
Proof.
  intros Hl. apply list_lookup_insert_eq.
  rewrite length_app, length_insert, length_app. cbn. lia.
Qed.

Lemma merged_lookup_first (h : store) (rules : loc) (c1 c2 a b : cell) :
  (rules < length h)%nat ->
  <[rules := c2]> (<[rules := c1]> (h ++ [a]) ++ [b]) !! length h = Some a.
Proof.
  intros Hl.
  rewrite list_lookup_insert_ne by lia.
  rewrite lookup_app_l by (rewrite length_insert, length_app; cbn; lia).
  rewrite list_lookup_insert_ne by lia.
  rewrite lookup_app_r by lia. now rewrite Nat.sub_diag.
Qed.

Lemma merged_lookup_second (h : store) (rules : loc) (c1 c2 a b : cell) :
  (rules < length h)%nat ->
  <[rules := c2]> (<[rules := c1]> (h ++ [a]) ++ [b]) !! S (length h) = Some b.
Proof.
  intros Hl.
  rewrite list_lookup_insert_ne by lia.
  rewrite lookup_app_r by (rewrite length_insert, length_app; cbn; lia).
  rewrite length_insert, length_app. cbn [length].
  now replace (S (length h) - (length h + 1))%nat with 0%nat by lia.
Qed.

(** After the merge the rules object is where it was and its properties refer
    to arrays again, the first two to the extended lists. *)
Lemma merged_rulesAt (h : store) (rules : loc) (r : RulesObj)
  (bk bl bg dk db : list string) :
  rulesAt h rules r bk bl bg dk db ->
  let n := length h in
  let r' := withBlock (withBoost r n) (S n) in
  rulesAt (<[rules := Rules r']>
             (<[rules := Rules (withBoost r n)]> (h ++ [Arr (bk ++ dk)])
              ++ [Arr (bl ++ db)]))
          rules r' (bk ++ dk) (bl ++ db) bg dk db.
Proof.
  intros (Hr & Hbk & Hbl & Hbg & Hdk & Hdb) n r'.
  pose proof (lookup_Some_lt _ _ _ Hr) as Lr.
  assert (forall l xs, h !! l = Some (Arr xs) ->
                       (l < length h)%nat /\ l <> rules) as Harr.
  { intros l xs H. split; [exact (lookup_Some_lt _ _ _ H) | congruence]. }
  unfold rulesAt. rewrite merged_lookup_rules by exact Lr.
  subst r'. cbn [boost_keywords block_keywords boost_guests datenight_keywords
                 datenight_block withBlock withBoost].
  unfold n. rewrite merged_lookup_first, merged_lookup_second by exact Lr.
  destruct (Harr _ _ Hbg), (Harr _ _ Hdk), (Harr _ _ Hdb).
  rewrite !merged_lookup_old by assumption. repeat split; assumption.
Qed.

(** C2, as the code has it: [rules] is [config.rules] itself, not a copy.  On
    a Thursday the merge assigns to that object: its [boost_keywords] and
    [block_keywords] properties are replaced by two newly created arrays that
    hold the base list followed by the date-night list.  Every other object
    that existed, the original arrays among them, is left as it was; on other
    days nothing is changed at all. *)
Theorem date_night_merge_updates_base_rules (w : World) (rules : loc)
  (r : RulesObj) (bk bl bg dk db : list string) :
  rulesAt (heap w) rules r bk bl bg dk db ->
  let n := length (heap w) in
  let r' := withBlock (withBoost r n) (S n) in
  buildRules rules false w = Some (tt, w)
  /\ exists w',
       buildRules rules true w = Some (tt, w')
       /\ ticks w' = ticks w
       /\ length (heap w') = (n + 2)%nat
       /\ (forall l, (l < n)%nat -> l <> rules -> heap w' !! l = heap w !! l)
       /\ rulesAt (heap w') rules r' (bk ++ dk) (bl ++ db) bg dk db
       /\ heap w' !! rules <> heap w !! rules
       /\ heap w !! boost_keywords r' = None
       /\ heap w !! block_keywords r' = None.
Proof.
  intros Hat n r'. split; [reflexivity |].
  pose proof Hat as (Hr & Hbk & Hbl & Hbg & Hdk & Hdb).
  pose proof (lookup_Some_lt _ _ _ Hr) as Lr.
  assert (forall l xs, heap w !! l = Some (Arr xs) ->
                       (l < n)%nat /\ l <> rules) as Harr.
  { intros l xs H. split; [exact (lookup_Some_lt _ _ _ H) | congruence]. }
  eexists. split; [exact (mergeDateNight_spec w rules r bk bl bg dk db Hat) |].
  cbn [ticks heap]. fold n. fold r'.
  split; [reflexivity |]. split.
  { rewrite length_insert, length_app, length_insert, length_app. cbn.
    unfold n. clear. lia. }
  split; [intros l Hl Hne; now apply merged_lookup_old |].
  split; [exact (merged_rulesAt _ _ _ _ _ _ _ _ Hat) |].
  split.
  { rewrite merged_lookup_rules by exact Lr. rewrite Hr.
    intros E. injection E as E. apply (f_equal boost_keywords) in E.
    cbn in E. destruct (Harr _ _ Hbk) as [Hlt _]. unfold n in *. lia. }
  split; apply lookup_ge_None; cbn; unfold n; lia.
Qed.

Lemma date_night_merge_updates_base_rules_witness :
  let w := Demo.world in
  let r' := withBlock (withBoost
              {| boost_keywords := 0; block_keywords := 1; boost_guests := 2;
                 datenight_keywords := 3; datenight_block := 4 |} 6) 7 in
  buildRules 5 false w = Some (tt, w)
  /\ exists w',
       buildRules 5 true w = Some (tt, w')
       /\ ticks w' = ticks w
       /\ length (heap w') = (6 + 2)%nat
       /\ (forall l, (l < 6)%nat -> l <> 5%nat -> heap w' !! l = heap w !! l)
       /\ rulesAt (heap w') 5 r'
            (["rust"; "coq"; "ocaml"; "lean"; "agda"]%string ++ ["love"]%string)
            (["crypto"]%string ++ ["war"]%string) ["Guest1"]%string
            ["love"]%string ["war"]%string
       /\ heap w' !! 5%nat <> heap w !! 5%nat
       /\ heap w !! boost_keywords r' = None
       /\ heap w !! block_keywords r' = None.
Proof.
  apply (date_night_merge_updates_base_rules Demo.world 5
           {| boost_keywords := 0; block_keywords := 1; boost_guests := 2;
              datenight_keywords := 3; datenight_block := 4 |}).
  unfold rulesAt. vm_compute. repeat split; reflexivity.
Defined.

(** C2, as stated, fails: on a Thursday the run leaves the rules object of
    the configuration changed.  Its [boost_keywords] and [block_keywords] no
    longer refer to the base arrays (at 0 and 1) but to the extended ones. *)
Lemma date_night_run_changes_base_rules :
  let e := Demo.frozen (Demo.t0 + 2 * Demo.day) in
  let c := Demo.config 70 Demo.feedList in
  exists r w',
    run e c Demo.world = Some (r, w')
    /\ r_isThursday r = true
    /\ heap Demo.world !! cfg_rules c
       = Some (Rules {| boost_keywords := 0; block_keywords := 1;
                        boost_guests := 2; datenight_keywords := 3;
                        datenight_block := 4 |})
    /\ heap w' !! cfg_rules c
       = Some (Rules {| boost_keywords := 6; block_keywords := 7;
                        boost_guests := 2; datenight_keywords := 3;
                        datenight_block := 4 |})
    /\ heap w' !! 6%nat
       = Some (Arr ["rust"; "coq"; "ocaml"; "lean"; "agda"; "love"]%string)
    /\ heap w' !! 7%nat = Some (Arr ["crypto"; "war"]%string)
    /\ heap w' !! cfg_rules c <> heap Demo.world !! cfg_rules c.
Proof.
  cbv zeta.
  exists (fst (Demo.ranOn (Demo.frozen (Demo.t0 + 2 * Demo.day))
                         (Demo.config 70 Demo.feedList))),
         (snd (Demo.ranOn (Demo.frozen (Demo.t0 + 2 * Demo.day))
                         (Demo.config 70 Demo.feedList))).
  vm_compute. repeat split; try reflexivity. discriminate.
Qed.

(** ** The run returns *)

Section RunTotal.

Variable env : Env.

Lemma scoreItem_value rules th item w r bk bl bg dk db :
  rulesAt (heap w) rules r bk bl bg dk db ->
  scoreItem env rules th item w
  = Some ({| s_item := item;
             score := scoreOf bk bg bl th
                        (ageInDays (clock env (ticks w)) item) item |},
          {| ticks := S (ticks w); heap := heap w |}).
Proof.
  intros (Hr & Hbk & Hbl & Hbg & _).
  unfold scoreItem, bind, now, read_rules, read_arr, ret. cbn [heap ticks].
  repeat (first [rewrite Hr | rewrite Hbk | rewrite Hbg | rewrite Hbl];
          cbn [heap ticks]).
  reflexivity.
Qed.

(** With the rules in the store, scoring returns the scores of [scoreAll]:
    one clock query per candidate, in order. *)
Lemma mapM_scoreItem_value rules th items w r bk bl bg dk db :
  rulesAt (heap w) rules r bk bl bg dk db ->
  mapM (scoreItem env rules th) items w
  = Some (scoreAll env bk bg bl th (ticks w) items,
          {| ticks := ticks w + length items; heap := heap w |}).
Proof.
  revert w. induction items as [| x items IH]; intros w Hat; cbn.
  - unfold ret. rewrite Nat.add_0_r. now destruct w.
  - unfold bind at 1. rewrite (scoreItem_value rules th x w _ _ _ _ _ _ Hat).
    unfold bind at 1.
    rewrite (IH {| ticks := S (ticks w); heap := heap w |} Hat).
    unfold ret. cbn [ticks heap]. now rewrite Nat.add_succ_r.
Qed.

Lemma mapM_scoreItem_total rules th items w r bk bl bg dk db :
  rulesAt (heap w) rules r bk bl bg dk db ->
  exists scored w', mapM (scoreItem env rules th) items w = Some (scored, w').
Proof.
  intros Hat. rewrite (mapM_scoreItem_value _ _ _ _ _ _ _ _ _ _ Hat). eauto.
Qed.

Lemma seedBriefing_total nb w :
  exists seed w', seedBriefing env nb w = Some (seed, w').
Proof.
  unfold seedBriefing. destruct nb as [b |]; [| unfold ret; eauto].
  unfold bind, now. destruct (PrimFloat.ltb _ 24); unfold ret; eauto.
Qed.

(** With a configuration whose rules object and keyword arrays are in the
    store, the run does not throw: it produces a selection. *)
Lemma run_total config w r bk bl bg dk db :
  rulesAt (heap w) (cfg_rules config) r bk bl bg dk db ->
  exists res w', run env config w = Some (res, w').
Proof.
  intros Hat. unfold run.
  unfold bind at 1, now at 1. cbn [ticks heap].
  unfold bind at 1, now at 1. cbn [ticks heap].
  set (w0 := {| ticks := S (S (ticks w)); heap := heap w |}).
  assert (exists w1 r1 bk1 bl1,
             buildRules (cfg_rules config)
               (getDay env (clock env (ticks w)) =? 4) w0 = Some (tt, w1)
             /\ rulesAt (heap w1) (cfg_rules config) r1 bk1 bl1 bg dk db)
    as (w1 & r1 & bk1 & bl1 & Eb & Hat1).
  { destruct (getDay env _ =? 4).
    - eexists _, _, _, _. split.
      + exact (mergeDateNight_spec w0 _ _ _ _ _ _ _ Hat).
      + exact (merged_rulesAt _ _ _ _ _ _ _ _ Hat).
    - exists w0, r, bk, bl. split; [reflexivity | exact Hat]. }
  unfold bind at 1. rewrite Eb.
  destruct (fetchAll env (cfg_feeds config)) as [cands nb].
  destruct (mapM_scoreItem_total (cfg_rules config)
              (getDay env (clock env (ticks w)) =? 4) cands w1 _ _ _ _ _ _ Hat1)
    as (scored & w2 & Em).
  unfold bind at 1. rewrite Em.
  destruct (seedBriefing_total nb w2) as (seed & w3 & Es).
  unfold bind at 1. rewrite Es.
  destruct (packLoop _ _ seed). unfold ret. eauto.
Qed.

End RunTotal.

(** ** Claims about the whole run *)

Lemma admitted_considered (T : float) (items : list Scored) (st : PackState)
  (item : Scored) :
  In item (admitted (packTrace T items st)) -> In item items.
Proof.
  intros H. apply admitted_In in H as [cur H].
  assert (In item (considered (packTrace T items st))) as Hc.
  { unfold considered. apply in_map_iff. exists (cur, item, Admit). auto. }
  rewrite packTrace_prefix in Hc. revert Hc. clear.
  generalize (length (packTrace T items st)). intros n.
  revert items. induction n; intros [| y l]; cbn; try tauto.
  intros [-> | H']; auto.
Qed.

Lemma seed_has_no_scored env nb w seed w' (s : Scored) :
  seedBriefing env nb w = Some (seed, w') -> ~ In (SScored s) (snd seed).
Proof.
  intros E. apply seedBriefing_spec in E as [_ E].
  destruct nb as [b |].
  - destruct E as [_ E]. cbv zeta in E.
    destruct (PrimFloat.ltb _ 24); subst seed; cbn;
      [intros [H | []]; discriminate H | tauto].
  - destruct E as [-> _]. cbn. tauto.
Qed.

(** A record scored -20 or less is neither sorted nor selected, in a run that
    returns. *)
Lemma run_low_scores (env : Env) (config : Config) (w : World)
  (r : Result) (w' : World) (s : Scored) :
  run env config w = Some (r, w') ->
  score s <= -20 ->
  ~ In s (r_scoredItems r)
  /\ ~ In (SScored s) (r_selected r)
  /\ (forall x, In x (r_scoredItems r) ->
                In (s_item x) (r_candidates r) /\ -20 < score x).
Proof.
  intros Hrun Hlow.
  destruct (run_inv env config w r w' Hrun)
    as (w1 & scored & w2 & seed & _ & Hmap & Hseed & ->).
  cbn [r_scoredItems r_selected r_candidates].
  assert (forall x, In x (sortByScore (List.filter keep scored)) ->
                    In (s_item x) (fst (fetchAll env (cfg_feeds config)))
                    /\ -20 < score x) as Hall.
  { intros x Hx. apply sortByScore_In, filter_In in Hx as [Hx Hk].
    apply mapM_scoreItem_spec in Hmap as (<- & _).
    split; [now apply in_map | now apply Z.ltb_lt in Hk]. }
  assert (~ In s (sortByScore (List.filter keep scored))) as Hnot.
  { intros Hin. apply Hall in Hin as [_ Hin]. lia. }
  split; [exact Hnot |]. split; [| exact Hall].
  rewrite packLoop_selected, in_app_iff, in_map_iff.
  intros [Hin | (x & E & Hin)].
  - exact (seed_has_no_scored _ _ _ _ _ s Hseed Hin).
  - injection E as ->. now apply admitted_considered in Hin.
Qed.

(** The keyword lists in force: on a Thursday the date-night lists are
    appended. *)
Lemma run_scored_items (env : Env) (config : Config) (w : World)
  (rules0 : RulesObj) (bk bl bg dk db : list string) (r : Result) (w' : World) :
  rulesAt (heap w) (cfg_rules config) rules0 bk bl bg dk db ->
  run env config w = Some (r, w') ->
  let th := r_isThursday r in
  r_scoredItems r =
  sortByScore
    (List.filter keep
       (scoreAll env (if th then bk ++ dk else bk) bg
                 (if th then bl ++ db else bl) th (S (S (ticks w)))
                 (r_candidates r))).
Proof.
  intros Hat Hrun.
  destruct (run_inv env config w r w' Hrun)
    as (w1 & scored & w2 & seed & Hbuild & Hmap & _ & ->).
  cbn [r_isThursday r_scoredItems r_candidates].
  set (w0 := {| ticks := S (S (ticks w)); heap := heap w |}) in *.
  assert (rulesAt (heap w0) (cfg_rules config) rules0 bk bl bg dk db) as Hat0
      by exact Hat.
  destruct (getDay env (clock env (ticks w)) =? 4); cbn [buildRules] in Hbuild.
  - rewrite (mergeDateNight_spec w0 _ _ _ _ _ _ _ Hat0) in Hbuild.
    injection Hbuild as <-.
    pose proof (merged_rulesAt _ _ _ _ _ _ _ _ Hat0) as Hat1.
    match type of Hmap with
    | mapM _ _ ?W = _ =>
        pose proof (mapM_scoreItem_value env (cfg_rules config) true
                      (fst (fetchAll env (cfg_feeds config))) W
                      _ _ _ _ _ _ Hat1) as E
    end.
    rewrite E in Hmap. injection Hmap as <- _. reflexivity.
  - injection Hbuild as <-.
    rewrite (mapM_scoreItem_value env _ _ _ _ _ _ _ _ _ _ Hat0) in Hmap.
    injection Hmap as <- _. reflexivity.
Qed.

(** C3: with the rules object and its keyword arrays in the store the run
    returns; the sorted list handed to the packer is made of the candidates'
    scored records, each scored with the keyword lists in force at the clock
    reading of its turn, less those scored -20 or lower.  Whatever the feeds,
    the rules, the clock and the target are, a record whose score is at most
    -20 is not in that list and not in the final selection. *)
Theorem low_score_never_selected (env : Env) (config : Config) (w : World)
  (rules0 : RulesObj) (bk bl bg dk db : list string) (s : Scored) :
  rulesAt (heap w) (cfg_rules config) rules0 bk bl bg dk db ->
  score s <= -20 ->
  exists r w',
    run env config w = Some (r, w')
    /\ (let th := r_isThursday r in
        r_scoredItems r =
        sortByScore
          (List.filter keep
             (scoreAll env (if th then bk ++ dk else bk) bg
                       (if th then bl ++ db else bl) th (S (S (ticks w)))
                       (r_candidates r))))
    /\ ~ In s (r_scoredItems r)
    /\ ~ In (SScored s) (r_selected r)
    /\ (forall x, In x (r_scoredItems r) ->
                  In (s_item x) (r_candidates r) /\ -20 < score x).
Proof.
  intros Hat Hlow.
  destruct (run_total env config w _ _ _ _ _ _ Hat) as (r & w' & Hrun).
  exists r, w'. split; [exact Hrun |].
  split; [exact (run_scored_items env config w _ _ _ _ _ _ r w' Hat Hrun) |].
  exact (run_low_scores env config w r w' s Hrun Hlow).
Qed.

Lemma low_score_never_selected_witness :
  exists r w',
    run (Demo.frozen Demo.t0) (Demo.config 70 Demo.feedList) Demo.world
    = Some (r, w')
    /\ (let th := r_isThursday r in
        r_scoredItems r =
        sortByScore
          (List.filter keep
             (scoreAll (Demo.frozen Demo.t0)
                (if th
                 then ["rust"; "coq"; "ocaml"; "lean"; "agda"]%string
                      ++ ["love"]%string
                 else ["rust"; "coq"; "ocaml"; "lean"; "agda"]%string)
                ["Guest1"]%string
                (if th then ["crypto"]%string ++ ["war"]%string
                 else ["crypto"]%string)
                th (S (S (ticks Demo.world))) (r_candidates r))))
    /\ ~ In Demo.scoredC (r_scoredItems r)
    /\ ~ In (SScored Demo.scoredC) (r_selected r)
    /\ (forall x, In x (r_scoredItems r) ->
                  In (s_item x) (r_candidates r) /\ -20 < score x).
Proof.
  apply (low_score_never_selected (Demo.frozen Demo.t0)
           (Demo.config 70 Demo.feedList) Demo.world
           {| boost_keywords := 0; block_keywords := 1; boost_guests := 2;
              datenight_keywords := 3; datenight_block := 4 |}
           ["rust"; "coq"; "ocaml"; "lean"; "agda"]%string ["crypto"]%string
           ["Guest1"]%string ["love"]%string ["war"]%string Demo.scoredC).
  - unfold rulesAt. vm_compute. repeat split; reflexivity.
  - vm_compute. discriminate.
Defined.

(** In that run candidate C is scored -25. *)
Example scoreOf_C :
  scoreOf ["rust"; "coq"; "ocaml"; "lean"; "agda"]%string ["Guest1"]%string
          ["crypto"]%string false
          ((JS.of_Z Demo.t0 - timeValue (pubDate Demo.itemC)) / 86400000)%float
          Demo.itemC
  = score Demo.scoredC.
Proof. vm_compute. reflexivity. Qed.

(** The loop adds scored items only: a briefing in the final selection was
    put there by the seed. *)
Lemma packLoop_briefing (T : float) (items : list Scored) (st : PackState)
  (b : Item) :
  In (SBriefing b) (snd (packLoop T items st)) <-> In (SBriefing b) (snd st).
Proof.
  rewrite packLoop_selected, in_app_iff, in_map_iff. split; [| tauto].
  intros [H | (x & E & _)]; [exact H | discriminate E].
Qed.

(** Where the chosen briefing ends up, in a run that returns. *)
Lemma run_briefing (env : Env) (config : Config) (w : World)
  (r : Result) (w' : World) (b : Item) :
  run env config w = Some (r, w') ->
  r_newsBriefing r = Some b ->
  let t := clock env (S (S (ticks w)) + length (r_candidates r))%nat in
  let ageHours := ((JS.of_Z t - timeValue (pubDate b)) / 3600000)%float in
  (In (SBriefing b) (r_selected r) <-> (ageHours <? 24)%float = true)
  /\ ((ageHours <? 24)%float = true ->
      exists rest, r_selected r = SBriefing b :: rest)
  /\ ((ageHours <? 24)%float = false ->
      (forall x, ~ In (SBriefing x) (r_selected r))
      /\ (r_currentDuration r, r_selected r)
         = packLoop (r_targetDuration r) (r_scoredItems r) (0%float, [])).
Proof.
  intros Hrun Hb.
  destruct (run_inv env config w r w' Hrun)
    as (w1 & scored & w2 & seed & Hbuild & Hmap & Hseed & ->).
  cbn [r_newsBriefing r_selected r_candidates r_currentDuration
       r_targetDuration r_scoredItems] in *.
  apply clockFree_buildRules in Hbuild. cbn [ticks] in Hbuild.
  apply mapM_scoreItem_spec in Hmap as (_ & Hticks & _).
  rewrite Hbuild in Hticks.
  apply seedBriefing_spec in Hseed as [_ Hseed].
  rewrite Hb in Hseed. destruct Hseed as [_ Hseed]. cbv zeta in Hseed.
  rewrite Hticks in Hseed. cbv zeta.
  destruct (PrimFloat.ltb _ 24) eqn:Hfresh; subst seed.
  - split; [| split; [| discriminate]].
    + rewrite packLoop_briefing. cbn. intuition.
    + intros _. rewrite packLoop_selected. cbn. eauto.
  - split; [| split; [discriminate |]].
    + rewrite packLoop_briefing. cbn. intuition discriminate.
    + intros _. split.
      * intros x. rewrite packLoop_briefing. cbn. tauto.
      * now rewrite <- surjective_pairing.
Qed.

(** C5: with the rules object and its keyword arrays in the store the run
    returns, and when the briefing selector has chosen [b] the run inserts it
    into the selection if and only if its age, computed from the clock
    queried at selection time (after one query per scored candidate), is
    strictly below 24 hours.  When inserted it is the first element of the
    selection; when not, the selection holds no briefing and is what the loop
    builds from an empty state. *)
Theorem briefing_first_iff_fresh (env : Env) (config : Config) (w : World)
  (rules0 : RulesObj) (bk bl bg dk db : list string) (b : Item) :
  rulesAt (heap w) (cfg_rules config) rules0 bk bl bg dk db ->
  snd (fetchAll env (cfg_feeds config)) = Some b ->
  exists r w',
    run env config w = Some (r, w')
    /\ r_newsBriefing r = Some b
    /\ let t := clock env (S (S (ticks w)) + length (r_candidates r))%nat in
       let ageHours :=
         ((JS.of_Z t - timeValue (pubDate b)) / 3600000)%float in
       (In (SBriefing b) (r_selected r) <-> (ageHours <? 24)%float = true)
       /\ ((ageHours <? 24)%float = true ->
           exists rest, r_selected r = SBriefing b :: rest)
       /\ ((ageHours <? 24)%float = false ->
           (forall x, ~ In (SBriefing x) (r_selected r))
           /\ (r_currentDuration r, r_selected r)
              = packLoop (r_targetDuration r) (r_scoredItems r) (0%float, [])).
Proof.
  intros Hat Hb.
  destruct (run_total env config w _ _ _ _ _ _ Hat) as (r & w' & Hrun).
  exists r, w'. split; [exact Hrun |].
  assert (r_newsBriefing r = Some b) as Hnb.
  { destruct (run_inv env config w r w' Hrun)
      as (w1 & scored & w2 & seed & _ & _ & _ & E).
    rewrite E. exact Hb. }
  split; [exact Hnb |].
  exact (run_briefing env config w r w' b Hrun Hnb).
Qed.

Lemma briefing_first_iff_fresh_witness :
  exists r w',
    run (Demo.frozen Demo.t0) (Demo.config 70 Demo.feedList) Demo.world
    = Some (r, w')
    /\ r_newsBriefing r = Some Demo.briefing
    /\ let t := clock (Demo.frozen Demo.t0)
                  (S (S (ticks Demo.world)) + length (r_candidates r))%nat in
       let ageHours :=
         ((JS.of_Z t - timeValue (pubDate Demo.briefing)) / 3600000)%float in
       (In (SBriefing Demo.briefing) (r_selected r)
        <-> (ageHours <? 24)%float = true)
       /\ ((ageHours <? 24)%float = true ->
           exists rest, r_selected r = SBriefing Demo.briefing :: rest)
       /\ ((ageHours <? 24)%float = false ->
           (forall x, ~ In (SBriefing x) (r_selected r))
           /\ (r_currentDuration r, r_selected r)
              = packLoop (r_targetDuration r) (r_scoredItems r) (0%float, [])).
Proof.
  apply (briefing_first_iff_fresh (Demo.frozen Demo.t0)
           (Demo.config 70 Demo.feedList) Demo.world
           {| boost_keywords := 0; block_keywords := 1; boost_guests := 2;
              datenight_keywords := 3; datenight_block := 4 |}
           ["rust"; "coq"; "ocaml"; "lean"; "agda"]%string ["crypto"]%string
           ["Guest1"]%string ["love"]%string ["war"]%string Demo.briefing).
  - unfold rulesAt. vm_compute. repeat split; reflexivity.
  - vm_compute. reflexivity.
Defined.

(** Two days later the same briefing is 51 hours old and is dropped. *)
Example stale_briefing_dropped :
  let r := fst (Demo.ranOn (Demo.frozen (Demo.t0 + 2 * Demo.day))
                           (Demo.config 70 Demo.feedList)) in
  r_newsBriefing r = Some Demo.briefing
  /\ r_selected r = [SScored Demo.scoredA; SScored Demo.scoredB].
Proof. vm_compute. split; reflexivity. Qed.

(** ** The fetch loop *)

Section Fetch.

Variable env : Env.

Lemma fetchStep_views (st : list Item * option Item) (fc : FeedConfig) :
  fetchStep env st fc =
  (fst st ++ feedCandidates env fc,
   match feedBriefing env fc with
   | Some p => holderStep (snd st) p
   | None => snd st
   end).
Proof.
  destruct st as [cands held]. unfold fetchStep, feedCandidates, feedBriefing.
  cbn [fst snd].
  destruct (parseURL env (fc_url fc)) as [raw |]; [| now rewrite app_nil_r].
  destruct (fc_tags fc) as [ts |]; [| now rewrite app_nil_r].
  destruct (isBriefingFeed ts); [| reflexivity].
  rewrite app_nil_r.
  destruct (List.find _ (feedItems fc raw)) as [p |]; [| reflexivity].
  unfold holderStep. destruct held as [h |]; [| reflexivity].
  destruct (date_gt _ _); reflexivity.
Qed.

Lemma fetch_fold (fcs : list FeedConfig) (st : list Item * option Item) :
  fold_left (fetchStep env) fcs st =
  (fst st ++ flat_map (feedCandidates env) fcs,
   fold_left holderStep (omap (feedBriefing env) fcs) (snd st)).
Proof.
  revert st. induction fcs as [| fc fcs IH]; intros st; cbn.
  - rewrite app_nil_r. now destruct st.
  - rewrite IH, fetchStep_views. cbn [fst snd]. rewrite <- app_assoc.
    f_equal. destruct (feedBriefing env fc); reflexivity.
Qed.

Lemma fetchAll_views (fcs : list FeedConfig) :
  fetchAll env fcs =
  (flat_map (feedCandidates env) fcs,
   fold_left holderStep (omap (feedBriefing env) fcs) None).
Proof. apply fetch_fold. Qed.

End Fetch.

Lemma date_gt_trans (a b c : option Z) :
  date_gt a b = true -> date_gt b c = true -> date_gt a c = true.
Proof.
  destruct a, b, c; cbn; try discriminate.
  rewrite !Z.ltb_lt. lia.
Qed.

Lemma date_gt_older (p h b : Item) :
  date_gt (pubDate p) (pubDate h) = false ->
  date_gt (pubDate b) (pubDate h) = true ->
  older p b.
Proof.
  unfold older. destruct (pubDate p), (pubDate h), (pubDate b); cbn;
    try discriminate; auto.
  rewrite Z.ltb_ge, !Z.ltb_lt. right. lia.
Qed.

(** The holder after a sequence of offers, starting from a holder. *)
Lemma holder_from_some (picks : list Item) (h b : Item) :
  fold_left holderStep picks (Some h) = Some b ->
  (h = b /\ forall x, In x picks -> date_gt (pubDate x) (pubDate b) = false)
  \/ (date_gt (pubDate b) (pubDate h) = true
      /\ exists l1 l2,
           picks = l1 ++ b :: l2
           /\ (forall x, In x l1 -> older x b)
           /\ (forall x, In x l2 -> date_gt (pubDate x) (pubDate b) = false)).
Proof.
  revert h. induction picks as [| p rest IH]; intros h; cbn.
  - intros E. injection E as ->. left. split; [reflexivity | tauto].
  - destruct (date_gt (pubDate p) (pubDate h)) eqn:Hp; intros E;
      apply IH in E as [[-> Hrest] | (Hb & l1 & l2 & -> & H1 & H2)].
    + right. split; [exact Hp |]. exists [], rest. cbn. repeat split; tauto.
    + right. split; [exact (date_gt_trans _ _ _ Hb Hp) |].
      exists (p :: l1), l2. repeat split; [| exact H2].
      intros x [<- | Hx]; [right; exact Hb | auto].
    + left. split; [reflexivity |]. intros x [<- | Hx]; auto.
    + right. split; [exact Hb |].
      exists (p :: l1), l2. repeat split; [| exact H2].
      intros x [<- | Hx]; [exact (date_gt_older _ _ _ Hp Hb) | auto].
Qed.

(** The holder after a sequence of offers, starting without one. *)
Lemma holder_from_none (picks : list Item) (b : Item) :
  fold_left holderStep picks None = Some b ->
  exists l1 l2,
    picks = l1 ++ b :: l2
    /\ (forall x, In x l1 -> older x b)
    /\ (forall x, In x l2 -> date_gt (pubDate x) (pubDate b) = false).
Proof.
  destruct picks as [| p rest]; cbn; [discriminate |].
  intros E. apply holder_from_some in E
    as [[-> Hrest] | (Hb & l1 & l2 & -> & H1 & H2)].
  - exists [], rest. cbn. repeat split; tauto.
  - exists (p :: l1), l2. repeat split; [| exact H2].
    intros x [<- | Hx]; [right; exact Hb | auto].
Qed.


Lemma find_split {A} (f : A -> bool) (l : list A) (b : A) :
  List.find f l = Some b ->
  exists pre post,
    l = pre ++ b :: post /\ f b = true /\ forall x, In x pre -> f x = false.
Proof.
  induction l as [| a l IH]; cbn; [discriminate |].
  destruct (f a) eqn:Fa.
  - intros E. injection E as ->. exists [], l. cbn. repeat split; tauto.
  - intros E. destruct (IH E) as (pre & post & -> & Fb & Hpre).
    exists (a :: pre), post. repeat split; [exact Fb |].
    intros x [<- | Hx]; auto.
Qed.

Lemma feedItems_In (fc : FeedConfig) (raw : list RawItem) (c : Item) :
  In c (feedItems fc raw) <->
  exists x, In x (firstn 5 raw) /\ c = mkItem fc x
            /\ truthy_str (audio_url c) = true.
Proof.
  unfold feedItems. rewrite filter_In, in_map_iff. split.
  - intros [(x & <- & Hx) Ha]. eauto.
  - intros (x & Hx & -> & Ha). eauto.
Qed.

Lemma feedItems_firstn (fc : FeedConfig) (raw : list RawItem) :
  feedItems fc (firstn 5 raw) = feedItems fc raw.
Proof. unfold feedItems. now rewrite firstn_firstn. Qed.

Lemma feedItems_tags (fc : FeedConfig) (raw : list RawItem) (ts : list string)
  (c : Item) :
  fc_tags fc = Some ts -> In c (feedItems fc raw) -> tags c = ts.
Proof.
  intros Ht Hc. apply feedItems_In in Hc as (x & _ & -> & _).
  cbn. now rewrite Ht.
Qed.

Section FetchFacts.

Variable env : Env.

(** An offer is the first item under 15 minutes of a fetched feed tagged
    both "news" and "briefing". *)
Lemma feedBriefing_spec (fc : FeedConfig) (b : Item) :
  feedBriefing env fc = Some b ->
  exists raw ts pre post,
    parseURL env (fc_url fc) = Some raw
    /\ fc_tags fc = Some ts
    /\ includes_tag ts "news" = true
    /\ includes_tag ts "briefing" = true
    /\ feedItems fc raw = pre ++ b :: post
    /\ (duration b <? 15)%float = true
    /\ (forall x, In x pre -> (duration x <? 15)%float = false).
Proof.
  unfold feedBriefing.
  destruct (parseURL env (fc_url fc)) as [raw |]; [| discriminate].
  destruct (fc_tags fc) as [ts |]; [| discriminate].
  destruct (isBriefingFeed ts) eqn:Hb; [| discriminate].
  apply andb_true_iff in Hb as [Hn Hbr].
  intros E. apply find_split in E as (pre & post & E & Hd & Hpre).
  exists raw, ts, pre, post. auto 10.
Qed.

Lemma feedCandidates_spec (fc : FeedConfig) (c : Item) :
  In c (feedCandidates env fc) ->
  exists raw ts,
    parseURL env (fc_url fc) = Some raw
    /\ fc_tags fc = Some ts
    /\ isBriefingFeed ts = false
    /\ In c (feedItems fc raw).
Proof.
  unfold feedCandidates.
  destruct (parseURL env (fc_url fc)) as [raw |]; [| intros []].
  destruct (fc_tags fc) as [ts |]; [| intros []].
  destruct (isBriefingFeed ts) eqn:Hb; [intros [] |].
  eauto 10.
Qed.

Lemma offers_In (fcs : list FeedConfig) (b : Item) :
  In b (omap (feedBriefing env) fcs) <->
  exists fc, In fc fcs /\ feedBriefing env fc = Some b.
Proof.
  rewrite <- list_elem_of_In, list_elem_of_omap.
  split; intros (fc & H1 & H2); exists fc;
    [rewrite <- list_elem_of_In | rewrite list_elem_of_In]; auto.
Qed.

(** No general candidate carries the tags of a briefing feed. *)
Lemma candidates_not_briefing (fcs : list FeedConfig) (c : Item) :
  In c (fst (fetchAll env fcs)) -> isBriefingFeed (tags c) = false.
Proof.
  rewrite fetchAll_views. cbn [fst]. rewrite in_flat_map.
  intros (fc & _ & Hc).
  apply feedCandidates_spec in Hc as (raw & ts & _ & Ht & Hb & Hc).
  now rewrite (feedItems_tags _ _ _ _ Ht Hc).
Qed.


End FetchFacts.

(** C10: for every feed only the first five fetched items matter, for the
    general candidates and for the briefing alike: cutting every feed down
    to its first five items changes nothing, and every candidate and the
    briefing are built from one of the first five items of a fetched feed.
    A general candidate always comes from a feed that is not tagged both
    "news" and "briefing", so no item of such a feed, of whatever duration,
    is among the general candidates. *)
Theorem first_five_and_briefing_feeds_apart (env : Env)
  (fcs : list FeedConfig) :
  fetchAll env fcs = fetchAll (firstFive env) fcs
  /\ (forall c, In c (fst (fetchAll env fcs)) ->
        isBriefingFeed (tags c) = false
        /\ exists fc raw ts x,
             In fc fcs
             /\ parseURL env (fc_url fc) = Some raw
             /\ fc_tags fc = Some ts
             /\ isBriefingFeed ts = false
             /\ In x (firstn 5 raw)
             /\ c = mkItem fc x)
  /\ (forall b, snd (fetchAll env fcs) = Some b ->
        exists fc raw ts x,
          In fc fcs
          /\ parseURL env (fc_url fc) = Some raw
          /\ fc_tags fc = Some ts
          /\ isBriefingFeed ts = true
          /\ In x (firstn 5 raw)
          /\ b = mkItem fc x)
  /\ (forall fc raw ts x,
        In fc fcs -> parseURL env (fc_url fc) = Some raw ->
        fc_tags fc = Some ts -> isBriefingFeed ts = true ->
        ~ In (mkItem fc x) (fst (fetchAll env fcs))).
Proof.
  split; [| split; [| split]].
  - rewrite !fetchAll_views. f_equal.
    + apply flat_map_ext. intros fc. unfold feedCandidates, firstFive. cbn.
      destruct (parseURL env (fc_url fc)) as [raw |]; cbn; [| reflexivity].
      now rewrite feedItems_firstn.
    + f_equal. induction fcs as [| fc l IH]; cbn; [reflexivity |].
      rewrite IH.
      assert (feedBriefing env fc = feedBriefing (firstFive env) fc) as ->;
        [| reflexivity].
      unfold feedBriefing, firstFive. cbn.
      destruct (parseURL env (fc_url fc)) as [raw |]; cbn; [| reflexivity].
      now rewrite feedItems_firstn.
  - intros c Hc. split; [exact (candidates_not_briefing env fcs c Hc) |].
    rewrite fetchAll_views in Hc. cbn [fst] in Hc.
    apply in_flat_map in Hc as (fc & Hfc & Hc).
    apply feedCandidates_spec in Hc as (raw & ts & Hp & Ht & Hb & Hc).
    apply feedItems_In in Hc as (x & Hx & -> & _).
    exists fc, raw, ts, x. auto 10.
  - intros b Hb. rewrite fetchAll_views in Hb. cbn [snd] in Hb.
    apply holder_from_none in Hb as (l1 & l2 & E & _).
    assert (In b (omap (feedBriefing env) fcs)) as Hin
        by (rewrite E; apply in_elt).
    apply offers_In in Hin as (fc & Hfc & Hin).
    apply feedBriefing_spec in Hin
      as (raw & ts & pre & post & Hp & Ht & Hn & Hbr & Hi & _).
    assert (In b (feedItems fc raw)) as Hin by (rewrite Hi; apply in_elt).
    apply feedItems_In in Hin as (x & Hx & -> & _).
    exists fc, raw, ts, x. unfold isBriefingFeed. rewrite Hn, Hbr. auto 10.
  - intros fc raw ts x Hfc Hp Ht Hb Hin.
    apply candidates_not_briefing in Hin. cbn in Hin. rewrite Ht in Hin.
    congruence.
Qed.

(** The state the loop starts from, in a run that returns. *)
Lemma run_seed (env : Env) (config : Config) (w : World) (r : Result)
  (w' : World) :
  run env config w = Some (r, w') ->
  let t := clock env (S (S (ticks w)) + length (r_candidates r))%nat in
  let seed :=
    match r_newsBriefing r with
    | Some b =>
        if ((JS.of_Z t - timeValue (pubDate b)) / 3600000 <? 24)%float
        then ((0 + duration b)%float, [SBriefing b])
        else (0%float, [])
    | None => (0%float, [])
    end in
  r_newsBriefing r = snd (fetchAll env (cfg_feeds config))
  /\ r_candidates r = fst (fetchAll env (cfg_feeds config))
  /\ (r_currentDuration r, r_selected r)
     = packLoop (r_targetDuration r) (r_scoredItems r) seed
  /\ map s_item (r_scoredItems r) ⊆ r_candidates r.
Proof.
  intros Hrun.
  destruct (run_inv env config w r w' Hrun)
    as (w1 & scored & w2 & seed & Hbuild & Hmap & Hseed & ->).
  cbn [r_newsBriefing r_selected r_candidates r_currentDuration
       r_targetDuration r_scoredItems] in *.
  apply clockFree_buildRules in Hbuild. cbn [ticks] in Hbuild.
  apply mapM_scoreItem_spec in Hmap as (Hitems & Hticks & _).
  rewrite Hbuild in Hticks.
  apply seedBriefing_spec in Hseed as [_ Hseed]. cbv zeta.
  split; [reflexivity |]. split; [reflexivity |]. split.
  - rewrite <- surjective_pairing. f_equal.
    destruct (snd (fetchAll env (cfg_feeds config))) as [b |].
    + destruct Hseed as [_ Hseed]. cbv zeta in Hseed.
      rewrite Hticks in Hseed.
      destruct (PrimFloat.ltb _ 24); exact Hseed.
    + now destruct Hseed.
  - intros c Hc. apply list_elem_of_In in Hc. apply list_elem_of_In.
    apply in_map_iff in Hc as (s & <- & Hs).
    apply sortByScore_In, filter_In in Hs as [Hs _].
    rewrite <- Hitems. now apply in_map.
Qed.










(** In that run the offers are the three briefings, in feed order, and the
    one of the second feed, the latest, leads the selection. *)
Example offers_of_brief_list :
  omap (feedBriefing (Demo.frozen Demo.t0)) Demo.briefList
  = [Demo.briefing; Demo.briefing3; Demo.briefing2]
  /\ map (fun s => title (sel_item s))
         (r_selected (fst (Demo.ranOn (Demo.frozen Demo.t0)
                                      (Demo.config 70 Demo.briefList))))
     = ["Late News"; "A"; "B"]%string.
Proof. vm_compute. split; reflexivity. Qed.

(** In the demonstration feed the first item is 45 minutes long, so the
    second one, of 8 minutes, is the offer. *)
Example offer_of_brief_feed :
  feedBriefing (Demo.frozen Demo.t0) Demo.briefFeed = Some Demo.briefing.
Proof. vm_compute. reflexivity. Qed.

Lemma first_five_and_briefing_feeds_apart_witness :
  fetchAll (Demo.frozen Demo.t0) Demo.feedList
  = fetchAll (firstFive (Demo.frozen Demo.t0)) Demo.feedList
  /\ map title (fst (fetchAll (Demo.frozen Demo.t0) Demo.feedList))
     = ["A"; "B"; "C"; "D"; "A"]%string.
Proof.
  split.
  - apply (first_five_and_briefing_feeds_apart (Demo.frozen Demo.t0)
             Demo.feedList).
  - vm_compute. reflexivity.
Defined.

(** Two offers with the same date: the first found is kept, in either order
    of the feeds; a strictly later offer replaces the holder. *)
Example ties_keep_first_found :
  snd (fetchAll (Demo.frozen Demo.t0) [Demo.briefFeed; Demo.briefFeed2])
  = Some Demo.briefing
  /\ snd (fetchAll (Demo.frozen Demo.t0) [Demo.briefFeed2; Demo.briefFeed])
     = Some Demo.briefing2
  /\ snd (fetchAll (Demo.frozen Demo.t0)
            [Demo.briefFeed; Demo.briefFeed3; Demo.briefFeed2])
     = Some Demo.briefing3.
Proof. vm_compute. repeat split; reflexivity. Qed.

(** ** The clock *)

Lemma bind_ext {A B} (m1 m2 : M A) (k1 k2 : A -> M B) (w : World) :
  (forall w, m1 w = m2 w) ->
  (forall a w, k1 a w = k2 a w) ->
  bind m1 k1 w = bind m2 k2 w.
Proof.
  intros Hm Hk. unfold bind. rewrite Hm.
  destruct (m2 w) as [[a w1]|]; [apply Hk | reflexivity].
Qed.

Lemma mapM_ext {A B} (f g : A -> M B) (l : list A) (w : World) :
  (forall a w, f a w = g a w) -> mapM f l w = mapM g l w.
Proof.
  intros H. revert w. induction l as [| a l IH]; intros w; cbn;
    [reflexivity |].
  apply bind_ext; [apply H |]. intros b w1.
  apply bind_ext; [apply IH | reflexivity].
Qed.

Section SameReadings.

Variables env1 env2 : Env.

Hypothesis same_clock : forall k, clock env1 k = clock env2 k.
Hypothesis same_net : forall u, parseURL env1 u = parseURL env2 u.

Lemma now_ext (w : World) : now env1 w = now env2 w.
Proof. unfold now. now rewrite same_clock. Qed.

Lemma fetchAll_ext (fcs : list FeedConfig) :
  fetchAll env1 fcs = fetchAll env2 fcs.
Proof.
  unfold fetchAll. generalize (@nil Item, @None Item).
  induction fcs as [| fc fcs IH]; intros st; cbn; [reflexivity |].
  rewrite IH. f_equal. unfold fetchStep. now rewrite same_net.
Qed.

Lemma scoreItem_ext rules th item (w : World) :
  scoreItem env1 rules th item w = scoreItem env2 rules th item w.
Proof.
  unfold scoreItem. apply bind_ext; [apply now_ext | reflexivity].
Qed.

Lemma seedBriefing_ext nb (w : World) :
  seedBriefing env1 nb w = seedBriefing env2 nb w.
Proof.
  unfold seedBriefing. destruct nb as [b |]; [| reflexivity].
  apply bind_ext; [apply now_ext | reflexivity].
Qed.

(** A run depends on the clock only through the values it reads. *)
Lemma run_ext (config : Config) (w : World) :
  localTZA env1 (clock env1 (ticks w)) = localTZA env2 (clock env2 (ticks w)) ->
  run env1 config w = run env2 config w.
Proof.
  intros Htz. unfold run.
  unfold bind at 1, now at 1. symmetry.
  unfold bind at 1, now at 1. symmetry.
  assert (getDay env1 (clock env1 (ticks w)) = getDay env2 (clock env2 (ticks w)))
    as -> by (unfold getDay; now rewrite Htz, same_clock).
  apply bind_ext; [apply now_ext |]. intros _ w1.
  apply bind_ext; [reflexivity |]. intros _ w2.
  rewrite fetchAll_ext.
  destruct (fetchAll env2 (cfg_feeds config)) as [cands nb].
  apply bind_ext; [intros w3; apply mapM_ext, scoreItem_ext |].
  intros scored w3.
  apply bind_ext; [apply seedBriefing_ext | reflexivity].
Qed.

End SameReadings.

(** The clock queries of a run: two for the day of the week, one for every
    candidate, one more when a briefing is held. *)
Lemma run_clock_queries (env : Env) (config : Config) (w : World)
  (r : Result) (w' : World) :
  run env config w = Some (r, w') ->
  ticks w' = (ticks w + 2 + length (r_candidates r)
              + briefingQueries (r_newsBriefing r))%nat.
Proof.
  intros Hrun.
  destruct (run_inv env config w r w' Hrun)
    as (w1 & scored & w2 & seed & Hbuild & Hmap & Hseed & ->).
  cbn [r_candidates r_newsBriefing].
  apply clockFree_buildRules in Hbuild. cbn [ticks] in Hbuild.
  apply mapM_scoreItem_spec in Hmap as (_ & Hticks & _).
  apply seedBriefing_spec in Hseed as [_ Hseed].
  destruct (snd (fetchAll env (cfg_feeds config))) as [b |]; cbn.
  - destruct Hseed as [-> _]. rewrite Hticks, Hbuild. clear. lia.
  - destruct Hseed as [_ ->]. rewrite Hticks, Hbuild. clear. lia.
Qed.

(** C7, as the code has it: under a frozen clock, one that answers every
    query with the same [t], the run is a function of its inputs and [t]:
    two runs on the same configuration, store and feeds produce the same
    result, selection included.  The run does not capture the time once: it
    queries the clock for the age of every candidate and again for the
    freshness of the briefing. *)
Theorem frozen_clock_runs_agree (env1 env2 : Env) (config : Config)
  (w : World) (t : Z) :
  (forall k, clock env1 k = t) ->
  (forall k, clock env2 k = t) ->
  localTZA env1 t = localTZA env2 t ->
  (forall u, parseURL env1 u = parseURL env2 u) ->
  run env1 config w = run env2 config w
  /\ forall r w',
       run env1 config w = Some (r, w') ->
       ticks w' = (ticks w + 2 + length (r_candidates r)
                   + briefingQueries (r_newsBriefing r))%nat.
Proof.
  intros H1 H2 Htz Hnet. split.
  - apply run_ext.
    + intros k. now rewrite H1, H2.
    + exact Hnet.
    + now rewrite H1, H2.
  - intros r w'. apply run_clock_queries.
Qed.

Lemma frozen_clock_runs_agree_witness :
  run (Demo.frozen Demo.t0) (Demo.config 70 Demo.feedList) Demo.world
  = run Demo.stopped (Demo.config 70 Demo.feedList) Demo.world
  /\ forall r w',
       run (Demo.frozen Demo.t0) (Demo.config 70 Demo.feedList) Demo.world
       = Some (r, w') ->
       ticks w' = (ticks Demo.world + 2 + length (r_candidates r)
                   + briefingQueries (r_newsBriefing r))%nat.
Proof.
  apply (frozen_clock_runs_agree (Demo.frozen Demo.t0) Demo.stopped
           (Demo.config 70 Demo.feedList) Demo.world Demo.t0).
  - intros k. reflexivity.
  - intros k. cbn. lia.
  - reflexivity.
  - intros u. reflexivity.
Defined.

(** Two news items published at the same instant differ in nothing the
    scorer looks at but their position: at one age they score the same. *)
Lemma same_age_same_score (bk bl : list string) (th : bool) (a : float) :
  (bk = ["rust"; "coq"; "ocaml"; "lean"; "agda"]%string
   \/ bk = ["rust"; "coq"; "ocaml"; "lean"; "agda"; "love"]%string) ->
  (bl = ["crypto"]%string \/ bl = ["crypto"; "war"]%string) ->
  exists z,
    scoreOf bk ["Guest1"]%string bl th a Demo.itemX1 = z
    /\ scoreOf bk ["Guest1"]%string bl th a Demo.itemX2 = z
    /\ (z = 40 \/ z = 20 \/ z = -40).
Proof.
  intros [-> | ->] [-> | ->]; unfold scoreOf;
    destruct (PrimFloat.ltb a 2) eqn:H2; destruct (PrimFloat.ltb a 5) eqn:H5;
    destruct th; eexists; vm_compute; rewrite ?H2, ?H5;
    (split; [reflexivity | split; [reflexivity | auto]]).
Qed.

(** C7, as stated, fails: the time is not captured once.  With a clock that
    advances between queries, X1 is scored at an age of four days and X2,
    published at the same instant, at five and a half; X2 is discarded and
    the selection is X1 alone.  With the time captured once, whatever it is,
    the two score the same and the selection holds both or neither. *)
Lemma advancing_clock_matches_no_single_now :
  let c := Demo.config 70 [Demo.newsFeed] in
  exists r w',
    run Demo.advancing c Demo.world = Some (r, w')
    /\ r_selected r = [SScored Demo.scoredX1]
    /\ forall t r0 w0,
         run (Demo.frozen t) c Demo.world = Some (r0, w0) ->
         r_selected r0 <> r_selected r.
Proof.
  cbv zeta.
  exists (fst (Demo.ranOn Demo.advancing (Demo.config 70 [Demo.newsFeed]))),
         (snd (Demo.ranOn Demo.advancing (Demo.config 70 [Demo.newsFeed]))).
  split; [vm_compute; reflexivity |]. split; [vm_compute; reflexivity |].
  intros t r0 w0 Hrun.
  replace (r_selected (fst (Demo.ranOn Demo.advancing
                              (Demo.config 70 [Demo.newsFeed]))))
    with [SScored Demo.scoredX1] by (vm_compute; reflexivity).
  apply run_inv in Hrun. cbv zeta in Hrun.
  destruct Hrun as (w1 & scored & w2 & seed & Hb & Hm & Hs & ->).
  cbn [r_selected].
  set (th := getDay (Demo.frozen t) (clock (Demo.frozen t) (ticks Demo.world)) =? 4)
    in *.
  clearbody th.
  assert (fetchAll (Demo.frozen t) (cfg_feeds (Demo.config 70 [Demo.newsFeed]))
          = ([Demo.itemX1; Demo.itemX2], None)) as Ef
      by (vm_compute; reflexivity).
  rewrite Ef in Hm, Hs. cbn [fst snd] in Hm, Hs. clear Ef.
  injection Hs as <- <-.
  assert (exists r bk bl,
             rulesAt (heap w1) 5 r bk bl ["Guest1"]%string ["love"]%string
                     ["war"]%string
             /\ (bk = ["rust"; "coq"; "ocaml"; "lean"; "agda"]%string
                 \/ bk = ["rust"; "coq"; "ocaml"; "lean"; "agda"; "love"]%string)
             /\ (bl = ["crypto"]%string \/ bl = ["crypto"; "war"]%string))
    as (r & bk & bl & Hat & Hbk & Hbl).
  { destruct th; vm_compute in Hb; injection Hb as <-;
      eexists _, _, _; (split; [unfold rulesAt; cbn; repeat split; reflexivity |]);
      auto. }
  change (cfg_rules (Demo.config 70 [Demo.newsFeed])) with 5%nat in Hm.
  rewrite (mapM_scoreItem_value _ _ _ _ _ _ _ _ _ _ _ Hat) in Hm.
  injection Hm as <- _. cbn [scoreAll clock Demo.frozen].
  change (ageInDays t Demo.itemX2) with (ageInDays t Demo.itemX1).
  destruct (same_age_same_score bk bl th (ageInDays t Demo.itemX1) Hbk Hbl)
    as (z & -> & -> & Hz).
  destruct Hz as [-> | [-> | ->]]; vm_compute; discriminate.
Qed.

(** ** The duration normalizer *)

Section Parsing.

Import JS.

Lemma chars_app (a b : string) : chars (a ++ b) = chars a ++ chars b.
Proof.
  unfold chars. induction a as [| c a IH]; cbn; [reflexivity | now f_equal].
Qed.

Lemma field_char_facts (c : ascii) :
  field_char c = true ->
  is_ws c = false
  /\ is_char c "+" = false /\ is_char c "-" = false /\ is_char c "." = false
  /\ is_char c "e" = false /\ is_char c "E" = false
  /\ is_char c "x" = false /\ is_char c "X" = false
  /\ is_char c "o" = false /\ is_char c "O" = false
  /\ is_char c "b" = false /\ is_char c "B" = false
  /\ Ascii.eqb c "I" = false.
Proof.
  destruct c as [b0 b1 b2 b3 b4 b5 b6 b7].
  destruct b0, b1, b2, b3, b4, b5, b6, b7; vm_compute; intros H;
    try discriminate H; repeat split; reflexivity.
Qed.

Lemma digit_field_char (c : ascii) : is_digit c = true -> field_char c = true.
Proof. unfold field_char. now intros ->. Qed.

Lemma colon_not_digit : is_digit ":" = false.
Proof. reflexivity. Qed.

Lemma trim_start_id (l : list ascii) :
  forallb field_char l = true -> trim_start l = l.
Proof.
  destruct l as [| c l]; cbn; [reflexivity |].
  intros H. apply andb_true_iff in H as [H _].
  apply field_char_facts in H as [-> _]. reflexivity.
Qed.

Lemma trim_id (l : list ascii) :
  forallb field_char l = true -> trim l = l.
Proof.
  intros H. unfold trim. rewrite (trim_start_id l H).
  rewrite trim_start_id, rev_involutive; [reflexivity |].
  rewrite forallb_forall in *. intros c Hc. apply H. now apply in_rev.
Qed.

Lemma take_digits_all (l : list ascii) (acc n : Z) :
  forallb is_digit l = true ->
  take_digits 10 l acc n
  = (fst (fst (take_digits 10 l acc n)), n + Z.of_nat (length l), []).
Proof.
  revert acc n. induction l as [| c l IH]; intros acc n; cbn [forallb].
  - intros _. cbn. f_equal. f_equal. lia.
  - intros H. apply andb_true_iff in H as [Hc Hl].
    cbn [take_digits]. unfold is_digit in Hc.
    destruct (digit_in 10 c) as [d |]; [| discriminate].
    rewrite (IH _ _ Hl) at 1. cbn [fst length]. f_equal. f_equal. lia.
Qed.

Lemma take_digits_stop (l : list ascii) (c : ascii) (r : list ascii) (acc n : Z) :
  forallb is_digit l = true -> is_digit c = false ->
  take_digits 10 (l ++ c :: r) acc n
  = (fst (fst (take_digits 10 l acc n)), n + Z.of_nat (length l), c :: r).
Proof.
  revert acc n. induction l as [| x l IH]; intros acc n; cbn [forallb].
  - intros _ Hc. cbn. unfold is_digit in Hc.
    destruct (digit_in 10 c); [discriminate |]. f_equal. f_equal. lia.
  - intros H Hc. apply andb_true_iff in H as [Hx Hl].
    cbn [take_digits app]. unfold is_digit in Hx.
    destruct (digit_in 10 x) as [d |]; [| discriminate].
    rewrite (IH _ _ Hl Hc). cbn [fst length]. f_equal. f_equal. lia.
Qed.

Lemma parse_non_decimal_fields (l : list ascii) :
  forallb field_char l = true -> parse_non_decimal l = None.
Proof.
  destruct l as [| z [| p ds]]; cbn [forallb]; try reflexivity.
  intros H. apply andb_true_iff in H as [_ H].
  apply andb_true_iff in H as [H _].
  apply field_char_facts in H
    as (_ & _ & _ & _ & _ & _ & Hx & HX & Ho & HO & Hb & HB & _).
  unfold parse_non_decimal. rewrite Hx, HX, Ho, HO, Hb, HB. cbn.
  now destruct (Ascii.eqb z _).
Qed.

(** Number(d) for a string of decimal digits. *)
Lemma ToNumber_digits (d : string) :
  all_digits d = true -> ToNumber d = of_Z (decimal d).
Proof.
  unfold all_digits, decimal. intros H.
  assert (forallb field_char (chars d) = true) as Hf.
  { rewrite forallb_forall in *. intros c Hc. now apply digit_field_char, H. }
  unfold ToNumber. rewrite (trim_id _ Hf).
  destruct (chars d) as [| c l] eqn:E; [reflexivity |].
  rewrite (parse_non_decimal_fields _ Hf).
  pose proof Hf as Hc. cbn [forallb] in Hc. apply andb_true_iff in Hc as [Hc _].
  apply field_char_facts in Hc as (_ & Hp & Hm & _ & _ & _ & _ & _ & _ & _ & _ & _ & HI).
  rewrite Hm, Hp. unfold parse_unsigned_decimal.
  cbn [string_of_list_ascii String.eqb]. rewrite HI.
  rewrite (take_digits_all _ 0 0 H).
  set (v := fst (fst (take_digits 10 (c :: l) 0 0))).
  cbn [length]. 
  replace (0 <? 0 + Z.of_nat (S (length l)) + 0) with true
    by (symmetry; apply Z.ltb_lt; lia).
  cbn [parse_exponent numlit_to_float with_sign]. unfold dec_to_float.
  destruct (v =? 0) eqn:Ev.
  - apply Z.eqb_eq in Ev. now rewrite Ev.
  - cbn. now rewrite Z.mul_1_r.
Qed.

(** parseInt(d) for a non-empty string of decimal digits. *)
Lemma parseInt_digits (d : string) :
  all_digits d = true -> d <> ""%string -> parseInt d = of_Z (decimal d).
Proof.
  unfold all_digits, decimal. intros H Hne.
  assert (forallb field_char (chars d) = true) as Hf.
  { rewrite forallb_forall in *. intros c Hc. now apply digit_field_char, H. }
  unfold parseInt. rewrite (trim_start_id _ Hf).
  destruct (chars d) as [| c l] eqn:E.
  { destruct d; [congruence | discriminate E]. }
  pose proof Hf as Hc. cbn [forallb] in Hc. apply andb_true_iff in Hc as [Hc Hl].
  apply field_char_facts in Hc as (_ & Hp & Hm & _).
  rewrite Hm, Hp.
  assert ((match c :: l with
           | z :: x :: l' =>
               if is_char z "0" && (is_char x "x" || is_char x "X")
               then (16, l') else (10, c :: l)
           | _ => (10, c :: l)
           end) = (10, c :: l)) as ->.
  { destruct l as [| x l']; [reflexivity |].
    cbn [forallb] in Hl. apply andb_true_iff in Hl as [Hx _].
    apply field_char_facts in Hx
      as (_ & _ & _ & _ & _ & _ & Hx & HX & _).
    rewrite Hx, HX. now rewrite andb_false_r. }
  rewrite (take_digits_all _ 0 0 H). cbn [length].
  replace (0 <? 0 + Z.of_nat (S (length l))) with true
    by (symmetry; apply Z.ltb_lt; lia).
  reflexivity.
Qed.

(** Number(s) is NaN when [s] is digits, then a colon, then digits and
    colons. *)
Lemma ToNumber_colon (h rest : string) :
  all_digits h = true -> forallb field_char (chars rest) = true ->
  ToNumber (h ++ ":" ++ rest) = PrimFloat.nan.
Proof.
  unfold all_digits. intros Hh Hr.
  assert (forallb field_char (chars (h ++ ":" ++ rest)) = true) as Hf.
  { rewrite !chars_app, !forallb_app. rewrite Hr. cbn.
    rewrite andb_true_r.
    rewrite forallb_forall in *. intros c Hc. now apply digit_field_char, Hh. }
  unfold ToNumber. rewrite (trim_id _ Hf).
  rewrite !chars_app in *. change (chars ":") with [":"%char] in *.
  cbn [app] in *.
  destruct (chars h ++ ":"%char :: chars rest) as [| c l] eqn:E.
  { destruct (chars h); discriminate E. }
  rewrite (parse_non_decimal_fields _ Hf).
  pose proof Hf as Hc. cbn [forallb] in Hc. apply andb_true_iff in Hc as [Hc _].
  apply field_char_facts in Hc
    as (_ & Hp & Hm & _ & _ & _ & _ & _ & _ & _ & _ & _ & HI).
  rewrite Hm, Hp. unfold parse_unsigned_decimal.
  cbn [string_of_list_ascii String.eqb]. rewrite HI.
  rewrite <- E.
  rewrite (take_digits_stop _ _ _ 0 0 Hh colon_not_digit).
  change (is_char ":" ".") with false. cbv iota beta.
  destruct (0 <? 0 + Z.of_nat (length (chars h)) + 0); reflexivity.
Qed.

Lemma split_no_colon (a : string) :
  all_digits a = true -> split ":" a = [a].
Proof.
  unfold all_digits. induction a as [| c a IH]; cbn; [reflexivity |].
  intros H. apply andb_true_iff in H as [Hc Ha].
  destruct (Ascii.eqb c ":") eqn:E.
  - apply Ascii.eqb_eq in E. subst c. discriminate Hc.
  - now rewrite (IH Ha).
Qed.

Lemma split_colon (a b : string) :
  all_digits a = true -> split ":" (a ++ ":" ++ b) = a :: split ":" b.
Proof.
  unfold all_digits. change (":" ++ b)%string with (String ":" b).
  induction a as [| c a IH]; cbn; [reflexivity |].
  intros H. apply andb_true_iff in H as [Hc Ha].
  destruct (Ascii.eqb c ":") eqn:E.
  - apply Ascii.eqb_eq in E. subst c. discriminate Hc.
  - now rewrite (IH Ha).
Qed.

End Parsing.

Lemma isNaN_digits (d : string) :
  JS.all_digits d = true -> JS.isNaN d = false.
Proof.
  intros H. unfold JS.isNaN. rewrite (ToNumber_digits d H).
  apply FloatRound.of_Z_is_nan.
Qed.

Lemma isNaN_colon (h rest : string) :
  JS.all_digits h = true -> forallb JS.field_char (JS.chars rest) = true ->
  JS.isNaN (h ++ ":" ++ rest) = true.
Proof.
  intros Hh Hr. unfold JS.isNaN. now rewrite (ToNumber_colon h rest Hh Hr).
Qed.

Lemma digits_fields (d : string) :
  JS.all_digits d = true -> forallb JS.field_char (JS.chars d) = true.
Proof.
  unfold JS.all_digits. rewrite !forallb_forall. intros H c Hc.
  now apply digit_field_char, H.
Qed.

Lemma parseDuration_nonnumeric (s : string) :
  s <> ""%string -> JS.isNaN s = true ->
  parseDuration (JS.Str s) =
  match map JS.ToNumber (JS.split ":" s) with
  | [p0; p1; p2] => (p0 * 60 + p1 + p2 / 60)%float
  | [p0; p1] => (p0 + p1 / 60)%float
  | _ => 0%float
  end.
Proof.
  intros Hne Hnan. unfold parseDuration. cbn [JS.truthy].
  destruct (String.eqb s "") eqn:E; [apply String.eqb_eq in E; congruence |].
  cbn [negb]. now rewrite Hnan.
Qed.

(** The cases of the normalizer, as the code has them.  On an absent,
    numeric or string input the normalizer returns a Number and raises
    nothing.  A falsy input (absent,
    the empty string, 0, NaN) gives 0; any other number [x] gives [x / 60]; a
    non-empty numeric string gives [parseInt(s) / 60], which for a string of
    decimal digits is its value over 60.  A non-numeric string is split on
    ":": three parts give [Number(p0) * 60 + Number(p1) + Number(p2) / 60],
    two parts give [Number(p0) + Number(p1) / 60], so "H:MM:SS" and "MM:SS"
    with decimal fields give H*60 + MM + SS/60 and MM + SS/60; any other
    number of parts gives 0. *)
Theorem parseDuration_cases :
  parseDuration JS.Undefined = 0%float
  /\ parseDuration (JS.Str "") = 0%float
  /\ (forall x, PrimFloat.is_zero x || PrimFloat.is_nan x = true ->
        parseDuration (JS.Num x) = 0%float)
  /\ (forall x, PrimFloat.is_zero x || PrimFloat.is_nan x = false ->
        parseDuration (JS.Num x) = (x / 60)%float)
  /\ (forall s, s <> ""%string -> JS.isNaN s = false ->
        parseDuration (JS.Str s) = (JS.parseInt s / 60)%float)
  /\ (forall d, JS.all_digits d = true -> d <> ""%string ->
        parseDuration (JS.Str d) = (JS.of_Z (JS.decimal d) / 60)%float)
  /\ (forall h m s,
        JS.all_digits h = true -> JS.all_digits m = true ->
        JS.all_digits s = true ->
        parseDuration (JS.Str (h ++ ":" ++ m ++ ":" ++ s))
        = (JS.of_Z (JS.decimal h) * 60 + JS.of_Z (JS.decimal m)
           + JS.of_Z (JS.decimal s) / 60)%float)
  /\ (forall m s,
        JS.all_digits m = true -> JS.all_digits s = true ->
        parseDuration (JS.Str (m ++ ":" ++ s))
        = (JS.of_Z (JS.decimal m) + JS.of_Z (JS.decimal s) / 60)%float)
  /\ (forall s p0 p1 p2,
        s <> ""%string -> JS.isNaN s = true -> JS.split ":" s = [p0; p1; p2] ->
        parseDuration (JS.Str s)
        = (JS.ToNumber p0 * 60 + JS.ToNumber p1 + JS.ToNumber p2 / 60)%float)
  /\ (forall s p0 p1,
        s <> ""%string -> JS.isNaN s = true -> JS.split ":" s = [p0; p1] ->
        parseDuration (JS.Str s)
        = (JS.ToNumber p0 + JS.ToNumber p1 / 60)%float)
  /\ (forall s,
        JS.isNaN s = true ->
        length (JS.split ":" s) <> 2%nat -> length (JS.split ":" s) <> 3%nat ->
        parseDuration (JS.Str s) = 0%float).
Proof.
  split; [reflexivity |]. split; [reflexivity |].
  split; [intros x Hx; unfold parseDuration; cbn [JS.truthy];
          now rewrite Hx |].
  split; [intros x Hx; unfold parseDuration; cbn [JS.truthy];
          now rewrite Hx |].
  assert (forall s, s <> ""%string -> JS.isNaN s = false ->
                    parseDuration (JS.Str s) = (JS.parseInt s / 60)%float)
    as Hnum.
  { intros s Hne Hnum. unfold parseDuration. cbn [JS.truthy].
    destruct (String.eqb s "") eqn:E; [apply String.eqb_eq in E; congruence |].
    cbn [negb]. now rewrite Hnum. }
  split; [exact Hnum |].
  split.
  { intros d Hd Hne. rewrite (Hnum d Hne (isNaN_digits d Hd)).
    now rewrite (parseInt_digits d Hd Hne). }
  split.
  { intros h m s Hh Hm Hs.
    rewrite parseDuration_nonnumeric.
    - rewrite (split_colon h _ Hh), (split_colon m _ Hm), (split_no_colon s Hs).
      cbn [map]. now rewrite !ToNumber_digits.
    - destruct h; discriminate.
    - apply isNaN_colon; [exact Hh |].
      rewrite !chars_app, !forallb_app.
      rewrite (digits_fields m Hm), (digits_fields s Hs). reflexivity. }
  split.
  { intros m s Hm Hs.
    rewrite parseDuration_nonnumeric.
    - rewrite (split_colon m _ Hm), (split_no_colon s Hs).
      cbn [map]. now rewrite !ToNumber_digits.
    - destruct m; discriminate.
    - apply isNaN_colon; [exact Hm | exact (digits_fields s Hs)]. }
  split.
  { intros s p0 p1 p2 Hne Hnan E.
    rewrite (parseDuration_nonnumeric s Hne Hnan), E. reflexivity. }
  split.
  { intros s p0 p1 Hne Hnan E.
    rewrite (parseDuration_nonnumeric s Hne Hnan), E. reflexivity. }
  intros s Hnan H2 H3.
  destruct (String.eqb s "") eqn:E.
  { apply String.eqb_eq in E. subst s. reflexivity. }
  rewrite parseDuration_nonnumeric;
    [| intros ->; discriminate | exact Hnan].
  destruct (JS.split ":" s) as [| p0 [| p1 [| p2 [| p3 l]]]]; cbn in *;
    congruence.
Qed.

Lemma parseDuration_cases_witness :
  parseDuration (JS.Str ("1" ++ ":" ++ "02" ++ ":" ++ "03"))
  = (JS.of_Z (JS.decimal "1") * 60 + JS.of_Z (JS.decimal "02")
     + JS.of_Z (JS.decimal "03") / 60)%float
  /\ parseDuration (JS.Str "abc") = 0%float.
Proof.
  destruct parseDuration_cases
    as (_ & _ & _ & _ & _ & _ & Hhms & _ & _ & _ & Hother).
  split.
  - apply (Hhms "1" "02" "03")%string; reflexivity.
  - apply (Hother "abc"%string); [reflexivity | vm_compute; lia ..].
Defined.

(** The normalizer on the shapes of the specification. *)
Example parseDuration_examples :
  parseDuration (JS.Num 90) = 1.5%float
  /\ parseDuration (JS.Str "90") = 1.5%float
  /\ parseDuration (JS.Str "1:02:30") = 62.5%float
  /\ parseDuration (JS.Str "12:30") = 12.5%float
  /\ parseDuration (JS.Str "1:2:3:4") = 0%float.
Proof. vm_compute. repeat split; reflexivity. Qed.

(** C6 fails on the code.  A string with two or three colon-separated parts
    that are not numbers is none of the recognised shapes, yet the result is
    NaN, not 0: the fall-through to 0 is reached only by the number of parts,
    as for "abc" and "a:b:c:d".  And the test [!isNaN(duration)] does not
    secure [parseInt]: a string of white space and ".5" both convert to a
    number, [parseInt] finds no digit at their start, and the result is NaN
    again. *)
Theorem parseDuration_other_shape_is_nan :
  PrimFloat.is_nan (parseDuration (JS.Str "a:b")) = true
  /\ (parseDuration (JS.Str "a:b") =? 0)%float = false
  /\ PrimFloat.is_nan (parseDuration (JS.Str " ")) = true
  /\ PrimFloat.is_nan (parseDuration (JS.Str "1:30 min")) = true
  /\ PrimFloat.is_nan (parseDuration (JS.Str "a:b:c")) = true
  /\ JS.isNaN " " = false
  /\ JS.isNaN ".5" = false
  /\ PrimFloat.is_nan (parseDuration (JS.Str ".5")) = true
  /\ parseDuration (JS.Str "abc") = 0%float
  /\ parseDuration (JS.Str "a:b:c:d") = 0%float
  /\ parseDuration (JS.Str "1:2:3:4") = 0%float.
Proof. vm_compute. repeat split; reflexivity. Qed.

(** * Further properties *)

(** ** Escaping *)

Lemma str_app_assoc (a b c : string) :
  ((a ++ b) ++ c = a ++ (b ++ c))%string.
Proof. induction a as [| x a IH]; cbn; [reflexivity | now rewrite IH]. Qed.

Lemma str_length_app (a b : string) :
  String.length (a ++ b) = (String.length a + String.length b)%nat.
Proof. induction a as [| x a IH]; cbn; [reflexivity | now rewrite IH]. Qed.

(** The [switch] has a [case] for every character the pattern matches, and
    each entity is an ampersand, then letters, then a semicolon. *)
Lemma entityOf_isMarkup (c : ascii) :
  isMarkup c = true ->
  (c = "<"%char /\ entityOf c = Some "&lt;"%string)
  \/ (c = ">"%char /\ entityOf c = Some "&gt;"%string)
  \/ (c = "&"%char /\ entityOf c = Some "&amp;"%string)
  \/ (c = "'"%char /\ entityOf c = Some "&apos;"%string)
  \/ (c = "034"%char /\ entityOf c = Some "&quot;"%string).
Proof.
  unfold isMarkup, entityOf.
  destruct (Ascii.eqb_spec c "<"); [subst; auto |].
  destruct (Ascii.eqb_spec c ">"); [subst; auto 6 |].
  destruct (Ascii.eqb_spec c "&"); [subst; auto 6 |].
  destruct (Ascii.eqb_spec c "'"); [subst; auto 7 |].
  destruct (Ascii.eqb_spec c "034"); [subst; auto 8 |].
  discriminate.
Qed.

Lemma replaceMarkup_app (a b : string) :
  replaceMarkup (a ++ b) = (replaceMarkup a ++ replaceMarkup b)%string.
Proof.
  induction a as [| c a IH]; cbn; [reflexivity |].
  rewrite IH. destruct (isMarkup c); [| reflexivity].
  now rewrite str_app_assoc.
Qed.






Lemma escapeXml_replace (s : string) : escapeXml (Some s) = replaceMarkup s.
Proof.
  cbn. destruct (String.eqb_spec s ""); [subst; reflexivity | reflexivity].
Qed.



(** X3.  Escaping works character by character: the escaped form of a
    concatenation is the concatenation of the escaped forms. *)
Theorem escapeXml_app (a b : string) :
  escapeXml (Some (a ++ b)%string)
  = (escapeXml (Some a) ++ escapeXml (Some b))%string.
Proof. rewrite !escapeXml_replace. apply replaceMarkup_app. Qed.

Lemma replaceMarkup_length (s : string) :
  (String.length s <= String.length (replaceMarkup s))%nat
  /\ (hasMarkup s = true ->
      (String.length s < String.length (replaceMarkup s))%nat).
Proof.
  induction s as [| c s [IH1 IH2]]; cbn; [split; [lia | discriminate] |].
  destruct (isMarkup c) eqn:Hc.
  - rewrite str_length_app.
    destruct (entityOf_isMarkup _ Hc)
      as [[_ ->] | [[_ ->] | [[_ ->] | [[_ ->] | [_ ->]]]]]; cbn; split; lia.
  - cbn. split; [lia |]. intros H. apply IH2 in H. lia.
Qed.

Lemma replaceMarkup_plain (s : string) :
  hasMarkup s = false -> replaceMarkup s = s.
Proof.
  induction s as [| c s IH]; cbn; [reflexivity |].
  destruct (isMarkup c); [discriminate |]. cbn. intros H. now rewrite IH.
Qed.

Lemma hasMarkup_app (a b : string) :
  hasMarkup (a ++ b) = hasMarkup a || hasMarkup b.
Proof.
  induction a as [| x a IH]; cbn; [reflexivity |].
  now rewrite IH, orb_assoc.
Qed.

Lemma hasMarkup_replaceMarkup (s : string) :
  hasMarkup (replaceMarkup s) = hasMarkup s.
Proof.
  induction s as [| c s IH]; cbn; [reflexivity |].
  destruct (isMarkup c) eqn:Hc.
  - rewrite hasMarkup_app, IH.
    destruct (entityOf_isMarkup _ Hc)
      as [[_ ->] | [[_ ->] | [[_ ->] | [[_ ->] | [_ ->]]]]]; reflexivity.
  - cbn. now rewrite Hc, IH.
Qed.

(** X4.  Escaping leaves a text as it is exactly when the text has none of
    the five characters; and escaping twice differs from escaping once as soon
    as the text has one of them (the ampersand of an entity is escaped
    again). *)
Theorem escapeXml_fixed_iff_plain (s : string) :
  (escapeXml (Some s) = s <-> hasMarkup s = false)
  /\ (escapeXml (Some (escapeXml (Some s))) = escapeXml (Some s)
      <-> hasMarkup s = false).
Proof.
  assert (forall t, replaceMarkup t = t <-> hasMarkup t = false) as Hfix.
  { intros t. split; [| apply replaceMarkup_plain].
    intros E. destruct (hasMarkup t) eqn:H; [| reflexivity].
    apply replaceMarkup_length in H. rewrite E in H. lia. }
  rewrite !escapeXml_replace. split; [apply Hfix |].
  rewrite Hfix. now rewrite hasMarkup_replaceMarkup.
Qed.

(** ** The scorer *)

Lemma keywordPoints_count (text : string) (kws : list string) (p sc : Z) :
  keywordPoints text kws p sc = sc + p * matchCount text kws.
Proof.
  unfold keywordPoints, matchCount. revert sc.
  induction kws as [| kw kws IH]; intros sc; cbn [fold_left List.filter].
  - cbn. lia.
  - rewrite IH. destruct (JS.includes text (JS.toLowerCase kw)); cbn [length];
      lia.
Qed.

(** A score is the sum of its six parts. *)
Lemma scoreOf_parts (bk bg bl : list string) (th : bool) (age : float)
  (item : Item) :
  scoreOf bk bg bl th age item
  = 15 * matchCount (itemText item) bk
    + 50 * matchCount (itemText item) bg
    - 100 * matchCount (itemText item) bl
    + recencyPoints (tags item) age
    + lengthPoints (duration item)
    + dateNightPoints th (tags item).
Proof.
  unfold scoreOf, recencyPoints, lengthPoints, dateNightPoints.
  fold (itemText item). rewrite !keywordPoints_count.
  destruct (existsb _ (tags item)), (PrimFloat.ltb age 2),
    (PrimFloat.ltb age 5), (PrimFloat.ltb age 7),
    (PrimFloat.leb 15 (duration item)), (PrimFloat.leb (duration item) 60),
    (PrimFloat.ltb 90 (duration item)), (PrimFloat.ltb (duration item) 5),
    th, (includes_tag (tags item) "date_night"),
    (includes_tag (tags item) "comedy"), (includes_tag (tags item) "tech");
    cbn [andb]; lia.
Qed.

Lemma matchCount_perm (text : string) (l l' : list string) :
  Permutation l l' -> matchCount text l = matchCount text l'.
Proof.
  unfold matchCount. intros H. f_equal.
  induction H; cbn [List.filter].
  - reflexivity.
  - destruct (JS.includes text (JS.toLowerCase x)); cbn [length]; congruence.
  - destruct (JS.includes text (JS.toLowerCase x)),
      (JS.includes text (JS.toLowerCase y)); reflexivity.
  - congruence.
Qed.

Lemma matchCount_bounds (text : string) (l : list string) :
  0 <= matchCount text l <= Z.of_nat (length l).
Proof.
  unfold matchCount. split; [lia |].
  apply Nat2Z.inj_le. induction l as [| x l IH]; cbn; [lia |].
  destruct (JS.includes text (JS.toLowerCase x)); cbn; lia.
Qed.

(** X5.  The score does not depend on the order of the entries of the three
    keyword lists. *)
Theorem scoreOf_perm (bk bk' bg bg' bl bl' : list string) (th : bool)
  (age : float) (item : Item) :
  Permutation bk bk' -> Permutation bg bg' -> Permutation bl bl' ->
  scoreOf bk bg bl th age item = scoreOf bk' bg' bl' th age item.
Proof.
  intros H1 H2 H3. rewrite !scoreOf_parts.
  now rewrite (matchCount_perm _ _ _ H1), (matchCount_perm _ _ _ H2),
    (matchCount_perm _ _ _ H3).
Qed.

Lemma scoreOf_perm_witness :
  scoreOf ["rust"; "coq"]%string ["Guest1"]%string ["crypto"; "war"]%string
          false 1%float Demo.itemA
  = scoreOf ["coq"; "rust"]%string ["Guest1"]%string ["war"; "crypto"]%string
            false 1%float Demo.itemA.
Proof.
  apply (scoreOf_perm ["rust"; "coq"]%string ["coq"; "rust"]%string
           ["Guest1"]%string ["Guest1"]%string
           ["crypto"; "war"]%string ["war"; "crypto"]%string).
  - apply perm_swap.
  - apply Permutation_refl.
  - apply perm_swap.
Defined.

(** ** The order on binary64 values is transitive *)

Module FloatTrans.

Ltac lex_cases :=
  repeat match goal with
    | H : context [Pos.compare_cont Eq ?a ?b] |- _ =>
        change (Pos.compare_cont Eq a b) with (Pos.compare a b) in H
    | |- context [Pos.compare_cont Eq ?a ?b] =>
        change (Pos.compare_cont Eq a b) with (Pos.compare a b)
    end;
  repeat match goal with
    | H : context [Z.compare ?a ?b] |- _ => destruct (Z.compare_spec a b)
    | |- context [Z.compare ?a ?b] => destruct (Z.compare_spec a b)
    | H : context [Pos.compare ?a ?b] |- _ => destruct (Pos.compare_spec a b)
    | |- context [Pos.compare ?a ?b] => destruct (Pos.compare_spec a b)
    end;
  cbn in *; try discriminate; try reflexivity; try lia.

Lemma SFcompare_lt_trans (a b c : spec_float) :
  SFcompare a b = Some Lt -> SFcompare b c = Some Lt ->
  SFcompare a c = Some Lt.
Proof.
  destruct a as [sa | sa | | sa ma ea], b as [sb | sb | | sb mb eb],
    c as [sc | sc | | sc mc ec];
    cbn; try discriminate; try reflexivity;
    repeat match goal with s : bool |- _ => destruct s end;
    cbn; try discriminate; try reflexivity;
    intros H1 H2; injection H1 as H1; injection H2 as H2; f_equal;
    lex_cases.
Qed.

Lemma SFcompare_le_lt_trans (a b c : spec_float) :
  SFcompare a b = Some Eq -> SFcompare b c = Some Lt ->
  SFcompare a c = Some Lt.
Proof.
  destruct a as [sa | sa | | sa ma ea], b as [sb | sb | | sb mb eb],
    c as [sc | sc | | sc mc ec];
    cbn; try discriminate; try reflexivity;
    repeat match goal with s : bool |- _ => destruct s end;
    cbn; try discriminate; try reflexivity;
    intros H1 H2; injection H1 as H1; injection H2 as H2; f_equal;
    lex_cases.
Qed.

Lemma SFcompare_lt_le_trans (a b c : spec_float) :
  SFcompare a b = Some Lt -> SFcompare b c = Some Eq ->
  SFcompare a c = Some Lt.
Proof.
  destruct a as [sa | sa | | sa ma ea], b as [sb | sb | | sb mb eb],
    c as [sc | sc | | sc mc ec];
    cbn; try discriminate; try reflexivity;
    repeat match goal with s : bool |- _ => destruct s end;
    cbn; try discriminate; try reflexivity;
    intros H1 H2; injection H1 as H1; injection H2 as H2; f_equal;
    lex_cases.
Qed.

(** [x <= y] and [y < z] give [x < z]. *)
Lemma leb_ltb_trans (x y z : float) :
  (x <=? y)%float = true -> (y <? z)%float = true -> (x <? z)%float = true.
Proof.
  rewrite FloatAxioms.leb_spec, !FloatAxioms.ltb_spec. unfold SFleb, SFltb.
  destruct (SFcompare (Prim2SF x) (Prim2SF y)) as [[] |] eqn:E1;
    try discriminate;
    destruct (SFcompare (Prim2SF y) (Prim2SF z)) as [[] |] eqn:E2;
    try discriminate; intros _ _.
  - now rewrite (SFcompare_le_lt_trans _ _ _ E1 E2).
  - now rewrite (SFcompare_lt_trans _ _ _ E1 E2).
Qed.

(** [x < y] and [y <= z] give [x < z]. *)
Lemma ltb_leb_trans (x y z : float) :
  (x <? y)%float = true -> (y <=? z)%float = true -> (x <? z)%float = true.
Proof.
  rewrite FloatAxioms.leb_spec, !FloatAxioms.ltb_spec. unfold SFleb, SFltb.
  destruct (SFcompare (Prim2SF x) (Prim2SF y)) as [[] |] eqn:E1;
    try discriminate;
    destruct (SFcompare (Prim2SF y) (Prim2SF z)) as [[] |] eqn:E2;
    try discriminate; intros _ _.
  - now rewrite (SFcompare_lt_le_trans _ _ _ E1 E2).
  - now rewrite (SFcompare_lt_trans _ _ _ E1 E2).
Qed.

Lemma ltb_leb (x y : float) :
  (x <? y)%float = true -> (x <=? y)%float = true.
Proof.
  rewrite FloatAxioms.leb_spec, FloatAxioms.ltb_spec. unfold SFleb, SFltb.
  now destruct (SFcompare (Prim2SF x) (Prim2SF y)) as [[] |].
Qed.

Lemma ltb_trans (x y z : float) :
  (x <? y)%float = true -> (y <? z)%float = true -> (x <? z)%float = true.
Proof. intros H. apply leb_ltb_trans. now apply ltb_leb. Qed.

End FloatTrans.

(** The three tests on the duration exclude one another. *)
Lemma length_tests_exclusive (d : float) :
  ((15 <=? d)%float = true -> (d <? 5)%float = false)
  /\ ((d <=? 60)%float = true -> (90 <? d)%float = false)
  /\ ((90 <? d)%float = true -> (d <? 5)%float = false).
Proof.
  repeat split; intros H.
  - destruct (PrimFloat.ltb d 5) eqn:E; [| reflexivity].
    pose proof (FloatTrans.leb_ltb_trans _ _ _ H E) as F. discriminate F.
  - destruct (PrimFloat.ltb 90 d) eqn:E; [| reflexivity].
    pose proof (FloatTrans.ltb_leb_trans _ _ _ E H) as F. discriminate F.
  - destruct (PrimFloat.ltb d 5) eqn:E; [| reflexivity].
    pose proof (FloatTrans.ltb_trans _ _ _ H E) as F. discriminate F.
Qed.

(** ** NaN in arithmetic and comparisons *)

Module FloatNaN.

Lemma is_nan_Prim2SF (x : float) :
  PrimFloat.is_nan x = true <-> Prim2SF x = S754_nan.
Proof.
  split.
  - intros H. destruct (Prim2SF x) eqn:E; try reflexivity;
      rewrite FloatOrder.not_nan_is_nan in H by (rewrite E; discriminate);
      discriminate H.
  - intros E. unfold PrimFloat.is_nan. rewrite FloatAxioms.eqb_spec, E.
    reflexivity.
Qed.

Lemma sub_nan_r (x y : float) :
  PrimFloat.is_nan y = true -> PrimFloat.is_nan (x - y) = true.
Proof.
  rewrite !is_nan_Prim2SF, FloatAxioms.sub_spec. intros ->.
  unfold SF64sub. now destruct (Prim2SF x).
Qed.

Lemma add_nan_l (x y : float) :
  PrimFloat.is_nan x = true -> PrimFloat.is_nan (x + y) = true.
Proof.
  rewrite !is_nan_Prim2SF, FloatAxioms.add_spec. now intros ->.
Qed.

Lemma add_nan_r (x y : float) :
  PrimFloat.is_nan y = true -> PrimFloat.is_nan (x + y) = true.
Proof.
  rewrite !is_nan_Prim2SF, FloatAxioms.add_spec. intros ->.
  unfold SF64add. now destruct (Prim2SF x).
Qed.

Lemma div_nan_l (x y : float) :
  PrimFloat.is_nan x = true -> PrimFloat.is_nan (x / y) = true.
Proof.
  rewrite !is_nan_Prim2SF, FloatAxioms.div_spec. now intros ->.
Qed.

Lemma ltb_nan_r (x y : float) :
  PrimFloat.is_nan y = true -> (x <? y)%float = false.
Proof.
  rewrite is_nan_Prim2SF, FloatAxioms.ltb_spec. intros ->.
  unfold SFltb. now destruct (Prim2SF x).
Qed.

Lemma leb_nan_l (x y : float) :
  PrimFloat.is_nan x = true -> (x <=? y)%float = false.
Proof.
  rewrite is_nan_Prim2SF, FloatAxioms.leb_spec. now intros ->.
Qed.

Lemma leb_nan_r (x y : float) :
  PrimFloat.is_nan y = true -> (x <=? y)%float = false.
Proof.
  rewrite is_nan_Prim2SF, FloatAxioms.leb_spec. intros ->.
  unfold SFleb. now destruct (Prim2SF x).
Qed.

End FloatNaN.

(** ** More on the scorer *)

Lemma lengthPoints_chain (d : float) :
  lengthPoints d =
  if (15 <=? d)%float && (d <=? 60)%float then 10
  else if (90 <? d)%float then -30
  else if (d <? 5)%float then -10
  else 0.
Proof.
  unfold lengthPoints.
  destruct (length_tests_exclusive d) as (H1 & H2 & H3).
  destruct (PrimFloat.leb 15 d) eqn:E1; cbn [andb].
  - rewrite (H1 eq_refl).
    destruct (PrimFloat.leb d 60) eqn:E2.
    + now rewrite (H2 eq_refl).
    + destruct (PrimFloat.ltb 90 d); reflexivity.
  - destruct (PrimFloat.ltb 90 d) eqn:E3; [now rewrite (H3 eq_refl) |].
    destruct (PrimFloat.ltb d 5); reflexivity.
Qed.

(** X6.  The three duration tests of the scorer exclude one another, so a
    score gets at most one duration adjustment: +10 from 15 to 60 minutes,
    -30 above 90 minutes, -10 below 5 minutes, and nothing otherwise (which
    includes a duration that is not a number). *)
Theorem scoreOf_one_length_adjustment (bk bg bl : list string) (th : bool)
  (age : float) (item : Item) :
  let d := duration item in
  let base :=
    15 * matchCount (itemText item) bk
    + 50 * matchCount (itemText item) bg
    - 100 * matchCount (itemText item) bl
    + recencyPoints (tags item) age
    + dateNightPoints th (tags item) in
  scoreOf bk bg bl th age item =
  base + (if (15 <=? d)%float && (d <=? 60)%float then 10
          else if (90 <? d)%float then -30
          else if (d <? 5)%float then -10
          else 0).
Proof.
  cbv zeta. rewrite scoreOf_parts, lengthPoints_chain. lia.
Qed.

Lemma recencyPoints_bounds (ts : list string) (age : float) :
  -50 <= recencyPoints ts age <= 30.
Proof.
  unfold recencyPoints.
  destruct (existsb _ ts), (PrimFloat.ltb age 2), (PrimFloat.ltb age 5),
    (PrimFloat.ltb age 7); lia.
Qed.

Lemma lengthPoints_bounds (d : float) : -30 <= lengthPoints d <= 10.
Proof.
  rewrite lengthPoints_chain.
  destruct (_ && _), (PrimFloat.ltb 90 d), (PrimFloat.ltb d 5); lia.
Qed.

Lemma dateNightPoints_bounds (th : bool) (ts : list string) :
  (if th then -20 else 0) <= dateNightPoints th ts <= (if th then 70 else 0).
Proof.
  unfold dateNightPoints.
  destruct th, (includes_tag ts "date_night"), (includes_tag ts "comedy"),
    (includes_tag ts "tech"); lia.
Qed.

(** X7.  A score lies between -100 for each block keyword, -80 for age and
    length and -20 on a Thursday, and +15 for each boost keyword, +50 for each
    guest, +40 for age and length and +70 on a Thursday. *)
Theorem scoreOf_bounds (bk bg bl : list string) (th : bool) (age : float)
  (item : Item) :
  - 100 * Z.of_nat (length bl) - 80 - (if th then 20 else 0)
  <= scoreOf bk bg bl th age item
  <= 15 * Z.of_nat (length bk) + 50 * Z.of_nat (length bg) + 40
     + (if th then 70 else 0).
Proof.
  rewrite scoreOf_parts.
  pose proof (matchCount_bounds (itemText item) bk).
  pose proof (matchCount_bounds (itemText item) bg).
  pose proof (matchCount_bounds (itemText item) bl).
  pose proof (recencyPoints_bounds (tags item) age).
  pose proof (lengthPoints_bounds (duration item)).
  pose proof (dateNightPoints_bounds th (tags item)).
  destruct th; lia.
Qed.

Lemma ageInDays_invalid (t : Z) (item : Item) :
  pubDate item = None -> PrimFloat.is_nan (ageInDays t item) = true.
Proof.
  intros E. unfold ageInDays. rewrite E.
  apply FloatNaN.div_nan_l, FloatNaN.sub_nan_r. reflexivity.
Qed.

(** X8.  An item whose publication date is invalid has an age that is not a
    number, so every age test fails: it is scored as old news (-50) under a
    freshness tag and gets no age points otherwise. *)
Theorem invalid_date_scored_as_old (bk bg bl : list string) (th : bool)
  (t : Z) (item : Item) :
  pubDate item = None ->
  recencyPoints (tags item) (ageInDays t item)
  = (if existsb (includes_tag freshTags) (tags item) then -50 else 0)
  /\ scoreOf bk bg bl th (ageInDays t item) item
     = 15 * matchCount (itemText item) bk
       + 50 * matchCount (itemText item) bg
       - 100 * matchCount (itemText item) bl
       + (if existsb (includes_tag freshTags) (tags item) then -50 else 0)
       + lengthPoints (duration item)
       + dateNightPoints th (tags item).
Proof.
  intros E. pose proof (ageInDays_invalid t item E) as Hn.
  assert (recencyPoints (tags item) (ageInDays t item)
          = (if existsb (includes_tag freshTags) (tags item) then -50 else 0))
    as Hr.
  { unfold recencyPoints. now rewrite !(FloatOrder.ltb_nan_l _ _ Hn). }
  split; [exact Hr |]. now rewrite scoreOf_parts, Hr.
Qed.

Lemma invalid_date_scored_as_old_witness :
  pubDate Undated.undatedBriefing = None
  /\ recencyPoints (tags Undated.undatedBriefing)
       (ageInDays Demo.t0 Undated.undatedBriefing) = -50
  /\ scoreOf [] [] [] false (ageInDays Demo.t0 Undated.undatedBriefing)
       Undated.undatedBriefing = -50.
Proof.
  split; [reflexivity |].
  apply (invalid_date_scored_as_old [] [] [] false Demo.t0 Undated.undatedBriefing).
  reflexivity.
Defined.

(** ** Keyword matching *)

Lemma lower_char_idem (c : ascii) :
  JS.lower_char (JS.lower_char c) = JS.lower_char c.
Proof.
  destruct c as [b0 b1 b2 b3 b4 b5 b6 b7].
  destruct b0, b1, b2, b3, b4, b5, b6, b7; vm_compute; reflexivity.
Qed.

Lemma toLowerCase_idem (s : string) :
  JS.toLowerCase (JS.toLowerCase s) = JS.toLowerCase s.
Proof.
  induction s as [| c s IH]; cbn; [reflexivity |].
  now rewrite lower_char_idem, IH.
Qed.

Lemma toLowerCase_app (a b : string) :
  JS.toLowerCase (a ++ b) = (JS.toLowerCase a ++ JS.toLowerCase b)%string.
Proof. induction a as [| c a IH]; cbn; [reflexivity | now rewrite IH]. Qed.

Lemma matchCount_lower (text : string) (l : list string) :
  matchCount text (map JS.toLowerCase l) = matchCount text l.
Proof.
  unfold matchCount. f_equal.
  induction l as [| kw l IH]; cbn [map List.filter]; [reflexivity |].
  rewrite toLowerCase_idem.
  destruct (JS.includes text (JS.toLowerCase kw)); cbn [length]; congruence.
Qed.

(** X9.  Keyword matching ignores case on both sides: lower-casing the
    keywords, or changing the case of letters in the title and the snippet,
    leaves the score as it is. *)
Theorem scoreOf_ignores_case (bk bg bl : list string) (th : bool)
  (age : float) (item item' : Item) :
  JS.toLowerCase (title item') = JS.toLowerCase (title item) ->
  JS.toLowerCase (contentSnippet item') = JS.toLowerCase (contentSnippet item) ->
  tags item' = tags item ->
  duration item' = duration item ->
  scoreOf (map JS.toLowerCase bk) (map JS.toLowerCase bg)
          (map JS.toLowerCase bl) th age item'
  = scoreOf bk bg bl th age item.
Proof.
  intros Ht Hc Htags Hd. rewrite !scoreOf_parts, !matchCount_lower.
  assert (itemText item' = itemText item) as ->.
  { unfold itemText. rewrite !toLowerCase_app. now rewrite Ht, Hc. }
  now rewrite Htags, Hd.
Qed.

Lemma prefix_iff (sub s : string) :
  String.prefix sub s = true <-> exists post, s = (sub ++ post)%string.
Proof.
  revert s. induction sub as [| c sub IH]; intros s.
  - split; [cbn; eauto | intros _; destruct s; reflexivity].
  - destruct s as [| d s]; cbn.
    { split; [discriminate | intros [p E]; discriminate E]. }
    destruct (ascii_dec c d) as [-> | N].
    + rewrite IH. split; intros [p E]; exists p;
        [now rewrite E | now injection E].
    + split; [discriminate | intros [p E]; injection E as E _; congruence].
Qed.

(** [includes] is the substring test. *)
Lemma includes_iff (s sub : string) :
  JS.includes s sub = true <->
  exists pre post, s = (pre ++ sub ++ post)%string.
Proof.
  induction s as [| c s IH]; cbn [JS.includes].
  - rewrite orb_false_r, prefix_iff. split.
    + intros [p E]. exists ""%string, p. exact E.
    + intros ([| x pre] & post & E); [eauto | discriminate E].
  - rewrite orb_true_iff, prefix_iff, IH. split.
    + intros [[p E] | (pre & post & E)].
      * exists ""%string, p. exact E.
      * exists (String c pre), post. cbn. now rewrite E.
    + intros ([| x pre] & post & E).
      * left. eauto.
      * right. cbn in E. injection E as _ E. eauto.
Qed.

(** X10.  One keyword changes the score by its points or not at all, and it
    does so exactly when its lower-case form occurs somewhere in the
    lower-cased title and snippet, inside a longer word included. *)
Theorem keyword_counts_iff_substring (item : Item) (kw : string) (p sc : Z) :
  p <> 0 ->
  (keywordPoints (itemText item) [kw] p sc = sc + p <->
   exists pre post,
     itemText item = (pre ++ JS.toLowerCase kw ++ post)%string)
  /\ (keywordPoints (itemText item) [kw] p sc = sc
      \/ keywordPoints (itemText item) [kw] p sc = sc + p).
Proof.
  intros Hp. rewrite <- includes_iff. cbn.
  destruct (JS.includes (itemText item) (JS.toLowerCase kw)); split;
    try tauto; split; try discriminate; try reflexivity; intros; lia.
Qed.

Lemma includes_empty (s : string) : JS.includes s "" = true.
Proof. apply includes_iff. exists ""%string, s. reflexivity. Qed.

(** X11.  An empty keyword matches every item: added to the boost list it
    gives every score +15, to the guest list +50, to the block list -100. *)
Theorem empty_keyword_matches_everything (bk bg bl : list string) (th : bool)
  (age : float) (item : Item) :
  scoreOf (""%string :: bk) bg bl th age item
  = scoreOf bk bg bl th age item + 15
  /\ scoreOf bk (""%string :: bg) bl th age item
     = scoreOf bk bg bl th age item + 50
  /\ scoreOf bk bg (""%string :: bl) th age item
     = scoreOf bk bg bl th age item - 100.
Proof.
  rewrite !scoreOf_parts.
  assert (forall l, matchCount (itemText item) (""%string :: l)
                    = 1 + matchCount (itemText item) l) as H.
  { intros l. unfold matchCount. cbn [List.filter JS.toLowerCase].
    rewrite includes_empty. cbn [length]. lia. }
  rewrite !H. lia.
Qed.

Lemma scoreOf_ignores_case_witness :
  scoreOf (map JS.toLowerCase ["Rust"; "COQ"]%string)
          (map JS.toLowerCase ["Guest1"]%string)
          (map JS.toLowerCase ["Crypto"]%string) false 1%float
          (mkItem Demo.generalFeed
             (Demo.raw "a" Demo.t0 "40:00" "RUST Coq OCaml"))
  = scoreOf ["Rust"; "COQ"]%string ["Guest1"]%string ["Crypto"]%string
            false 1%float
            (mkItem Demo.generalFeed
               (Demo.raw "A" Demo.t0 "40:00" "rust coq ocaml")).
Proof.
  apply (scoreOf_ignores_case ["Rust"; "COQ"]%string ["Guest1"]%string
           ["Crypto"]%string false 1%float
           (mkItem Demo.generalFeed
              (Demo.raw "A" Demo.t0 "40:00" "rust coq ocaml"))
           (mkItem Demo.generalFeed
              (Demo.raw "a" Demo.t0 "40:00" "RUST Coq OCaml")));
    reflexivity.
Defined.

Lemma keyword_counts_iff_substring_witness :
  (keywordPoints (itemText Demo.itemA) ["OCaml"%string] 15 0 = 0 + 15 <->
   exists pre post,
     itemText Demo.itemA = (pre ++ JS.toLowerCase "OCaml" ++ post)%string)
  /\ (keywordPoints (itemText Demo.itemA) ["OCaml"%string] 15 0 = 0
      \/ keywordPoints (itemText Demo.itemA) ["OCaml"%string] 15 0 = 0 + 15).
Proof.
  apply (keyword_counts_iff_substring Demo.itemA "OCaml" 15 0). lia.
Defined.

(** ** More on the packing loop *)

Section PackerMore.

Variable targetDuration : float.

Lemma titles_app (a b : list Sel) : titles (a ++ b) = titles a ++ titles b.
Proof. apply map_app. Qed.

Lemma duplicate_test (sel : list Sel) (item : Scored) :
  existsb (fun s => String.eqb (title (sel_item s)) (title (s_item item))) sel
  = true <-> In (title (s_item item)) (titles sel).
Proof.
  unfold titles. rewrite existsb_exists, in_map_iff. split.
  - intros (s & Hs & E). apply String.eqb_eq in E. eauto.
  - intros (s & E & Hs). exists s. split; [exact Hs |].
    now apply String.eqb_eq.
Qed.

Lemma packStep_state (st : PackState) (item : Scored) :
  exists st',
    (packStep targetDuration st item = Continue st'
     \/ packStep targetDuration st item = Break st')
    /\ (st' = st
        \/ (verdictOf targetDuration st item = Admit
            /\ st' = ((fst st + duration (s_item item))%float,
                      snd st ++ [SScored item]))).
Proof.
  unfold packStep. destruct (verdictOf targetDuration st item) eqn:V;
    try (exists st; split; [now left | now left]).
  eexists. split; [| right; split; reflexivity].
  destruct (PrimFloat.leb _ _); auto.
Qed.

(** An invariant of the states of the loop holds of its result. *)
Lemma packLoop_invariant (P : PackState -> Prop) (items : list Scored)
  (st : PackState) :
  (forall st item,
      P st -> verdictOf targetDuration st item = Admit ->
      P ((fst st + duration (s_item item))%float, snd st ++ [SScored item])) ->
  P st -> P (packLoop targetDuration items st).
Proof.
  intros Hstep. revert st. induction items as [| x items IH]; intros st Hst;
    cbn; [exact Hst |].
  destruct (packStep_state st x) as (st' & [E | E] & [-> | [V ->]]);
    rewrite E; auto.
Qed.

(** No two selected items share a title, when that holds of the seed. *)
Lemma packLoop_titles_NoDup (items : list Scored) (st : PackState) :
  NoDup (titles (snd st)) ->
  NoDup (titles (snd (packLoop targetDuration items st))).
Proof.
  apply (packLoop_invariant (fun st => NoDup (titles (snd st)))).
  clear. intros st item Hst V. cbn [snd].
  apply verdictOf_Admit in V as (Hdup & _).
  rewrite titles_app. apply NoDup_app. split; [exact Hst |]. split.
  - intros t Ht Ht'. cbn in Ht'. apply list_elem_of_In in Ht, Ht'.
    destruct Ht' as [<- | []].
    apply duplicate_test in Ht. congruence.
  - cbn. apply NoDup_singleton.
Qed.

Lemma totalOf_snoc (sel : list Sel) (s : Sel) :
  totalOf (sel ++ [s]) = (totalOf sel + duration (sel_item s))%float.
Proof. unfold totalOf. now rewrite fold_left_app. Qed.

(** The accumulator is the sum of the selected durations, when that holds of
    the seed. *)
Lemma packLoop_total (items : list Scored) (st : PackState) :
  fst st = totalOf (snd st) ->
  fst (packLoop targetDuration items st)
  = totalOf (snd (packLoop targetDuration items st)).
Proof.
  apply (packLoop_invariant (fun st => fst st = totalOf (snd st))).
  clear. intros st item Hst _. cbn [fst snd]. now rewrite totalOf_snoc, Hst.
Qed.

Lemma admitted_sublist (items : list Scored) (st : PackState) :
  admitted (packTrace targetDuration items st) `sublist_of` items.
Proof.
  revert st. induction items as [| x items IH]; intros st; cbn.
  - constructor.
  - unfold admitted. cbn [List.filter snd fst].
    destruct (packStep_state st x) as (st' & [E | E] & _); rewrite E;
      destruct (verdictOf targetDuration st x); cbn [map fst snd];
      try (apply sublist_skip); try (apply sublist_cons);
      try apply IH; apply sublist_nil_l.
Qed.

(** X12.  An item scored 60 or more that the loop looks at is never skipped
    for its length or for the budget: it is admitted, unless an item of the
    same title was selected before; either way its title is in the
    selection. *)
Theorem high_score_title_is_selected (items : list Scored) (st : PackState)
  cur item v :
  60 <= score item ->
  In (cur, item, v) (packTrace targetDuration items st) ->
  (v = SkipDuplicate \/ v = Admit)
  /\ In (title (s_item item))
        (titles (snd (packLoop targetDuration items st))).
Proof.
  intros Hs. revert st. induction items as [| x items IH]; intros st; cbn;
    [tauto |].
  assert (forall st1 l, In (title (s_item item)) (titles (snd st1)) ->
            In (title (s_item item))
               (titles (snd (packLoop targetDuration l st1)))) as Hgrow.
  { intros st1 l H. rewrite packLoop_selected, titles_app.
    apply in_or_app. now left. }
  intros [E | H].
  - injection E as <- <- <-.
    unfold packStep. unfold verdictOf at 1 2 3. destruct st as [c sel].
    cbn [fst snd].
    destruct (existsb _ sel) eqn:Hdup.
    + split; [now left |]. apply Hgrow. now apply duplicate_test.
    + replace (score x <? 50) with false by (symmetry; apply Z.ltb_ge; lia).
      replace (score x <? 60) with false by (symmetry; apply Z.ltb_ge; lia).
      rewrite !andb_false_r. split; [now right |].
      assert (In (title (s_item x))
                 (titles (snd ((c + duration (s_item x))%float,
                               sel ++ [SScored x])))) as Hin.
      { cbn [snd]. rewrite titles_app. apply in_or_app. right. now left. }
      destruct (PrimFloat.leb _ _); [exact Hin | now apply Hgrow].
  - destruct (packStep targetDuration st x) as [st' | st'];
      [now apply IH | contradiction].
Qed.

(** X13.  The loop looks at every sorted candidate, unless it stopped right
    after an admission that brought the accumulated duration to the target:
    nothing else ends it early. *)
Theorem loop_looks_at_all_or_breaks (items : list Scored) (st : PackState) :
  considered (packTrace targetDuration items st) = items
  \/ exists tr1 cur item,
       packTrace targetDuration items st = tr1 ++ [(cur, item, Admit)]
       /\ (targetDuration <=? cur + duration (s_item item))%float = true
       /\ considered (packTrace targetDuration items st)
          = firstn (S (length tr1)) items.
Proof.
  destruct (Nat.lt_ge_cases (length (packTrace targetDuration items st))
                            (length items)) as [Hlt | Hge].
  - right. destruct (packTrace_short _ _ _ Hlt) as (tr1 & cur & item & E & H).
    exists tr1, cur, item. repeat split; [exact E | exact H |].
    rewrite packTrace_prefix, E, length_app. cbn. f_equal. lia.
  - left. rewrite packTrace_prefix. now apply firstn_all2.
Qed.

(** X14.  An item whose duration is not a number passes the length test and
    the budget test, whatever its score: only the title test can skip it.
    Once admitted it makes the accumulated duration not a number, and the loop
    goes on. *)
Theorem nan_duration_is_admitted (st : PackState) (item : Scored) :
  PrimFloat.is_nan (duration (s_item item)) = true ->
  (verdictOf targetDuration st item = SkipDuplicate
   \/ verdictOf targetDuration st item = Admit)
  /\ (verdictOf targetDuration st item = Admit ->
      exists st',
        packStep targetDuration st item = Continue st'
        /\ PrimFloat.is_nan (fst st') = true
        /\ snd st' = snd st ++ [SScored item]).
Proof.
  intros Hn.
  assert ((90 <? duration (s_item item))%float = false) as H90
      by now apply FloatNaN.ltb_nan_r.
  assert (forall c, PrimFloat.is_nan (c + duration (s_item item)) = true) as Hc
      by (intros c; now apply FloatNaN.add_nan_r).
  split.
  - destruct st as [c sel]. unfold verdictOf.
    destruct (existsb _ sel); [now left |].
    rewrite H90, (FloatNaN.ltb_nan_r _ _ (Hc c)). cbn. now right.
  - intros V. rewrite (packStep_admit _ _ _ V). cbn [fst snd].
    rewrite (FloatNaN.leb_nan_r _ _ (Hc (fst st))). eauto.
Qed.

(** X15.  Once the accumulated duration is not a number it stays so: no
    item is skipped for the budget any more, the loop never stops at the
    target and looks at every remaining candidate. *)
Theorem nan_accumulator_disables_budget (items : list Scored) (st : PackState) :
  PrimFloat.is_nan (fst st) = true ->
  considered (packTrace targetDuration items st) = items
  /\ (forall cur item v,
        In (cur, item, v) (packTrace targetDuration items st) ->
        v <> SkipOverflow)
  /\ PrimFloat.is_nan (fst (packLoop targetDuration items st)) = true.
Proof.
  revert st. induction items as [| x items IH]; intros st Hn; cbn.
  - repeat split; [tauto | exact Hn].
  - assert (verdictOf targetDuration st x <> SkipOverflow) as Hv.
    { destruct st as [c sel]. unfold verdictOf. cbn [fst] in Hn.
      destruct (existsb _ sel); [discriminate |].
      destruct (_ && _); [discriminate |].
      rewrite (FloatNaN.ltb_nan_r _ _ (FloatNaN.add_nan_l c _ Hn)).
      discriminate. }
    assert (exists st', packStep targetDuration st x = Continue st'
                        /\ PrimFloat.is_nan (fst st') = true)
      as (st' & E & Hn').
    { unfold packStep. destruct (verdictOf targetDuration st x);
        try (exists st; split; [reflexivity | exact Hn]).
      cbn [fst snd].
      pose proof (FloatNaN.add_nan_l (fst st) (duration (s_item x)) Hn) as Ha.
      rewrite (FloatNaN.leb_nan_r _ _ Ha). eauto. }
    rewrite E. destruct (IH st' Hn') as (H1 & H2 & H3).
    unfold considered in *. cbn [map fst snd]. rewrite H1.
    repeat split; [| exact H3].
    intros cur item v [Eq | Hin]; [| eauto].
    injection Eq as <- <- <-. exact Hv.
Qed.

End PackerMore.

Lemma high_score_title_is_selected_witness :
  60 <= score Demo.scoredA
  /\ In (8%float, Demo.scoredA, Admit)
        (packTrace 70 [Demo.scoredA; Demo.scoredB] Demo.seeded)
  /\ (Admit = SkipDuplicate \/ Admit = Admit)
  /\ In (title (s_item Demo.scoredA))
        (titles (snd (packLoop 70 [Demo.scoredA; Demo.scoredB] Demo.seeded))).
Proof.
  assert (60 <= score Demo.scoredA) as H1 by (cbn; lia).
  assert (In (8%float, Demo.scoredA, Admit)
             (packTrace 70 [Demo.scoredA; Demo.scoredB] Demo.seeded)) as H2
      by (left; reflexivity).
  split; [exact H1 |]. split; [exact H2 |].
  exact (high_score_title_is_selected 70 [Demo.scoredA; Demo.scoredB]
           Demo.seeded 8%float Demo.scoredA Admit H1 H2).
Defined.

Lemma nan_duration_is_admitted_witness :
  PrimFloat.is_nan (duration (s_item Undated.blank)) = true
  /\ (verdictOf 70 Demo.seeded Undated.blank = SkipDuplicate
      \/ verdictOf 70 Demo.seeded Undated.blank = Admit)
  /\ (verdictOf 70 Demo.seeded Undated.blank = Admit ->
      exists st',
        packStep 70 Demo.seeded Undated.blank = Continue st'
        /\ PrimFloat.is_nan (fst st') = true
        /\ snd st' = snd Demo.seeded ++ [SScored Undated.blank]).
Proof.
  split; [reflexivity |].
  apply (nan_duration_is_admitted 70 Demo.seeded Undated.blank). reflexivity.
Defined.

Lemma nan_accumulator_disables_budget_witness :
  let st : PackState := (PrimFloat.nan, [SScored Undated.blank]) in
  let items := [Demo.scoredA; Demo.scoredB] in
  considered (packTrace 70 items st) = items
  /\ (forall cur item v,
        In (cur, item, v) (packTrace 70 items st) -> v <> SkipOverflow)
  /\ PrimFloat.is_nan (fst (packLoop 70 items st)) = true.
Proof.
  apply (nan_accumulator_disables_budget 70 [Demo.scoredA; Demo.scoredB]
           (PrimFloat.nan, [SScored Undated.blank])).
  reflexivity.
Defined.

(** ** The selection of a run *)

Lemma scoredOf_app (a b : list Sel) : scoredOf (a ++ b) = scoredOf a ++ scoredOf b.
Proof. apply omap_app. Qed.

Lemma scoredOf_scored (l : list Scored) : scoredOf (map SScored l) = l.
Proof. induction l as [| x l IH]; cbn; [reflexivity | now f_equal]. Qed.

Lemma descending_strong (l : list Scored) :
  descending l <-> StronglySorted (fun a b => score b <= score a) l.
Proof.
  split.
  - apply Sorted_StronglySorted. intros a b c H1 H2. lia.
  - apply StronglySorted_Sorted.
Qed.

Lemma descending_sublist (l k : list Scored) :
  l `sublist_of` k -> descending k -> descending l.
Proof.
  rewrite !descending_strong. induction 1 as [| x l k Hs IH | x l k Hs IH];
    intros Hk.
  - constructor.
  - apply StronglySorted_inv in Hk as [Hk Hx]. constructor; [auto |].
    rewrite List.Forall_forall in *. intros y Hy. apply Hx.
    apply list_elem_of_In. eapply elem_of_sublist; [| exact Hs].
    now apply list_elem_of_In.
  - apply StronglySorted_inv in Hk as [Hk _]. auto.
Qed.

(** The seed of a run: empty, or the briefing alone with its duration. *)
Lemma run_seed_cases (env : Env) (config : Config) (w : World) (r : Result)
  (w' : World) :
  run env config w = Some (r, w') ->
  exists seed,
    (r_currentDuration r, r_selected r)
    = packLoop (r_targetDuration r) (r_scoredItems r) seed
    /\ (seed = (0%float, [])
        \/ exists b, r_newsBriefing r = Some b
                     /\ seed = ((0 + duration b)%float, [SBriefing b])).
Proof.
  intros Hrun. destruct (run_seed env config w r w' Hrun) as (_ & _ & E & _).
  cbv zeta in E. eexists. split; [exact E |].
  destruct (r_newsBriefing r) as [b |]; [| now left].
  destruct (PrimFloat.ltb _ 24); [right; eauto | now left].
Qed.

(** X16.  The selection of a run: no two selected items share a title; the
    reported total is the sum of their durations, added in the order of
    selection; the scored items among them are a subsequence of the sorted
    list, hence in descending order of score; and there is at most one more
    item than there are candidates. *)
Theorem run_selection_shape (env : Env) (config : Config) (w : World)
  (r : Result) (w' : World) :
  run env config w = Some (r, w') ->
  NoDup (titles (r_selected r))
  /\ r_currentDuration r = totalOf (r_selected r)
  /\ scoredOf (r_selected r) `sublist_of` r_scoredItems r
  /\ descending (scoredOf (r_selected r))
  /\ (length (r_selected r) <= S (length (r_candidates r)))%nat.
Proof.
  intros Hrun.
  destruct (run_seed_cases env config w r w' Hrun) as (seed & E & Hseed).
  assert (NoDup (titles (snd seed)) /\ fst seed = totalOf (snd seed)
          /\ scoredOf (snd seed) = [] /\ (length (snd seed) <= 1)%nat)
    as (Hnd & Htot & Hsc & Hlen).
  { destruct Hseed as [-> | (b & _ & ->)]; cbn.
    - repeat split; [constructor | lia].
    - repeat split; [apply NoDup_singleton | lia]. }
  pose proof (packLoop_titles_NoDup (r_targetDuration r)
                (r_scoredItems r) seed Hnd) as H1.
  pose proof (packLoop_total (r_targetDuration r)
                (r_scoredItems r) seed Htot) as H2.
  pose proof (packLoop_selected (r_targetDuration r)
                (r_scoredItems r) seed) as H3.
  pose proof (admitted_sublist (r_targetDuration r) (r_scoredItems r) seed)
    as H4.
  rewrite <- E in H1, H2, H3. cbn [fst snd] in H1, H2, H3.
  assert (scoredOf (r_selected r)
          = admitted (packTrace (r_targetDuration r) (r_scoredItems r) seed))
    as Hadm.
  { rewrite H3, scoredOf_app, Hsc, scoredOf_scored. reflexivity. }
  assert (descending (r_scoredItems r)) as Hdesc.
  { destruct (run_inv env config w r w' Hrun)
      as (w1 & scored & w2 & seed' & _ & _ & _ & ->).
    cbn [r_scoredItems]. apply sortByScore_descending. }
  assert (length (r_scoredItems r) <= length (r_candidates r))%nat as Hle.
  { destruct (run_inv env config w r w' Hrun)
      as (w1 & scored & w2 & seed' & _ & Hmap & _ & ->).
    cbn [r_scoredItems r_candidates].
    apply mapM_scoreItem_spec in Hmap as (Hm & _).
    rewrite <- Hm, length_map.
    rewrite (Permutation_length (sortByScore_perm _)).
    apply List.filter_length_le. }
  repeat split; [exact H1 | exact H2 | now rewrite Hadm | |].
  - rewrite Hadm. eapply descending_sublist; [exact H4 | exact Hdesc].
  - rewrite H3, length_app, length_map.
    apply sublist_length in H4. lia.
Qed.

Lemma run_selection_shape_witness :
  let e := Demo.frozen Demo.t0 in
  let c := Demo.config 70 Demo.feedList in
  let r := fst (Demo.ranOn e c) in
  run e c Demo.world = Some (Demo.ranOn e c)
  /\ NoDup (titles (r_selected r))
  /\ r_currentDuration r = totalOf (r_selected r)
  /\ scoredOf (r_selected r) `sublist_of` r_scoredItems r
  /\ descending (scoredOf (r_selected r))
  /\ (length (r_selected r) <= S (length (r_candidates r)))%nat.
Proof.
  cbv zeta.
  assert (run (Demo.frozen Demo.t0) (Demo.config 70 Demo.feedList) Demo.world
          = Some (Demo.ranOn (Demo.frozen Demo.t0)
                    (Demo.config 70 Demo.feedList))) as E
      by (vm_compute; reflexivity).
  split; [exact E |].
  apply (run_selection_shape (Demo.frozen Demo.t0)
           (Demo.config 70 Demo.feedList) Demo.world
           (fst (Demo.ranOn (Demo.frozen Demo.t0)
                   (Demo.config 70 Demo.feedList)))
           (snd (Demo.ranOn (Demo.frozen Demo.t0)
                   (Demo.config 70 Demo.feedList)))).
  rewrite E. now destruct (Demo.ranOn _ _).
Defined.

(** ** More on the fetch loop *)

Section FetchMore.

Variable env : Env.

Lemma failed_feed_views (fc : FeedConfig) :
  parseURL env (fc_url fc) = None \/ fc_tags fc = None ->
  feedCandidates env fc = [] /\ feedBriefing env fc = None.
Proof.
  unfold feedCandidates, feedBriefing.
  intros [-> | ->]; [split; reflexivity |].
  destruct (parseURL env (fc_url fc)); split; reflexivity.
Qed.

(** X17.  A feed whose fetch fails, or that has no tag list, is as good as
    absent from the configuration: the candidates and the briefing are those
    of the other feeds. *)
Theorem failed_feed_is_ignored (l1 l2 : list FeedConfig) (fc : FeedConfig) :
  parseURL env (fc_url fc) = None \/ fc_tags fc = None ->
  fetchAll env (l1 ++ fc :: l2) = fetchAll env (l1 ++ l2).
Proof.
  intros H. destruct (failed_feed_views fc H) as [Hc Hb].
  rewrite !fetchAll_views, !flat_map_app, !omap_app. cbn.
  now rewrite Hc, Hb.
Qed.

Lemma feedItems_audio (fc : FeedConfig) (raw : list RawItem) (c : Item) :
  In c (feedItems fc raw) -> truthy_str (audio_url c) = true.
Proof. intros H. now apply feedItems_In in H as (x & _ & _ & H). Qed.

Lemma feedItems_length (fc : FeedConfig) (raw : list RawItem) :
  (length (feedItems fc raw) <= 5)%nat.
Proof.
  unfold feedItems.
  etransitivity; [apply List.filter_length_le |].
  rewrite length_map, length_firstn. lia.
Qed.

Lemma feedCandidates_length (fc : FeedConfig) :
  (length (feedCandidates env fc) <= 5)%nat.
Proof.
  unfold feedCandidates.
  destruct (parseURL env (fc_url fc)) as [raw |]; [| cbn; lia].
  destruct (fc_tags fc) as [ts |]; [| cbn; lia].
  destruct (isBriefingFeed ts); [cbn; lia | apply feedItems_length].
Qed.

Lemma candidates_length (fcs : list FeedConfig) :
  (length (flat_map (feedCandidates env) fcs) <= 5 * length fcs)%nat.
Proof.
  induction fcs as [| fc fcs IH]; cbn [flat_map length]; [lia |].
  rewrite length_app. pose proof (feedCandidates_length fc). lia.
Qed.

Lemma candidate_audio (fcs : list FeedConfig) (c : Item) :
  In c (fst (fetchAll env fcs)) -> truthy_str (audio_url c) = true.
Proof.
  rewrite fetchAll_views. cbn [fst]. intros H.
  apply in_flat_map in H as (fc & _ & H).
  apply feedCandidates_spec in H as (raw & ts & _ & _ & _ & H).
  now apply feedItems_audio in H.
Qed.

Lemma held_briefing_short (fcs : list FeedConfig) (b : Item) :
  snd (fetchAll env fcs) = Some b ->
  truthy_str (audio_url b) = true /\ (duration b <? 15)%float = true.
Proof.
  rewrite fetchAll_views. cbn [snd]. intros H.
  apply holder_from_none in H as (l1 & l2 & E & _).
  assert (In b (omap (feedBriefing env) fcs)) as Hb
      by (rewrite E; apply in_or_app; right; now left).
  apply offers_In in Hb as (fc & _ & Hb).
  apply feedBriefing_spec in Hb
    as (raw & ts & pre & post & _ & _ & _ & _ & E' & Hd & _).
  split; [| exact Hd].
  apply (feedItems_audio fc raw). rewrite E'.
  apply in_or_app. right. now left.
Qed.

(** X18.  What the fetch loop leaves behind: every candidate has an audio
    URL; the briefing it holds, if any, has one too and is shorter than 15
    minutes; and there are at most five candidates for each configured
    feed. *)
Theorem fetched_items_playable (fcs : list FeedConfig) :
  (forall c, In c (fst (fetchAll env fcs)) ->
     truthy_str (audio_url c) = true)
  /\ (forall b, snd (fetchAll env fcs) = Some b ->
        truthy_str (audio_url b) = true /\ (duration b <? 15)%float = true)
  /\ (length (fst (fetchAll env fcs)) <= 5 * length fcs)%nat.
Proof.
  split; [apply candidate_audio |]. split; [apply held_briefing_short |].
  rewrite fetchAll_views. apply candidates_length.
Qed.

End FetchMore.

(** X19.  Every selected item of a run has an audio URL, and is one of the
    candidates or the briefing the fetch loop held. *)
Theorem selected_items_have_audio (env : Env) (config : Config) (w : World)
  (r : Result) (w' : World) (s : Sel) :
  run env config w = Some (r, w') ->
  In s (r_selected r) ->
  truthy_str (audio_url (sel_item s)) = true
  /\ (In (sel_item s) (r_candidates r) \/ r_newsBriefing r = Some (sel_item s)).
Proof.
  intros Hrun Hs.
  destruct (run_seed_cases env config w r w' Hrun) as (seed & E & Hseed).
  destruct (run_seed env config w r w' Hrun) as (Hnb & Hc & _ & Hsub).
  pose proof (candidate_audio env (cfg_feeds config)) as Ha.
  pose proof (held_briefing_short env (cfg_feeds config)) as Hb.
  rewrite <- Hc in Ha. rewrite <- Hnb in Hb.
  assert (In (sel_item s) (r_candidates r)
          \/ r_newsBriefing r = Some (sel_item s)) as Hor.
  { pose proof (packLoop_selected (r_targetDuration r) (r_scoredItems r) seed)
      as Hsel.
    rewrite <- E in Hsel. cbn [snd] in Hsel. rewrite Hsel in Hs.
    apply in_app_or in Hs as [Hs | Hs].
    - destruct Hseed as [-> | (b & Eb & ->)]; [destruct Hs |].
      destruct Hs as [<- | []]. now right.
    - apply in_map_iff in Hs as (x & <- & Hx).
      apply admitted_considered in Hx. left. cbn.
      apply list_elem_of_In, Hsub, list_elem_of_In.
      now apply in_map. }
  split; [| exact Hor].
  destruct Hor as [H | H]; [now apply Ha | now apply Hb].
Qed.

Lemma selected_items_have_audio_witness :
  let e := Demo.frozen Demo.t0 in
  let c := Demo.config 70 Demo.feedList in
  let r := fst (Demo.ranOn e c) in
  run e c Demo.world = Some (Demo.ranOn e c)
  /\ In (SScored Demo.scoredA) (r_selected r)
  /\ truthy_str (audio_url Demo.itemA) = true
  /\ (In Demo.itemA (r_candidates r) \/ r_newsBriefing r = Some Demo.itemA).
Proof.
  cbv zeta.
  assert (run (Demo.frozen Demo.t0) (Demo.config 70 Demo.feedList) Demo.world
          = Some (Demo.ranOn (Demo.frozen Demo.t0)
                    (Demo.config 70 Demo.feedList))) as E
      by (vm_compute; reflexivity).
  assert (In (SScored Demo.scoredA)
             (r_selected (fst (Demo.ranOn (Demo.frozen Demo.t0)
                                 (Demo.config 70 Demo.feedList))))) as Hin
      by (vm_compute; tauto).
  split; [exact E |]. split; [exact Hin |].
  apply (selected_items_have_audio (Demo.frozen Demo.t0)
           (Demo.config 70 Demo.feedList) Demo.world
           (fst (Demo.ranOn (Demo.frozen Demo.t0)
                   (Demo.config 70 Demo.feedList)))
           (snd (Demo.ranOn (Demo.frozen Demo.t0)
                   (Demo.config 70 Demo.feedList)))
           (SScored Demo.scoredA)).
  - rewrite E. now destruct (Demo.ranOn _ _).
  - exact Hin.
Defined.

Lemma failed_feed_is_ignored_witness :
  parseURL (Demo.frozen Demo.t0) (fc_url Demo.deadFeed) = None
  /\ fetchAll (Demo.frozen Demo.t0)
       ([Demo.briefFeed] ++ Demo.deadFeed :: [Demo.generalFeed])
     = fetchAll (Demo.frozen Demo.t0) ([Demo.briefFeed] ++ [Demo.generalFeed]).
Proof.
  split; [reflexivity |].
  apply (failed_feed_is_ignored (Demo.frozen Demo.t0)). left. reflexivity.
Defined.

(** ** The sort is stable *)

Lemma insertByScore_filter (k : Z) (x : Scored) (l : list Scored) :
  List.filter (fun s => score s =? k) (insertByScore x l)
  = List.filter (fun s => score s =? k) (x :: l).
Proof.
  induction l as [| y l IH]; [reflexivity |].
  cbn [insertByScore]. destruct (score y <=? score x) eqn:E; [reflexivity |].
  apply Z.leb_gt in E.
  cbn [List.filter] in *. rewrite IH.
  destruct (score y =? k) eqn:Ey; [| reflexivity].
  apply Z.eqb_eq in Ey.
  replace (score x =? k) with false by (symmetry; apply Z.eqb_neq; lia).
  reflexivity.
Qed.

(** X20.  The sort rearranges the scored items in descending order of score
    and keeps the items of any one score in the order they had. *)
Theorem sortByScore_stable (l : list Scored) :
  Permutation (sortByScore l) l
  /\ descending (sortByScore l)
  /\ forall k, List.filter (fun s => score s =? k) (sortByScore l)
               = List.filter (fun s => score s =? k) l.
Proof.
  split; [apply sortByScore_perm |]. split; [apply sortByScore_descending |].
  intros k. induction l as [| x l IH]; [reflexivity |].
  change (sortByScore (x :: l)) with (insertByScore x (sortByScore l)).
  rewrite insertByScore_filter. cbn [List.filter]. now rewrite IH.
Qed.

(** ** A run in which every feed fails *)

(** X21.  When every feed fails the run still returns: no candidate, no
    briefing, nothing selected, a total of 0, after two clock queries. *)
Theorem no_feed_no_selection (env : Env) (config : Config) (w : World)
  (rules0 : RulesObj) (bk bl bg dk db : list string) :
  rulesAt (heap w) (cfg_rules config) rules0 bk bl bg dk db ->
  (forall fc, In fc (cfg_feeds config) ->
     parseURL env (fc_url fc) = None \/ fc_tags fc = None) ->
  exists r w',
    run env config w = Some (r, w')
    /\ r_candidates r = [] /\ r_newsBriefing r = None
    /\ r_scoredItems r = [] /\ r_selected r = []
    /\ r_currentDuration r = 0%float
    /\ ticks w' = S (S (ticks w)).
Proof.
  intros Hat Hfail.
  destruct (run_total env config w _ _ _ _ _ _ Hat) as (r & w' & Hrun).
  exists r, w'. split; [exact Hrun |].
  assert (fetchAll env (cfg_feeds config) = ([], None)) as Ef.
  { rewrite fetchAll_views.
    induction (cfg_feeds config) as [| fc fcs IH]; [reflexivity |].
    destruct (failed_feed_views env fc (Hfail fc (or_introl eq_refl)))
      as [Hc Hb].
    cbn. rewrite Hc, Hb. cbn [app].
    apply IH. intros fc' H. apply Hfail. now right. }
  destruct (run_inv env config w r w' Hrun)
    as (w1 & scored & w2 & seed & Hb & Hmap & Hseed & ->).
  cbn [r_candidates r_newsBriefing r_scoredItems r_selected r_currentDuration].
  rewrite Ef in *. cbn [fst snd] in *.
  cbn in Hmap. injection Hmap as <- <-.
  cbn in Hseed. injection Hseed as <- <-.
  cbn. repeat split.
  destruct (getDay env (clock env (ticks w)) =? 4); cbn [buildRules] in Hb.
  - rewrite (mergeDateNight_spec
               {| ticks := S (S (ticks w)); heap := heap w |}
               _ _ _ _ _ _ _ Hat) in Hb.
    injection Hb as <-. reflexivity.
  - injection Hb as <-. reflexivity.
Qed.

Lemma no_feed_no_selection_witness :
  exists r w',
    run (Demo.frozen Demo.t0) (Demo.config 70 [Demo.deadFeed]) Demo.world
    = Some (r, w')
    /\ r_candidates r = [] /\ r_newsBriefing r = None
    /\ r_scoredItems r = [] /\ r_selected r = []
    /\ r_currentDuration r = 0%float
    /\ ticks w' = S (S (ticks Demo.world)).
Proof.
  apply (no_feed_no_selection (Demo.frozen Demo.t0)
           (Demo.config 70 [Demo.deadFeed]) Demo.world
           {| boost_keywords := 0; block_keywords := 1; boost_guests := 2;
              datenight_keywords := 3; datenight_block := 4 |}
           ["rust"; "coq"; "ocaml"; "lean"; "agda"]%string ["crypto"]%string
           ["Guest1"]%string ["love"]%string ["war"]%string).
  - repeat split.
  - intros fc [<- | []]. left. reflexivity.
Defined.

(** ** More on the duration normalizer *)

Lemma digit_facts (c : ascii) :
  JS.is_digit c = true ->
  JS.is_ws c = false /\ JS.is_char c "+" = false /\ JS.is_char c "-" = false
  /\ JS.is_char c "x" = false /\ JS.is_char c "X" = false.
Proof.
  intros H. apply digit_field_char, field_char_facts in H.
  tauto.
Qed.

(** X22.  A string that converts to a number is read by [parseInt], which
    stops at the first character that is no digit: a decimal point or an
    exponent and all that follows are dropped, so "90.5" counts as 90 seconds
    and "1e3" as 1 second. *)
Theorem parseDuration_reads_leading_digits (d : string) (c : ascii)
  (rest : string) :
  JS.all_digits d = true -> d <> ""%string ->
  JS.is_digit c = false ->
  JS.is_char c "x" = false -> JS.is_char c "X" = false ->
  JS.isNaN (d ++ String c rest) = false ->
  parseDuration (JS.Str (d ++ String c rest))
  = (JS.of_Z (JS.decimal d) / 60)%float.
Proof.
  intros Hd Hne Hc Hx HX Hnum.
  unfold parseDuration. cbn [JS.truthy].
  destruct d as [| c0 d]; [congruence |].
  cbn [append] in Hnum |- *. cbn [String.eqb negb]. rewrite Hnum.
  cbn [negb]. f_equal.
  unfold JS.all_digits in Hd. cbn [JS.chars list_ascii_of_string forallb] in Hd.
  apply andb_true_iff in Hd as [H0 Hd].
  destruct (digit_facts c0 H0) as (Hws & Hp & Hm & _).
  unfold JS.parseInt.
  change (JS.chars (String c0 (d ++ String c rest)))
    with (c0 :: JS.chars (d ++ String c rest)).
  cbn [JS.trim_start]. rewrite Hws, Hm, Hp.
  assert ((match c0 :: JS.chars (d ++ String c rest) with
           | z :: x :: l' =>
               if JS.is_char z "0" && (JS.is_char x "x" || JS.is_char x "X")
               then (16, l') else (10, c0 :: JS.chars (d ++ String c rest))
           | _ => (10, c0 :: JS.chars (d ++ String c rest))
           end) = (10, c0 :: JS.chars (d ++ String c rest))) as ->.
  { destruct d as [| c1 d]; cbn [append JS.chars list_ascii_of_string].
    - rewrite Hx, HX. now rewrite andb_false_r.
    - cbn [JS.chars list_ascii_of_string forallb] in Hd.
      apply andb_true_iff in Hd as [H1 _].
      destruct (digit_facts c1 H1) as (_ & _ & _ & E1 & E2).
      rewrite E1, E2. now rewrite andb_false_r. }
  rewrite chars_app. change (JS.chars (String c rest)) with (c :: JS.chars rest).
  assert (forallb JS.is_digit (c0 :: JS.chars d) = true) as Hall
      by (cbn [forallb]; rewrite H0; exact Hd).
  change (c0 :: JS.chars d ++ c :: JS.chars rest)
    with ((c0 :: JS.chars d) ++ c :: JS.chars rest).
  rewrite (take_digits_stop _ _ _ 0 0 Hall Hc).
  cbn [length].
  replace (0 <? 0 + Z.of_nat (S (length (JS.chars d)))) with true
    by (symmetry; apply Z.ltb_lt; lia).
  reflexivity.
Qed.

Lemma parseDuration_reads_leading_digits_witness :
  JS.isNaN "1e3" = false
  /\ parseDuration (JS.Str "1e3") = (JS.of_Z 1 / 60)%float.
Proof.
  split; [vm_compute; reflexivity |].
  apply (parseDuration_reads_leading_digits "1" "e" "3");
    try (vm_compute; reflexivity); discriminate.
Defined.

Lemma trim_start_blank (l : list ascii) :
  forallb JS.is_ws l = true -> JS.trim_start l = [].
Proof.
  induction l as [| c l IH]; cbn; [reflexivity |].
  intros H. apply andb_true_iff in H as [-> H]. auto.
Qed.

(** X23.  A non-empty string of white space converts to the number 0, so it
    counts as numeric, but [parseInt] finds no digit in it: the duration is
    not a number. *)
Theorem parseDuration_blank_is_nan (s : string) :
  s <> ""%string -> forallb JS.is_ws (JS.chars s) = true ->
  JS.isNaN s = false
  /\ PrimFloat.is_nan (parseDuration (JS.Str s)) = true.
Proof.
  intros Hne Hws.
  assert (JS.isNaN s = false) as Hnum.
  { unfold JS.isNaN, JS.ToNumber, JS.trim.
    rewrite (trim_start_blank _ Hws). reflexivity. }
  split; [exact Hnum |].
  unfold parseDuration. cbn [JS.truthy].
  destruct (String.eqb s "") eqn:E; [apply String.eqb_eq in E; congruence |].
  cbn [negb]. rewrite Hnum. cbn [negb].
  unfold JS.parseInt. rewrite (trim_start_blank _ Hws). reflexivity.
Qed.

Lemma parseDuration_blank_is_nan_witness :
  JS.isNaN " " = false
  /\ PrimFloat.is_nan (parseDuration (JS.Str " ")) = true.
Proof.
  apply (parseDuration_blank_is_nan " "); [discriminate | reflexivity].
Defined.

(** ** The environment file *)

Lemma split_nonempty (sep : ascii) (s : string) : JS.split sep s <> [].
Proof.
  destruct s as [| c s]; cbn; [discriminate |].
  destruct (Ascii.eqb c sep); [discriminate |].
  destruct (JS.split sep s); discriminate.
Qed.

Lemma split_lines (sep : ascii) (a b : string) :
  JS.split sep (a ++ String sep b) = JS.split sep a ++ JS.split sep b.
Proof.
  induction a as [| c a IH]; cbn [append JS.split].
  - now rewrite Ascii.eqb_refl.
  - destruct (Ascii.eqb c sep); [now rewrite IH |].
    rewrite IH. pose proof (split_nonempty sep a) as Hne.
    destruct (JS.split sep a) as [| p ps]; [congruence | reflexivity].
Qed.

Lemma split_none (sep : ascii) (a : string) :
  occurs sep a = false -> JS.split sep a = [a].
Proof.
  induction a as [| c a IH]; cbn; [reflexivity |].
  intros H. apply orb_false_iff in H as [Hc Ha].
  rewrite Ascii.eqb_sym, Hc. now rewrite (IH Ha).
Qed.

Lemma split_first (sep : ascii) (a b : string) :
  occurs sep a = false ->
  JS.split sep (a ++ String sep b) = a :: JS.split sep b.
Proof. intros H. now rewrite split_lines, (split_none sep a H). Qed.

(** A text is free of the separator, or has a first occurrence of it. *)
Lemma first_occurrence (sep : ascii) (s : string) :
  occurs sep s = false
  \/ exists a b, s = (a ++ String sep b)%string /\ occurs sep a = false.
Proof.
  induction s as [| c s IH]; [now left |].
  destruct (Ascii.eqb sep c) eqn:E.
  - apply Ascii.eqb_eq in E. subst c. right. exists ""%string, s. now split.
  - destruct IH as [H | (a & b & -> & H)].
    + left. cbn. now rewrite E.
    + right. exists (String c a), b. split; [reflexivity |].
      cbn. now rewrite E.
Qed.

(** X24.  The environment file is read line by line: the assignments of two
    texts joined by a line feed are those of the first followed by those of
    the second. *)
Theorem envAssignments_lines (a b : string) :
  envAssignments (a ++ String "010" b) = envAssignments a ++ envAssignments b.
Proof. unfold envAssignments. now rewrite split_lines, omap_app. Qed.

(** X25.  A line assigns a variable exactly when it has a non-empty key, an
    equals sign and a non-empty value, the value ending at the next equals
    sign or at the end of the line; key and value are trimmed.  A line
    without an equals sign, with nothing before it or nothing after it,
    assigns nothing. *)
Theorem lineAssignment_shape (line k v : string) :
  lineAssignment line = Some (k, v) <->
  exists key val,
    occurs "=" key = false /\ occurs "=" val = false
    /\ key <> ""%string /\ val <> ""%string
    /\ k = trimString key /\ v = trimString val
    /\ (line = (key ++ "=" ++ val)%string
        \/ exists rest, line = (key ++ "=" ++ val ++ "=" ++ rest)%string).
Proof.
  assert (forall s, s <> ""%string <-> truthy_str (Some s) = true) as Htr.
  { intros s. cbn. destruct (String.eqb s "") eqn:E; cbn.
    - apply String.eqb_eq in E. split; [congruence | discriminate].
    - apply String.eqb_neq in E. tauto. }
  assert (forall key val tl,
            occurs "=" key = false -> occurs "=" val = false ->
            JS.split "=" line = key :: val :: tl ->
            lineAssignment line = Some (k, v) <->
            key <> ""%string /\ val <> ""%string
            /\ k = trimString key /\ v = trimString val) as Hcase.
  { intros key val tl Hk Hv E. unfold lineAssignment, keyVal. rewrite E.
    rewrite (Htr key), (Htr val).
    destruct (truthy_str (Some key)), (truthy_str (Some val)); cbn [andb];
      split; try discriminate; try (intros (? & ? & _); discriminate).
    - intros [= <- <-]. auto.
    - intros (_ & _ & -> & ->). reflexivity. }
  split.
  - intros H.
    destruct (first_occurrence "=" line) as [Hn | (key & r & -> & Hk)].
    { unfold lineAssignment, keyVal in H. rewrite (split_none _ _ Hn) in H.
      discriminate. }
    destruct (first_occurrence "=" r) as [Hn | (val & rest & -> & Hv)].
    + pose proof (split_first "=" key r Hk) as E.
      rewrite (split_none _ _ Hn) in E.
      apply (Hcase key r [] Hk Hn E) in H as (H1 & H2 & H3 & H4).
      exists key, r. repeat split; try assumption. now left.
    + pose proof (split_first "=" key (val ++ String "=" rest) Hk) as E.
      rewrite (split_first "=" val rest Hv) in E.
      apply (Hcase key val _ Hk Hv E) in H as (H1 & H2 & H3 & H4).
      exists key, val. repeat split; try assumption. right. now exists rest.
  - intros (key & val & Hk & Hv & H1 & H2 & H3 & H4 & [-> | (rest & ->)]).
    + pose proof (split_first "=" key val Hk) as E.
      rewrite (split_none _ _ Hv) in E.
      change ("=" ++ val)%string with (String "=" val).
      apply (Hcase key val [] Hk Hv E). auto.
    + change ("=" ++ val ++ "=" ++ rest)%string
        with (String "=" (val ++ String "=" rest)).
      pose proof (split_first "=" key (val ++ String "=" rest) Hk) as E.
      rewrite (split_first "=" val rest Hv) in E.
      apply (Hcase key val _ Hk Hv E). auto.
Qed.

(** X26.  A value is cut at its first equals sign: what follows a second
    equals sign on the line is ignored. *)
Theorem env_value_cut_at_equals (key val rest : string) :
  occurs "=" key = false -> occurs "=" val = false ->
  lineAssignment (key ++ "=" ++ val ++ "=" ++ rest)
  = lineAssignment (key ++ "=" ++ val).
Proof.
  intros Hk Hv. unfold lineAssignment, keyVal.
  change ("=" ++ val ++ "=" ++ rest)%string
    with (String "=" (val ++ String "=" rest)).
  change ("=" ++ val)%string with (String "=" val).
  rewrite !(split_first "=" key _ Hk), (split_first "=" val rest Hv),
    (split_none "=" val Hv).
  reflexivity.
Qed.

Lemma env_value_cut_at_equals_witness :
  lineAssignment "TOKEN=abc=" = lineAssignment "TOKEN=abc"
  /\ lineAssignment "TOKEN=abc" = Some ("TOKEN", "abc")%string.
Proof.
  split; [| reflexivity].
  apply (env_value_cut_at_equals "TOKEN" "abc" ""); reflexivity.
Defined.

(** ** A briefing without a valid date *)

Lemma holder_undated (picks : list Item) (h : Item) :
  pubDate h = None -> fold_left holderStep picks (Some h) = Some h.
Proof.
  intros Hh. induction picks as [| p picks IH]; [reflexivity |].
  cbn [fold_left holderStep]. rewrite Hh.
  destruct (pubDate p); exact IH.
Qed.

Lemma omap_none {A B} (f : A -> option B) (l : list A) :
  (forall x, In x l -> f x = None) -> omap f l = [].
Proof.
  induction l as [| x l IH]; intros H; [reflexivity |].
  cbn. rewrite (H x (or_introl eq_refl)). apply IH.
  intros y Hy. apply H. now right.
Qed.

(** X27.  When the first briefing the feeds offer has an invalid date, no
    later briefing replaces it, since no date compares as later than an
    invalid one; and its age is not a number, so it is not selected either:
    the run selects no briefing at all. *)
Theorem undated_briefing_blocks_briefings (env : Env) (config : Config)
  (w : World) (r : Result) (w' : World) (l1 l2 : list FeedConfig)
  (fc : FeedConfig) (b : Item) :
  run env config w = Some (r, w') ->
  cfg_feeds config = l1 ++ fc :: l2 ->
  (forall fc', In fc' l1 -> feedBriefing env fc' = None) ->
  feedBriefing env fc = Some b ->
  pubDate b = None ->
  r_newsBriefing r = Some b
  /\ forall x, ~ In (SBriefing x) (r_selected r).
Proof.
  intros Hrun Hfeeds Hl1 Hfc Hdate.
  assert (r_newsBriefing r = Some b) as Hnb.
  { destruct (run_seed env config w r w' Hrun) as (-> & _).
    rewrite Hfeeds, fetchAll_views. cbn [snd].
    rewrite omap_app, (omap_none _ _ Hl1). cbn. rewrite Hfc.
    cbn [fold_left holderStep]. now apply holder_undated. }
  split; [exact Hnb |].
  destruct (run_briefing env config w r w' b Hrun Hnb) as (_ & _ & H).
  apply H. rewrite Hdate. cbn [timeValue].
  apply FloatOrder.ltb_nan_l, FloatNaN.div_nan_l, FloatNaN.sub_nan_r.
  reflexivity.
Qed.

Lemma undated_briefing_blocks_briefings_witness :
  let c := Demo.config 70 Undated.feeds in
  let r := fst (Demo.ranOn Undated.env c) in
  run Undated.env c Demo.world = Some (Demo.ranOn Undated.env c)
  /\ feedBriefing Undated.env Demo.briefFeed = Some Demo.briefing
  /\ r_newsBriefing r = Some Undated.undatedBriefing
  /\ forall x, ~ In (SBriefing x) (r_selected r).
Proof.
  cbv zeta.
  assert (run Undated.env (Demo.config 70 Undated.feeds) Demo.world
          = Some (Demo.ranOn Undated.env (Demo.config 70 Undated.feeds))) as E
      by (vm_compute; reflexivity).
  split; [exact E |]. split; [reflexivity |].
  apply (undated_briefing_blocks_briefings Undated.env
           (Demo.config 70 Undated.feeds) Demo.world
           (fst (Demo.ranOn Undated.env (Demo.config 70 Undated.feeds)))
           (snd (Demo.ranOn Undated.env (Demo.config 70 Undated.feeds)))
           [Demo.generalFeed] [Demo.briefFeed] Undated.feed
           Undated.undatedBriefing).
  - rewrite E. now destruct (Demo.ranOn _ _).
  - reflexivity.
  - intros fc' [<- | []]. reflexivity.
  - reflexivity.
  - reflexivity.
Defined.
